(** * Reconable run orchestrator: a shallow embedding and its properties

    The development follows the TypeScript sources:
    - [scraping/brightdata-scraper.ts]  (module [Scraper])
    - [memory/schema.ts], [memory/canonical.ts], [memory/vector.ts]
    - [agents/compliance.ts], [agents/harvester.ts]
    - [linkedin-osint.ts], class [SubjectOrchestrator]

    JavaScript numbers are binary64 floats ([PrimFloat.float]); strings are
    the bytes of their UTF-8 encoding; exceptions are the message of the
    thrown [Error]. *)

From Stdlib Require Import ZArith NArith Uint63 Floats Ascii String List Bool Lia.
From stdpp Require Import base tactics option list strings pretty gmap sorting.

Set Warnings "-inexact-float,-register-all".
Local Open Scope string_scope.
Local Open Scope list_scope.

(** ** JSON values and the JavaScript coercions used by the sources *)

Inductive json : Type :=
| JNull
| JBool (b : bool)
| JNum (f : float)
| JStr (s : string)
| JArr (l : list json)
| JObj (fields : list (string * json)).

(** A JavaScript value is a JSON value or [undefined] ([None]). *)
Abbreviation jsval := (option json).

Fixpoint assoc_get (k : string) (fields : list (string * json)) : jsval :=
  match fields with
  | [] => None
  | (k', v) :: rest => if String.eqb k k' then Some v else assoc_get k rest
  end.

(** Property read [v.k] on a non-null value: own properties of objects only
    (array indices and [length] are not read this way by the sources). *)
Definition get_field (k : string) (v : json) : jsval :=
  match v with
  | JObj fields => assoc_get k fields
  | _ => None
  end.

Definition is_nan (f : float) : bool := negb (PrimFloat.eqb f f).

(** ToBoolean. *)
Definition truthy (v : jsval) : bool :=
  match v with
  | None => false
  | Some JNull => false
  | Some (JBool b) => b
  | Some (JNum f) => negb (PrimFloat.eqb f 0%float) && negb (is_nan f)
  | Some (JStr s) => negb (String.eqb s "")
  | Some (JArr _) => true
  | Some (JObj _) => true
  end.

(** [v || d] where the default [d] is a defined value. *)
Definition js_or (v : jsval) (d : json) : json :=
  match v with
  | Some x => if truthy v then x else d
  | None => d
  end.

(** [v === 'lit'] for a string literal. *)
Definition is_str (lit : string) (v : jsval) : bool :=
  match v with
  | Some (JStr s) => String.eqb s lit
  | _ => false
  end.

(** [Array.isArray(v)] *)
Definition isArray (v : json) : bool :=
  match v with JArr _ => true | _ => false end.

(** [typeof v === 'object'] ([null] included, as in JavaScript). *)
Definition typeof_object (v : json) : bool :=
  match v with JNull | JArr _ | JObj _ => true | _ => false end.

(** [Object.keys(v).length] for a non-null value. *)
Definition keys_length (v : json) : nat :=
  match v with
  | JObj fields => length fields
  | JArr l => length l
  | JStr s => String.length s
  | _ => 0
  end.

(** An object literal property whose value may be [undefined]: the key is
    kept only when the value is defined (reads of a missing key and of an
    [undefined]-valued key agree, and [JSON.stringify] drops both). *)
Definition prop (k : string) (v : jsval) : list (string * json) :=
  match v with Some x => [(k, x)] | None => [] end.

(** ** Strings: [includes], [trim], [split(' ')] *)

Fixpoint includes (needle hay : string) : bool :=
  String.prefix needle hay ||
  match hay with
  | EmptyString => false
  | String _ rest => includes needle rest
  end.

(** White space as [String.prototype.trim] sees it: the code points of
    ECMAScript's WhiteSpace and LineTerminator, in UTF-8. In one byte:
    U+0009 to U+000D and U+0020. *)
Definition space1 (a : ascii) : bool :=
  let x := nat_of_ascii a in
  ((9 <=? x) && (x <=? 13) || (x =? 32))%nat.

(** In two bytes: U+00A0. *)
Definition space2 (a b : ascii) : bool :=
  ((nat_of_ascii a =? 194) && (nat_of_ascii b =? 160))%nat.

(** In three bytes: U+1680, U+2000 to U+200A, U+2028, U+2029, U+202F,
    U+205F, U+3000 and U+FEFF. *)
Definition space3 (a b c : ascii) : bool :=
  let x := nat_of_ascii a in
  let y := nat_of_ascii b in
  let z := nat_of_ascii c in
  ((x =? 225) && (y =? 154) && (z =? 128)
   || (x =? 226) && (y =? 128)
      && ((128 <=? z) && (z <=? 138) || (z =? 168) || (z =? 169) || (z =? 175))
   || (x =? 226) && (y =? 129) && (z =? 159)
   || (x =? 227) && (y =? 128) && (z =? 128)
   || (x =? 239) && (y =? 187) && (z =? 191))%nat.

(** The list without the white space at its front. With [backwards] the
    list is a string read from its end: the bytes of a code point come last
    byte first. *)
Fixpoint skip_space (backwards : bool) (l : list ascii) : list ascii :=
  match l with
  | [] => []
  | a :: rest =>
      if space1 a then skip_space backwards rest
      else
        match rest with
        | b :: rest1 =>
            if (if backwards then space2 b a else space2 a b)
            then skip_space backwards rest1
            else
              match rest1 with
              | c :: rest2 =>
                  if (if backwards then space3 c b a else space3 a b c)
                  then skip_space backwards rest2
                  else l
              | [] => l
              end
        | [] => l
        end
  end.

Definition drop_space (l : list ascii) : list ascii := skip_space false l.

(** [String.prototype.trim] *)
Definition trim_chars (l : list ascii) : list ascii :=
  rev (skip_space true (rev (drop_space l))).

Definition trim (s : string) : string :=
  string_of_list_ascii (trim_chars (list_ascii_of_string s)).

(** [s.split(sep)] for a one-character separator: never the empty list. *)
Fixpoint split_chars (sep : ascii) (l : list ascii) : list (list ascii) :=
  match l with
  | [] => [[]]
  | a :: rest =>
      if Ascii.eqb a sep then [] :: split_chars sep rest
      else match split_chars sep rest with
           | piece :: pieces => (a :: piece) :: pieces
           | [] => [[a]]
           end
  end.

Definition split (sep : ascii) (s : string) : list string :=
  map string_of_list_ascii (split_chars sep (list_ascii_of_string s)).

(** [parts.join(sep)] *)
Fixpoint join (sep : string) (parts : list string) : string :=
  match parts with
  | [] => ""
  | [p] => p
  | p :: rest => p +:+ sep +:+ join sep rest
  end.

(** [l.slice(0, n)] with JavaScript's treatment of a negative end. *)
Definition slice0 {A} (n : Z) (l : list A) : list A :=
  if (n <? 0)%Z then take (Z.to_nat (Z.of_nat (length l) + n)) l
  else take (Z.to_nat n) l.

(** [JSON.stringify] and [String(v)], over the host's printing of numbers. *)

Definition hex_digit (n : nat) : ascii :=
  if (n <? 10)%nat then ascii_of_nat (48 + n) else ascii_of_nat (87 + n).

Definition backslash : string := String (ascii_of_nat 92) EmptyString.

Definition escape_char (a : ascii) : string :=
  let n := nat_of_ascii a in
  if (n =? 34)%nat || (n =? 92)%nat then backslash +:+ String a EmptyString
  else if (n =? 8)%nat then backslash +:+ "b"
  else if (n =? 12)%nat then backslash +:+ "f"
  else if (n =? 10)%nat then backslash +:+ "n"
  else if (n =? 13)%nat then backslash +:+ "r"
  else if (n =? 9)%nat then backslash +:+ "t"
  else if (n <? 32)%nat then
    backslash +:+ "u00"
    +:+ String (hex_digit (n / 16)) (String (hex_digit (n mod 16)) EmptyString)
  else String a EmptyString.

Fixpoint escape (s : string) : string :=
  match s with
  | EmptyString => EmptyString
  | String a rest => escape_char a +:+ escape rest
  end.

Definition dquote : string := String (ascii_of_nat 34) EmptyString.

Definition quote (s : string) : string := dquote +:+ escape s +:+ dquote.

Fixpoint stringify (num : float -> string) (v : json) : string :=
  match v with
  | JNull => "null"
  | JBool b => if b then "true" else "false"
  | JNum f => num f
  | JStr s => quote s
  | JArr l => "[" +:+ join "," (map (stringify num) l) +:+ "]"
  | JObj fields =>
      "{" +:+ join "," (map (fun kv => quote (fst kv) +:+ ":"
                                        +:+ stringify num (snd kv)) fields)
      +:+ "}"
  end.

Fixpoint to_string (num : float -> string) (v : json) : string :=
  match v with
  | JNull => "null"
  | JBool b => if b then "true" else "false"
  | JNum f => num f
  | JStr s => s
  | JArr l =>
      join "," (map (fun x => match x with
                              | JNull => ""
                              | _ => to_string num x
                              end) l)
  | JObj _ => "[object Object]"
  end.

(** ** [memory/schema.ts] *)

Inductive ContentType := ct_json | ct_html | ct_text.

Record Entity := {
  entity_type : string;
  entity_name : string;
  entity_confidence : option float
}.

Record ClaimData := {
  cd_predicate : string;
  cd_object : string;
  cd_confidence : float
}.

(** [ExtractionResult]. The value comes from [JSON.parse] of a model reply,
    so [claims] may be missing or not iterable ([None]). *)
Record Extraction := {
  entities : list Entity;
  claims : option (list ClaimData)
}.

Record Evidence := {
  ev_id : string;
  ev_subject_id : string;
  source_url : string;
  collected_at : string;
  content_text : string;
  content_type : ContentType;
  hash : string;
  extraction : option Extraction
}.

Record Claim := {
  id : string;
  subject_id : string;
  predicate : string;
  object : string;
  confidence : float;
  first_seen_at : string;
  last_verified_at : string;
  provenance_json : string;
  policy_tags : string
}.

Inductive RunStatus :=
| intake | discover | fetch | normalize | extract | verify | upsert
| synthesize | publish | error | completed.

Record SubjectRun := {
  run_id : string;
  subject_name : string;
  user_id : string;
  status : RunStatus;
  evidence_count : Z;
  claims_count : Z;
  created_at : string;
  updated_at : string;
  error_message : option string
}.

(** [VerificationResult] as parsed from a model reply: [policy_tags] may be
    missing or not an array ([None]); [approved] is read for truthiness. *)
Record VerificationResult := {
  approved : bool;
  redacted_content : option string;
  vr_policy_tags : option (list string);
  reason : option string
}.

Inductive InputType := linkedin | search.

Global Instance RunStatus_eq_dec : EqDecision RunStatus.
Proof. solve_decision. Defined.

Global Instance InputType_eq_dec : EqDecision InputType.
Proof. solve_decision. Defined.

Definition set_extraction (x : option Extraction) (e : Evidence) : Evidence :=
  {| ev_id := ev_id e; ev_subject_id := ev_subject_id e;
     source_url := source_url e; collected_at := collected_at e;
     content_text := content_text e; content_type := content_type e;
     hash := hash e; extraction := x |}.

Definition set_ev_id (i : string) (e : Evidence) : Evidence :=
  {| ev_id := i; ev_subject_id := ev_subject_id e;
     source_url := source_url e; collected_at := collected_at e;
     content_text := content_text e; content_type := content_type e;
     hash := hash e; extraction := extraction e |}.

Definition set_id (i : string) (c : Claim) : Claim :=
  {| id := i; subject_id := subject_id c; predicate := predicate c;
     object := object c; confidence := confidence c;
     first_seen_at := first_seen_at c; last_verified_at := last_verified_at c;
     provenance_json := provenance_json c; policy_tags := policy_tags c |}.

Definition set_policy_tags (t : string) (c : Claim) : Claim :=
  {| id := id c; subject_id := subject_id c; predicate := predicate c;
     object := object c; confidence := confidence c;
     first_seen_at := first_seen_at c; last_verified_at := last_verified_at c;
     provenance_json := provenance_json c; policy_tags := t |}.

(** ** The outside world: provider, model, stores, host runtime *)

Record HttpReply := {
  http_ok : bool;              (* response.ok *)
  http_status : nat;           (* response.status *)
  http_text : string;          (* await response.text() *)
  http_json : option json      (* await response.json(); None: it throws *)
}.

(** Body of a trigger request: [[{url}]] or [[{first_name, last_name}]]. *)
Inductive TriggerInput :=
| ByUrl (url : string)
| ByName (first_name last_name : string).

(** Reply of the text model to an extraction or verification request. *)
Inductive AiReply (A : Type) :=
| AiNotOk (status : nat)       (* !response.ok *)
| AiUnparsable (msg : string)  (* fetch, response.json() or JSON.parse throws *)
| AiNull                       (* JSON.parse returns null *)
| AiParsed (a : A).
Arguments AiNotOk {A}.
Arguments AiUnparsable {A}.
Arguments AiNull {A}.
Arguments AiParsed {A}.

(** Statements sent to D1. *)
Inductive DbOp :=
| InsertClaim (c : Claim)
| InsertEvidence (e : Evidence)
| InsertRun (r : SubjectRun)
| SelectRun (runId : string)
| UpdateRun (runId : string) (s : RunStatus)
            (evidenceCount claimsCount : option Z) (errorMessage : option string).

Record Env := {
  (* host runtime *)
  sha256_hex : string -> string;
  toISOString : N -> string;
  number_toString : float -> string;
  encodeURIComponent : string -> string;
  (* scraper provider: the n-th trigger request and the time it takes, the
     k-th poll of a snapshot with the time it takes; None: fetch rejects *)
  provider_trigger : nat -> TriggerInput -> option HttpReply;
  trigger_latency : nat -> TriggerInput -> N;
  provider_poll : string -> nat -> N * option HttpReply;
  (* Workers AI *)
  ai_extract : Evidence -> AiReply Extraction;
  ai_verify : Claim -> AiReply VerificationResult;
  ai_embed : nat -> string -> option (list float);
  (* D1: the text of [datetime('now')] at a time, the faults of the n-th
     statement; Vectorize: the faults of the n-th upsert *)
  sql_datetime : N -> string;
  db_fault : nat -> DbOp -> option string;
  vec_fault : nat -> string -> option string
}.

Definition JSON_stringify (env : Env) (v : json) : string :=
  stringify (number_toString env) v.

(** [`${v}`] *)
Definition toString (env : Env) (v : jsval) : string :=
  match v with
  | Some x => to_string (number_toString env) x
  | None => "undefined"
  end.

Inductive Event :=
| EDb (op : DbOp) (ok : bool)
| EEmbed (ok : bool)
| EVec (vectorId : string) (ok : bool)
| ETrigger (input : TriggerInput).

Record World := {
  w_now : N;                          (* Date.now() *)
  w_uuid : nat;                       (* crypto.randomUUID() supply *)
  w_triggers : nat;                   (* trigger requests sent so far *)
  w_db_ops : nat;
  w_vec_ops : nat;
  w_runs : gmap string SubjectRun;    (* table subject_runs, key id *)
  w_evidence : list Evidence;         (* table evidence, insertion order *)
  w_claims : list Claim;              (* table claims, insertion order *)
  w_vectors : list (string * list float);
  w_inputType : option InputType;     (* ctx.storage 'inputType' *)
  w_maxApiCalls : option Z;           (* ctx.storage 'maxApiCalls' *)
  w_log : list Event                  (* most recent first *)
}.

Definition set_now (x : N) (w : World) : World :=
  {| w_now := x; w_uuid := w_uuid w; w_triggers := w_triggers w;
     w_db_ops := w_db_ops w; w_vec_ops := w_vec_ops w; w_runs := w_runs w;
     w_evidence := w_evidence w; w_claims := w_claims w;
     w_vectors := w_vectors w; w_inputType := w_inputType w;
     w_maxApiCalls := w_maxApiCalls w; w_log := w_log w |}.

Definition set_uuid (x : nat) (w : World) : World :=
  {| w_now := w_now w; w_uuid := x; w_triggers := w_triggers w;
     w_db_ops := w_db_ops w; w_vec_ops := w_vec_ops w; w_runs := w_runs w;
     w_evidence := w_evidence w; w_claims := w_claims w;
     w_vectors := w_vectors w; w_inputType := w_inputType w;
     w_maxApiCalls := w_maxApiCalls w; w_log := w_log w |}.

(** One more trigger request on the wire. *)
Definition note_trigger (i : TriggerInput) (w : World) : World :=
  {| w_now := w_now w; w_uuid := w_uuid w; w_triggers := S (w_triggers w);
     w_db_ops := w_db_ops w; w_vec_ops := w_vec_ops w; w_runs := w_runs w;
     w_evidence := w_evidence w; w_claims := w_claims w;
     w_vectors := w_vectors w; w_inputType := w_inputType w;
     w_maxApiCalls := w_maxApiCalls w; w_log := ETrigger i :: w_log w |}.

(** One more D1 statement, with its outcome and the tables after it. *)
Definition note_db (op : DbOp) (ok : bool) (runs : gmap string SubjectRun)
    (evs : list Evidence) (cls : list Claim) (w : World) : World :=
  {| w_now := w_now w; w_uuid := w_uuid w; w_triggers := w_triggers w;
     w_db_ops := S (w_db_ops w); w_vec_ops := w_vec_ops w; w_runs := runs;
     w_evidence := evs; w_claims := cls;
     w_vectors := w_vectors w; w_inputType := w_inputType w;
     w_maxApiCalls := w_maxApiCalls w; w_log := EDb op ok :: w_log w |}.

(** One more Vectorize upsert, with its outcome and the index after it. *)
Definition note_vec (vectorId : string) (ok : bool)
    (vs : list (string * list float)) (w : World) : World :=
  {| w_now := w_now w; w_uuid := w_uuid w; w_triggers := w_triggers w;
     w_db_ops := w_db_ops w; w_vec_ops := S (w_vec_ops w); w_runs := w_runs w;
     w_evidence := w_evidence w; w_claims := w_claims w;
     w_vectors := vs; w_inputType := w_inputType w;
     w_maxApiCalls := w_maxApiCalls w; w_log := EVec vectorId ok :: w_log w |}.

Definition note_embed (ok : bool) (w : World) : World :=
  {| w_now := w_now w; w_uuid := w_uuid w; w_triggers := w_triggers w;
     w_db_ops := w_db_ops w; w_vec_ops := w_vec_ops w; w_runs := w_runs w;
     w_evidence := w_evidence w; w_claims := w_claims w;
     w_vectors := w_vectors w; w_inputType := w_inputType w;
     w_maxApiCalls := w_maxApiCalls w; w_log := EEmbed ok :: w_log w |}.

Definition set_storage (it : option InputType) (m : option Z) (w : World)
    : World :=
  {| w_now := w_now w; w_uuid := w_uuid w; w_triggers := w_triggers w;
     w_db_ops := w_db_ops w; w_vec_ops := w_vec_ops w; w_runs := w_runs w;
     w_evidence := w_evidence w; w_claims := w_claims w;
     w_vectors := w_vectors w; w_inputType := it;
     w_maxApiCalls := m; w_log := w_log w |}.

(** ** Asynchronous code with exceptions: state passing over [World] *)

Inductive outcome (A : Type) :=
| Ok (a : A)
| Throw (message : string).
Arguments Ok {A}.
Arguments Throw {A}.

Definition M (A : Type) : Type := World -> outcome A * World.

Definition ret {A} (a : A) : M A := fun w => (Ok a, w).

Definition throw {A} (message : string) : M A := fun w => (Throw message, w).

Definition bind {A B} (m : M A) (k : A -> M B) : M B :=
  fun w => match m w with
           | (Ok a, w') => k a w'
           | (Throw e, w') => (Throw e, w')
           end.

(** [try { m } catch (error) { handler(error.message) }]: the effects of
    [m] up to the throw are kept. *)
Definition try_catch {A} (m : M A) (handler : string -> M A) : M A :=
  fun w => match m w with
           | (Ok a, w') => (Ok a, w')
           | (Throw e, w') => handler e w'
           end.

Definition gets {A} (f : World -> A) : M A := fun w => (Ok (f w), w).

Definition modify (f : World -> World) : M unit := fun w => (Ok tt, f w).

Notation "x <- m ;; k" := (bind m (fun x => k))
  (at level 100, m at next level, right associativity, only parsing).
Notation "m ;;; k" := (bind m (fun _ => k))
  (at level 100, right associativity, only parsing).

(** [for (const x of xs) { body(x) }] *)
Fixpoint for_of {A} (xs : list A) (body : A -> M unit) : M unit :=
  match xs with
  | [] => ret tt
  | x :: rest => body x ;;; for_of rest body
  end.

(** [for (const x of xs) { ... }] around local variables [acc] that the body
    updates. *)
Fixpoint for_acc {A S} (xs : list A) (acc : S) (body : A -> S -> M S) : M S :=
  match xs with
  | [] => ret acc
  | x :: rest => acc' <- body x acc ;; for_acc rest acc' body
  end.

Definition Date_now : M N := gets w_now.

(** [await new Promise(resolve => setTimeout(resolve, ms))] *)
Definition sleep (ms : N) : M unit := modify (fun w => set_now (w_now w + ms)%N w).

(** [crypto.randomUUID()]: a new identifier at every call. *)
Definition randomUUID : M string :=
  fun w => (Ok (pretty (w_uuid w)), set_uuid (S (w_uuid w)) w).

(** [n] as a JavaScript number. *)
Definition num_of_nat (n : nat) : float :=
  PrimFloat.of_uint63 (Uint63.of_Z (Z.of_nat n)).

(** ** [scraping/brightdata-scraper.ts]: class [BrightdataScraper] *)

Module Scraper.

Record WaitResult := {
  success : bool;
  data : jsval;
  wait_error : jsval
}.

Record ScrapingResult := {
  sr_success : bool;
  sr_data : jsval;
  sr_error : option string;
  sr_source : string;
  sr_scrapedAt : string;
  sr_snapshotId : option string
}.

Definition maxWaitTime : N := 900000.
Definition initialCheckDelay : N := 15000.
Definition checkInterval : N := 30000.

Definition timed_out : WaitResult :=
  {| success := false; data := None;
     wait_error := Some (JStr "Timeout waiting for scraping completion") |}.

Section WithEnv.
Context (env : Env).

Definition now_iso : M string := gets (fun w => toISOString env (w_now w)).

(** [fetch(checkUrl, ...)] for the [attempt]-th check of a snapshot. *)
Definition fetch_snapshot (snapshotId : string) (attempt : nat) : M HttpReply :=
  fun w =>
    let '(latency, r) := provider_poll env snapshotId attempt in
    let w' := set_now (w_now w + latency)%N w in
    match r with
    | Some response => (Ok response, w')
    | None => (Throw "fetch failed", w')
    end.

(** The body of the [try] block of one iteration of [waitForCompletion]:
    [Some r] is [return r]; [None] falls through to the wait at its end. *)
Definition checkSnapshot (snapshotId : string) (attempt : nat)
    : M (option WaitResult) :=
  response <- fetch_snapshot snapshotId attempt ;;
  if negb (http_ok response) then
    throw ("Failed to check snapshot status: " +:+ pretty (http_status response))
  else
    match http_json response with
    | None => throw "Unexpected end of JSON input"
    | Some JNull => throw "Cannot convert undefined or null to object"
    | Some snapshot =>
        let st := get_field "status" snapshot in
        if truthy st then
          if is_str "completed" st then
            ret (Some {| success := true; data := get_field "data" snapshot;
                         wait_error := None |})
          else if is_str "failed" st then
            ret (Some {| success := false; data := None;
                         wait_error :=
                           Some (js_or (get_field "error" snapshot)
                                       (JStr "Scraping failed")) |})
          else ret None
        else if isArray snapshot
                || (typeof_object snapshot && (0 <? keys_length snapshot)%nat)
        then ret (Some {| success := true; data := Some snapshot;
                          wait_error := None |})
        else ret None
    end.

(** One iteration of the [while] body: [try { ... } catch { wait }]. *)
Definition pollOnce (snapshotId : string) (attempt : nat)
    : M (option WaitResult) :=
  try_catch
    (r <- checkSnapshot snapshotId attempt ;;
     match r with
     | Some res => ret (Some res)
     | None => sleep checkInterval ;;; ret None
     end)
    (fun _ => sleep checkInterval ;;; ret None).

(** [while (Date.now() - startTime < maxWaitTime) { ... }]. Every iteration
    that does not return waits [checkInterval], so [fuel] bounds the number
    of iterations; see [pollLoop_fuel]. *)
Fixpoint pollLoop (fuel : nat) (snapshotId : string) (startTime : N)
    (attemptCount : nat) : M WaitResult :=
  now <- Date_now ;;
  if (now - startTime <? maxWaitTime)%N then
    match fuel with
    | O => ret timed_out
    | S fuel' =>
        r <- pollOnce snapshotId (S attemptCount) ;;
        match r with
        | Some res => ret res
        | None => pollLoop fuel' snapshotId startTime (S attemptCount)
        end
    end
  else ret timed_out.

Definition waitForCompletion (snapshotId : string) : M WaitResult :=
  startTime <- Date_now ;;
  sleep initialCheckDelay ;;;
  pollLoop 31 snapshotId startTime 0.

(** [await fetch(`${baseUrl}/datasets/v3/trigger?...`, {method: 'POST',
    ...})]: the request is on the wire, and the reply, or the rejection,
    arrives after the time the request takes. *)
Definition post_trigger (input : TriggerInput) : M HttpReply :=
  fun w =>
    let w' := set_now (w_now w + trigger_latency env (w_triggers w) input)%N
                      (note_trigger input w) in
    match provider_trigger env (w_triggers w) input with
    | Some response => (Ok response, w')
    | None => (Throw "fetch failed", w')
    end.

(** The checks on a trigger response that [scrapeProfile], [searchProfiles]
    and [scrapeCompany] each repeat; the result is the snapshot id. *)
Definition snapshot_of_trigger (response : HttpReply) : M string :=
  if negb (http_ok response) then
    throw ("Brightdata LinkedIn API error: " +:+ pretty (http_status response)
           +:+ " - " +:+ http_text response)
  else
    match http_json response with
    | None => throw "Unexpected end of JSON input"
    | Some JNull => throw "Cannot read properties of null (reading 'error')"
    | Some triggerData =>
        if truthy (get_field "error" triggerData) then
          throw ("Brightdata LinkedIn API error: "
                 +:+ toString env (get_field "error" triggerData))
        else if negb (truthy (get_field "snapshot_id" triggerData)) then
          throw "No snapshot ID returned from Brightdata"
        else ret (toString env (get_field "snapshot_id" triggerData))
    end.

Definition failed (source message : string) : M ScrapingResult :=
  t <- now_iso ;;
  ret {| sr_success := false; sr_data := None; sr_error := Some message;
         sr_source := source; sr_scrapedAt := t; sr_snapshotId := None |}.

Definition succeeded (source snapshotId : string) (d : json)
    : M ScrapingResult :=
  t <- now_iso ;;
  ret {| sr_success := true; sr_data := Some d; sr_error := None;
         sr_source := source; sr_scrapedAt := t;
         sr_snapshotId := Some snapshotId |}.

Definition profile_fields (profileData : json) : list (string * json) :=
  let pass k := prop k (get_field k profileData) in
  let arr k := [(k, js_or (get_field k profileData) (JArr []))] in
  pass "linkedin_id" ++ pass "name" ++ pass "country_code" ++ pass "city"
  ++ pass "position" ++ pass "current_company" ++ pass "current_company_name"
  ++ pass "current_company_company_id" ++ pass "about"
  ++ arr "experience" ++ arr "education" ++ arr "educations_details"
  ++ arr "certifications" ++ arr "languages" ++ pass "recommendations_count"
  ++ arr "recommendations" ++ arr "volunteer_experience" ++ arr "courses"
  ++ arr "publications" ++ arr "patents" ++ arr "projects"
  ++ arr "organizations" ++ arr "honors_and_awards" ++ arr "posts"
  ++ arr "activity" ++ pass "followers" ++ pass "connections"
  ++ arr "people_also_viewed" ++ pass "avatar" ++ pass "banner_image".

Definition profile_tail (profileData : json) : list (string * json) :=
  prop "linkedin_num_id" (get_field "linkedin_num_id" profileData)
  ++ prop "id" (get_field "id" profileData).

Definition processLinkedInProfileData (d : jsval) (profileUrl : string)
    : M json :=
  t <- now_iso ;;
  let profileData : jsval :=
    match d with
    | Some (JArr (first :: _)) => Some first
    | Some (JArr []) => None
    | Some (JObj fields) => Some (JObj fields)
    | _ => None
    end in
  match profileData with
  | Some pd =>
      if truthy profileData then
        ret (JObj (profile_fields pd
                   ++ [("url", js_or (get_field "url" pd) (JStr profileUrl));
                       ("input_url",
                        js_or (get_field "input_url" pd) (JStr profileUrl))]
                   ++ profile_tail pd
                   ++ [("timestamp",
                        js_or (get_field "timestamp" pd) (JStr t))]))
      else
        ret (JObj [("name", JStr "Unknown"); ("url", JStr profileUrl);
                   ("input_url", JStr profileUrl); ("timestamp", JStr t)])
  | None =>
      ret (JObj [("name", JStr "Unknown"); ("url", JStr profileUrl);
                 ("input_url", JStr profileUrl); ("timestamp", JStr t)])
  end.

Definition scrapeProfile (profileUrl : string) : M ScrapingResult :=
  try_catch
    (response <- post_trigger (ByUrl profileUrl) ;;
     snapshot_id <- snapshot_of_trigger response ;;
     snapshotData <- waitForCompletion snapshot_id ;;
     if negb (success snapshotData) then
       failed profileUrl ("LinkedIn profile scraping failed: "
                          +:+ toString env (wait_error snapshotData))
     else
       processedData <- processLinkedInProfileData (data snapshotData)
                                                   profileUrl ;;
       succeeded profileUrl snapshot_id processedData)
    (fun message => failed profileUrl message).

Record LinkedInSearchResult := {
  query : string;
  results : list json;
  totalResults : nat;
  scrapedAt : string
}.

Definition search_item (t : string) (item : json) : M json :=
  match item with
  | JNull => throw "Cannot read properties of null (reading 'linkedin_id')"
  | _ =>
      ret (JObj (profile_fields item
                 ++ prop "url" (get_field "url" item)
                 ++ prop "input_url" (get_field "input_url" item)
                 ++ profile_tail item
                 ++ [("timestamp", js_or (get_field "timestamp" item) (JStr t))]))
  end.

Fixpoint search_items (t : string) (items : list json) : M (list json) :=
  match items with
  | [] => ret []
  | item :: rest =>
      r <- search_item t item ;;
      rs <- search_items t rest ;;
      ret (r :: rs)
  end.

Definition processLinkedInSearchResults (d : jsval) (searchQuery : string)
    : M LinkedInSearchResult :=
  t <- now_iso ;;
  rs <- match d with
        | Some (JArr items) => search_items t items
        | _ => ret []
        end ;;
  ret {| query := searchQuery; results := rs; totalResults := length rs;
         scrapedAt := t |}.

Definition search_result_json (r : LinkedInSearchResult) : json :=
  JObj [("query", JStr (query r)); ("results", JArr (results r));
        ("totalResults", JNum (num_of_nat (totalResults r)));
        ("scrapedAt", JStr (scrapedAt r))].

Definition searchProfiles (searchQuery : string) : M ScrapingResult :=
  try_catch
    (let nameParts := split " " (trim searchQuery) in
     if (length nameParts <? 2)%nat then
       throw "Search query must contain at least first and last name"
     else
       let firstName := hd "" nameParts in
       let lastName := join " " (tl nameParts) in
       response <- post_trigger (ByName firstName lastName) ;;
       snapshot_id <- snapshot_of_trigger response ;;
       snapshotData <- waitForCompletion snapshot_id ;;
       if negb (success snapshotData) then
         failed "linkedin-search" ("LinkedIn profile search failed: "
                                   +:+ toString env (wait_error snapshotData))
       else
         processedData <- processLinkedInSearchResults (data snapshotData)
                                                       searchQuery ;;
         succeeded "linkedin-search" snapshot_id
                   (search_result_json processedData))
    (fun message => failed "linkedin-search" message).

(** [await this.triggerScraping([url])]: class [BrightdataScraper] has no
    method of this name, nor has a class it extends, so the call throws a
    [TypeError] before anything is sent. The result would be read as
    [{success, snapshotId, error}]. *)
Definition triggerScraping (url : string)
    : M (bool * option string * option string) :=
  throw "this.triggerScraping is not a function".

Definition processWebContent (d : jsval) (url : string) : M json :=
  t <- now_iso ;;
  ret (JObj ([("url", JStr url)]
             ++ [("content", JStr (match d with
                                   | Some x => JSON_stringify env x
                                   | None => ""
                                   end))]
             ++ [("scrapedAt", JStr t); ("source", JStr "brightdata")])).

Definition scrapeWebContent (url : string) : M ScrapingResult :=
  try_catch
    (triggerResponse <- triggerScraping url ;;
     let '(ok, snapshotId, err) := triggerResponse in
     match ok, snapshotId with
     | true, Some sid =>
         snapshotData <- waitForCompletion sid ;;
         if negb (success snapshotData) then
           failed url ("Web scraping failed: "
                       +:+ toString env (wait_error snapshotData))
         else
           processedData <- processWebContent (data snapshotData) url ;;
           succeeded url sid processedData
     | _, _ =>
         failed url ("Failed to trigger web scraping: "
                     +:+ toString env (option_map JStr err))
     end)
    (fun message => failed url message).

Definition company_fields (companyData : json) : list (string * json) :=
  let pass k := prop k (get_field k companyData) in
  let arr k := [(k, js_or (get_field k companyData) (JArr []))] in
  pass "id" ++ pass "name" ++ pass "about" ++ pass "slogan"
  ++ pass "description" ++ arr "specialties" ++ pass "organization_type"
  ++ pass "company_size" ++ arr "industries" ++ pass "founded"
  ++ pass "country_code" ++ arr "country_codes_array" ++ arr "locations"
  ++ arr "formatted_locations" ++ pass "headquarters" ++ pass "stock_info"
  ++ pass "funding" ++ arr "investors" ++ pass "crunchbase_url"
  ++ pass "get_directions_url" ++ pass "followers" ++ pass "employees"
  ++ pass "employees_in_linkedin" ++ arr "alumni" ++ arr "alumni_information"
  ++ arr "affiliated" ++ arr "similar" ++ pass "logo" ++ pass "image".

(** Only a non-empty array is read; a property read on its first element
    throws when that element is [null]. *)
Definition processLinkedInCompanyData (d : jsval) (companyUrl : string)
    : M json :=
  t <- now_iso ;;
  match d with
  | Some (JArr (JNull :: _)) =>
      throw "Cannot read properties of null (reading 'id')"
  | Some (JArr (companyData :: _)) =>
      ret (JObj (company_fields companyData
                 ++ [("url", js_or (get_field "url" companyData)
                                   (JStr companyUrl));
                     ("updates", js_or (get_field "updates" companyData)
                                       (JArr []));
                     ("timestamp", js_or (get_field "timestamp" companyData)
                                         (JStr t))]))
  | _ =>
      ret (JObj [("name", JStr "Unknown Company"); ("url", JStr companyUrl);
                 ("timestamp", JStr t)])
  end.

Definition scrapeCompany (companyUrl : string) : M ScrapingResult :=
  try_catch
    (response <- post_trigger (ByUrl companyUrl) ;;
     snapshot_id <- snapshot_of_trigger response ;;
     snapshotData <- waitForCompletion snapshot_id ;;
     if negb (success snapshotData) then
       failed companyUrl ("LinkedIn company scraping failed: "
                          +:+ toString env (wait_error snapshotData))
     else
       processedData <- processLinkedInCompanyData (data snapshotData)
                                                   companyUrl ;;
       succeeded companyUrl snapshot_id processedData)
    (fun message => failed companyUrl message).

End WithEnv.
End Scraper.

(** ** [memory/canonical.ts]: class [CanonicalMemory] over D1 *)

Module CanonicalMemory.
Section WithEnv.
Context (env : Env).

Definition set_run_status (s : RunStatus) (evidenceCount claimsCount : option Z)
    (errorMessage : option string) (now : string) (r : SubjectRun)
    : SubjectRun :=
  {| run_id := run_id r; subject_name := subject_name r; user_id := user_id r;
     status := s;
     evidence_count := default (evidence_count r) evidenceCount;
     claims_count := default (claims_count r) claimsCount;
     created_at := created_at r; updated_at := now;
     error_message := match errorMessage with
                      | Some m => Some m
                      | None => error_message r
                      end |}.

(** The row that [INSERT INTO subject_runs (id, subject_name, user_id,
    status, evidence_count, claims_count, error_message)] creates for [r]:
    the statement binds neither [created_at] nor [updated_at], so both get
    the default of the schema, [datetime('now')]; the message is bound as
    [error_message || null]. *)
Definition inserted_run (r : SubjectRun) (now : N) : SubjectRun :=
  {| run_id := run_id r; subject_name := subject_name r; user_id := user_id r;
     status := status r; evidence_count := evidence_count r;
     claims_count := claims_count r; created_at := sql_datetime env now;
     updated_at := sql_datetime env now;
     error_message := match error_message r with
                      | Some m => if String.eqb m EmptyString then None
                                  else Some m
                      | None => None
                      end |}.

(** [await this.db.prepare(...).bind(...).run()]: the statement fails as the
    fault plan of the environment says, and otherwise takes effect. Row ids
    come from [crypto.randomUUID()] and are taken to be fresh, so the primary
    key constraints never reject an insert. *)
Definition d1_run (op : DbOp) : M unit :=
  fun w =>
    match db_fault env (w_db_ops w) op with
    | Some message =>
        (Throw message, note_db op false (w_runs w) (w_evidence w) (w_claims w) w)
    | None =>
        (Ok tt,
         match op with
         | InsertClaim c =>
             note_db op true (w_runs w) (w_evidence w) (w_claims w ++ [c]) w
         | InsertEvidence e =>
             note_db op true (w_runs w) (w_evidence w ++ [e]) (w_claims w) w
         | InsertRun r =>
             note_db op true
               (<[run_id r := inserted_run r (w_now w)]> (w_runs w))
               (w_evidence w) (w_claims w) w
         | SelectRun _ =>
             note_db op true (w_runs w) (w_evidence w) (w_claims w) w
         | UpdateRun runId s ec cc em =>
             note_db op true
               (alter (set_run_status s ec cc em (toISOString env (w_now w)))
                      runId (w_runs w))
               (w_evidence w) (w_claims w) w
         end)
    end.

Definition createClaim (claim : Claim) : M Claim :=
  uuid <- randomUUID ;;
  let newClaim := set_id ("claim_" +:+ uuid) claim in
  d1_run (InsertClaim newClaim) ;;;
  ret newClaim.

Definition createEvidence (evidence : Evidence) : M Evidence :=
  uuid <- randomUUID ;;
  let newEvidence := set_ev_id ("evid_" +:+ uuid) evidence in
  d1_run (InsertEvidence newEvidence) ;;;
  ret newEvidence.

Definition getEvidenceBySubject_rows (subjectId : string) (w : World)
    : list Evidence :=
  filter (fun e => ev_subject_id e = subjectId) (w_evidence w).

Definition createSubjectRun (subject user : string) (s : RunStatus)
    (evidenceCount claimsCount : Z) : M SubjectRun :=
  uuid <- randomUUID ;;
  now <- gets (fun w => toISOString env (w_now w)) ;;
  let newRun :=
    {| run_id := "run_" +:+ uuid; subject_name := subject; user_id := user;
       status := s; evidence_count := evidenceCount;
       claims_count := claimsCount; created_at := now; updated_at := now;
       error_message := None |} in
  d1_run (InsertRun newRun) ;;;
  ret newRun.

Definition getSubjectRun (runId : string) : M (option SubjectRun) :=
  d1_run (SelectRun runId) ;;;
  gets (fun w => w_runs w !! runId).

Definition updateSubjectRunStatus (runId : string) (s : RunStatus)
    (evidenceCount claimsCount : option Z) (errorMessage : option string)
    : M unit :=
  d1_run (UpdateRun runId s evidenceCount claimsCount errorMessage).

End WithEnv.

(** *** Statements that a run does not issue *)

Inductive DbQuery :=
| SelectClaimsBySubject (subjectId : string)
| SelectEvidenceBySubject (subjectId : string)
| SelectEvidenceByHash (h : string)
| SelectRunsByUser (userId : string)
| UpdateClaimVerification (claimId verifiedAt : string)
| DeleteClaim (claimId : string).

Definition set_last_verified_at (t : string) (c : Claim) : Claim :=
  {| id := id c; subject_id := subject_id c; predicate := predicate c;
     object := object c; confidence := confidence c;
     first_seen_at := first_seen_at c; last_verified_at := t;
     provenance_json := provenance_json c; policy_tags := policy_tags c |}.

(** One more D1 statement on table [claims], with the table after it. *)
Definition note_query (cls : list Claim) (w : World) : World :=
  {| w_now := w_now w; w_uuid := w_uuid w; w_triggers := w_triggers w;
     w_db_ops := S (w_db_ops w); w_vec_ops := w_vec_ops w;
     w_runs := w_runs w; w_evidence := w_evidence w; w_claims := cls;
     w_vectors := w_vectors w; w_inputType := w_inputType w;
     w_maxApiCalls := w_maxApiCalls w; w_log := w_log w |}.

(** [ORDER BY key DESC] under the binary collation: the rows in descending
    order of [key]. *)
Definition descending {A} (key : A -> string) : relation A :=
  fun x y => String.leb (key y) (key x) = true.

Global Instance descending_dec {A} (key : A -> string) x y :
  Decision (descending key x y).
Proof. unfold descending. apply _. Defined.

Definition order_by_desc {A} (key : A -> string) (rows : list A) : list A :=
  merge_sort (descending key) rows.

Section Queries.
Context (query_fault : nat -> DbQuery -> option string).

(** [.run()], [.all()] and [.first()] of a prepared statement: the
    statement fails as [query_fault] says, and otherwise takes effect. *)
Definition d1_query (q : DbQuery) : M unit :=
  fun w =>
    match query_fault (w_db_ops w) q with
    | Some message => (Throw message, note_query (w_claims w) w)
    | None =>
        (Ok tt,
         match q with
         | UpdateClaimVerification claimId verifiedAt =>
             note_query
               (map (fun c => if String.eqb (id c) claimId
                              then set_last_verified_at verifiedAt c
                              else c) (w_claims w)) w
         | DeleteClaim claimId =>
             note_query
               (filter (fun c => id c <> claimId) (w_claims w)) w
         | _ => note_query (w_claims w) w
         end)
    end.

Definition getClaimsBySubject (subjectId : string) : M (list Claim) :=
  d1_query (SelectClaimsBySubject subjectId) ;;;
  gets (fun w => order_by_desc last_verified_at
                   (filter (fun c => subject_id c = subjectId) (w_claims w))).

Definition updateClaimVerification (claimId verifiedAt : string) : M unit :=
  d1_query (UpdateClaimVerification claimId verifiedAt).

Definition deleteClaim (claimId : string) : M unit :=
  d1_query (DeleteClaim claimId).

(** [.first()]: the oldest row with this hash, or [null]. *)
Definition getEvidenceByHash (h : string) : M (option Evidence) :=
  d1_query (SelectEvidenceByHash h) ;;;
  gets (fun w => head (filter (fun e => hash e = h) (w_evidence w))).

Definition getEvidenceBySubject (subjectId : string) : M (list Evidence) :=
  d1_query (SelectEvidenceBySubject subjectId) ;;;
  gets (fun w => order_by_desc collected_at
                   (filter (fun e => ev_subject_id e = subjectId)
                           (w_evidence w))).

Definition getUserRuns (userId : string) : M (list SubjectRun) :=
  d1_query (SelectRunsByUser userId) ;;;
  gets (fun w => order_by_desc created_at
                   (filter (fun r => user_id r = userId)
                           (map snd (map_to_list (w_runs w))))).

End Queries.

End CanonicalMemory.

(** ** [memory/vector.ts]: class [VectorMemory] over Vectorize *)

Module VectorMemory.
Section WithEnv.
Context (env : Env).

Definition generateEmbedding (text : string) : M (list float) :=
  fun w =>
    match ai_embed env (length (w_log w)) (String.substring 0 5000 text) with
    | Some values => (Ok values, note_embed true w)
    | None =>
        (Throw "Failed to generate embedding: Invalid response from Workers AI",
         note_embed false w)
    end.

(** [await this.vectorize.upsert([{id, values, metadata}])]; the metadata
    of the record is not kept in the model. *)
Definition upsert (vectorId : string) (values : list float) : M unit :=
  fun w =>
    match vec_fault env (w_vec_ops w) vectorId with
    | Some message => (Throw message, note_vec vectorId false (w_vectors w) w)
    | None =>
        (Ok tt,
         note_vec vectorId true
           ((vectorId, values)
              :: filter (fun p => p.1 ≠ vectorId) (w_vectors w)) w)
    end.

Definition storeEvidence (evidence : Evidence) (embedding : list float)
    : M unit :=
  upsert ("evidence_" +:+ ev_id evidence) embedding.

Definition storeClaim (claim : Claim) (embedding : list float) : M unit :=
  upsert ("claim_" +:+ id claim) embedding.

End WithEnv.
End VectorMemory.

(** ** [agents/compliance.ts]: class [ComplianceAgent] *)

Definition lower_char (a : ascii) : ascii :=
  let n := nat_of_ascii a in
  if (65 <=? n)%nat && (n <=? 90)%nat then ascii_of_nat (n + 32) else a.

Fixpoint toLowerCase (s : string) : string :=
  match s with
  | EmptyString => EmptyString
  | String a rest => String (lower_char a) (toLowerCase rest)
  end.

Module ComplianceAgent.
Section WithEnv.
Context (env : Env).

Definition containsSensitiveInformation (claim : Claim) : bool :=
  let sensitivePredicates :=
    ["has_email"; "email_address"; "contact_email"; "phone_number";
     "address"; "personal_id"; "ssn"; "social_security"] in
  let sensitiveObjects :=
    ["email"; "phone"; "address"; "ssn"; "social security";
     "personal"; "private"; "confidential"] in
  let predicateMatch :=
    existsb (String.eqb (predicate claim)) sensitivePredicates in
  let objectMatch :=
    existsb (fun sensitive => includes sensitive (toLowerCase (object claim)))
            sensitiveObjects in
  predicateMatch || objectMatch.

Definition isPubliclyAvailable (claim : Claim) : bool :=
  let publicSources := ["linkedin://"; "public://"; "web://"; "search://"] in
  existsb (fun source => includes source (provenance_json claim)) publicSources.

(** The tags that [verifyClaim] pushes onto the tags of the model reply. *)
Definition pushed_tags (claim : Claim) : list string :=
  (if includes "linkedin://" (provenance_json claim)
   then ["source:linkedin_scraping"] else [])
  ++ (if isPubliclyAvailable claim then ["consent:public_data"] else [])
  ++ (if containsSensitiveInformation claim then ["sensitive:pii"] else []).

Definition verification_failed (message : string) : VerificationResult :=
  {| approved := false; redacted_content := None;
     vr_policy_tags := Some ["error:verification_failed"];
     reason := Some ("Verification failed: " +:+ message) |}.

(** The result is [None] when the parsed reply is [null] and nothing is
    pushed onto it. A push onto a missing [policy_tags] throws inside the
    [try] and gives the failed verification. *)
Definition verifyClaim (claim : Claim) : M (option VerificationResult) :=
  try_catch
    (match ai_verify env claim with
     | AiNotOk st => throw ("AI verification failed: " +:+ pretty st)
     | AiUnparsable message => throw message
     | AiNull =>
         match pushed_tags claim with
         | [] => ret None
         | _ :: _ =>
             throw "Cannot read properties of null (reading 'policy_tags')"
         end
     | AiParsed verificationResult =>
         match pushed_tags claim, vr_policy_tags verificationResult with
         | [], _ => ret (Some verificationResult)
         | _ :: _, None =>
             throw "Cannot read properties of undefined (reading 'push')"
         | pushed, Some tags =>
             ret (Some {| approved := approved verificationResult;
                          redacted_content :=
                            redacted_content verificationResult;
                          vr_policy_tags := Some (tags ++ pushed);
                          reason := reason verificationResult |})
         end
     end)
    (fun message => ret (Some (verification_failed message))).

Definition isDataSourceAllowed (source : string) : bool :=
  let allowedSources :=
    ["linkedin.com"; "linkedin://"; "google.com"; "bing.com"; "public://";
     "web://"] in
  existsb (fun allowed => includes allowed source) allowedSources.

Definition getPrivacyPolicyForSource (source : string) : list string :=
  if includes "linkedin" source then
    ["Data scraped from public LinkedIn profiles only";
     "No private or restricted content accessed";
     "Professional information only"]
  else if includes "web" source || includes "search" source then
    ["Public web content only";
     "No login-required or private content";
     "Respects robots.txt and rate limits"]
  else ["Unknown source - review required"].

End WithEnv.
End ComplianceAgent.

(** ** [agents/harvester.ts]: class [HarvesterAgent] *)

Module HarvesterAgent.

(** What a tool's [execute] returns: [{success: true, evidence, data, ...}]
    or [{success: false, error, ...}]. *)
Inductive ToolResult :=
| ToolOk (evidence : Evidence) (data : jsval)
| ToolFail (message : string).

Section WithEnv.
Context (env : Env).

Definition generateContentHash (content : string) : string :=
  sha256_hex env content.

Definition createEvidence (subjectId sourceUrl content : string)
    (contentType : ContentType) : M Evidence :=
  let h := generateContentHash content in
  uuid <- randomUUID ;;
  t <- Scraper.now_iso env ;;
  ret {| ev_id := "evid_" +:+ uuid; ev_subject_id := subjectId;
         source_url := sourceUrl; collected_at := t; content_text := content;
         content_type := contentType; hash := h; extraction := None |}.

Definition fetchWebContent (url : string) : M string :=
  try_catch
    (scrapingResult <- Scraper.scrapeWebContent env url ;;
     if negb (Scraper.sr_success scrapingResult) then
       throw ("Web scraping failed: "
              +:+ toString env (option_map JStr (Scraper.sr_error scrapingResult)))
     else
       match Scraper.sr_data scrapingResult with
       | Some d =>
           let content := get_field "content" d in
           ret (if truthy content then toString env content else "")
       | None => ret ""
       end)
    (fun message => throw ("Failed to fetch web content: Error: " +:+ message)).

Definition searchWebTool (query subjectId : string) : M ToolResult :=
  try_catch
    (let searchUrl :=
       "https://www.google.com/search?q=" +:+ encodeURIComponent env query in
     content <- fetchWebContent searchUrl ;;
     evidence <- createEvidence subjectId searchUrl content ct_html ;;
     ret (ToolOk evidence None))
    (fun message => ret (ToolFail ("Web search failed: Error: " +:+ message))).

Definition profile_summary (profileData : jsval) (profileUrl now : string)
    : json :=
  let get k := match profileData with
               | Some pd => get_field k pd
               | None => None
               end in
  JObj [("name", js_or (get "name") (JStr "Unknown"));
        ("position", js_or (get "position") (JStr "Unknown"));
        ("current_company",
         js_or (get "current_company_name") (JStr "Unknown"));
        ("location",
         if truthy (get "city")
         then JStr (toString env (get "city") +:+ ", "
                    +:+ toString env (get "country_code"))
         else JStr "Unknown");
        ("about",
         if truthy (get "about")
         then JStr (String.substring 0 200 (toString env (get "about"))
                    +:+ "...")
         else JStr "No description");
        ("experience_count",
         match get "experience" with
         | Some (JArr (x :: l)) => JNum (num_of_nat (length (x :: l)))
         | _ => JNum 0%float
         end);
        ("education_count",
         match get "education" with
         | Some (JArr (x :: l)) => JNum (num_of_nat (length (x :: l)))
         | _ => JNum 0%float
         end);
        ("followers", js_or (get "followers") (JNum 0%float));
        ("connections", js_or (get "connections") (JNum 0%float));
        ("profile_url", js_or (get "url") (JStr profileUrl));
        ("scraped_at", js_or (get "timestamp") (JStr now))].

Definition scrapeLinkedInProfileTool (subjectId profileUrl : string)
    : M ToolResult :=
  try_catch
    (scrapingResult <- Scraper.scrapeProfile env profileUrl ;;
     if negb (Scraper.sr_success scrapingResult) then
       ret (ToolFail ("Failed to scrape LinkedIn profile: "
                      +:+ toString env
                            (option_map JStr (Scraper.sr_error scrapingResult))))
     else
       evidence <- createEvidence subjectId profileUrl
                     (match Scraper.sr_data scrapingResult with
                      | Some d => JSON_stringify env d
                      | None => "undefined"
                      end) ct_json ;;
       now <- Scraper.now_iso env ;;
       ret (ToolOk evidence
              (Some (profile_summary (Scraper.sr_data scrapingResult)
                                     profileUrl now))))
    (fun message =>
       ret (ToolFail ("LinkedIn profile scraping failed: Error: " +:+ message))).

(** The [summary] object that the search tool returns as [data]: its keys
    are [query], [totalResults], [foundProfiles] and [scraped_at]. *)
Definition search_summary (searchQuery : string) (searchData : jsval)
    (now : string) : json :=
  let get k := match searchData with
               | Some d => get_field k d
               | None => None
               end in
  let results := match js_or (get "results") (JArr []) with
                 | JArr l => l
                 | _ => []
                 end in
  JObj [("query", JStr searchQuery);
        ("totalResults",
         js_or (get "totalResults") (JNum (num_of_nat (length results))));
        ("foundProfiles",
         JArr (map (fun profile =>
                      JObj [("name",
                             js_or (get_field "name" profile) (JStr "Unknown"));
                            ("position",
                             js_or (get_field "position" profile)
                                   (JStr "Unknown"));
                            ("current_company",
                             js_or (get_field "current_company_name" profile)
                                   (JStr "Unknown"));
                            ("location",
                             if truthy (get_field "city" profile)
                             then JStr (toString env (get_field "city" profile)
                                        +:+ ", "
                                        +:+ toString env
                                              (get_field "country_code" profile))
                             else JStr "Unknown");
                            ("profile_url",
                             js_or (get_field "url" profile) (JStr "Unknown"))])
                   results));
        ("scraped_at", js_or (get "scrapedAt") (JStr now))].

Definition searchLinkedInProfilesTool (subjectId searchQuery : string)
    : M ToolResult :=
  try_catch
    (searchResult <- Scraper.searchProfiles env searchQuery ;;
     if negb (Scraper.sr_success searchResult) then
       ret (ToolFail ("Failed to search LinkedIn profiles: "
                      +:+ toString env
                            (option_map JStr (Scraper.sr_error searchResult))))
     else
       evidence <- createEvidence subjectId "linkedin://search"
                     (match Scraper.sr_data searchResult with
                      | Some d => JSON_stringify env d
                      | None => "undefined"
                      end) ct_json ;;
       now <- Scraper.now_iso env ;;
       ret (ToolOk evidence
              (Some (search_summary searchQuery (Scraper.sr_data searchResult)
                                    now))))
    (fun message =>
       ret (ToolFail ("LinkedIn profile search failed: Error: " +:+ message))).

(** The local variables [evidence] and [apiCallsUsed] of [harvestEvidence]. *)
Definition Locals : Type := list Evidence * Z.

(** [if (result.success && result.evidence) { evidence.push(...);
    apiCallsUsed += 1 }] *)
Definition collect (r : ToolResult) (st : Locals) : Locals :=
  match r with
  | ToolOk e _ => (st.1 ++ [e], (st.2 + 1)%Z)
  | ToolFail _ => st
  end.

(** One iteration of [for (const profile of profilesToScrape)]; the flag
    records that the loop has executed [break]. *)
Definition scrape_one (subjectName : string) (maxApiCalls : Z) (profile : json)
    (st : Locals * bool) : M (Locals * bool) :=
  let '(l, stopped) := st in
  if stopped then ret st
  else if (l.2 >=? maxApiCalls)%Z then ret (l, true)
  else
    try_catch
      (profileResult <-
         scrapeLinkedInProfileTool subjectName
           (toString env
              (if truthy (get_field "profile_url" profile)
               then get_field "profile_url" profile
               else get_field "url" profile)) ;;
       ret (collect profileResult l, false))
      (fun _ => ret (l, false)).

Definition harvestEvidence (subjectName : string) (sources : list string)
    (inputType : InputType) (maxApiCalls : Z) : M (list Evidence) :=
  let start : Locals := ([], 0%Z) in
  st <-
    (if bool_decide (inputType = linkedin)
        && (includes "linkedin.com/in/" subjectName
            || includes "linkedin.com/company/" subjectName)
     then
       try_catch
         (profileResult <- scrapeLinkedInProfileTool subjectName subjectName ;;
          ret (collect profileResult start))
         (fun _ => ret start)
     else
       st1 <-
         (if existsb (String.eqb "web") sources && (start.2 <? maxApiCalls)%Z
          then
            try_catch
              (searchResult <- searchWebTool subjectName subjectName ;;
               ret (collect searchResult start))
              (fun _ => ret start)
          else ret start) ;;
       if existsb (String.eqb "linkedin") sources && (st1.2 <? maxApiCalls)%Z
       then
         try_catch
           (linkedinSearchResult <-
              searchLinkedInProfilesTool subjectName subjectName ;;
            match linkedinSearchResult with
            | ToolFail _ => ret st1
            | ToolOk _ searchData =>
                let st2 := collect linkedinSearchResult st1 in
                match searchData ≫= get_field "results" with
                | Some (JArr (p :: ps)) =>
                    let remainingCalls := (maxApiCalls - st2.2)%Z in
                    let profilesToScrape :=
                      slice0 (Z.min remainingCalls 5) (p :: ps) in
                    r <- for_acc profilesToScrape (st2, false)
                           (scrape_one subjectName maxApiCalls) ;;
                    ret r.1
                | _ => ret st2
                end
            end)
           (fun _ => ret st1)
       else ret st1) ;;
  ret st.1.

End WithEnv.
End HarvesterAgent.

(** ** [linkedin-osint.ts]: class [SubjectOrchestrator] *)

Module SubjectOrchestrator.
Section WithEnv.
Context (env : Env).

Definition storage_put (it : InputType) (m : Z) : M unit :=
  modify (set_storage (Some it) (Some m)).

Definition updateRunStatus (runId : string) (s : RunStatus) : M unit :=
  CanonicalMemory.updateSubjectRunStatus env runId s None None None.

Definition harvestEvidence (subjectName : string) (sources : list string)
    (inputType : InputType) (maxApiCalls : Z) : M (list Evidence) :=
  HarvesterAgent.harvestEvidence env subjectName sources inputType maxApiCalls.

(** The object literal [claim] built from a claim candidate of [ev]. *)
Definition new_claim (ev : Evidence) (claimData : ClaimData) : M Claim :=
  uuid <- randomUUID ;;
  t <- Scraper.now_iso env ;;
  ret {| id := "claim_" +:+ uuid;
         subject_id := ev_subject_id ev;
         predicate := cd_predicate claimData;
         object := cd_object claimData;
         confidence := cd_confidence claimData;
         first_seen_at := t;
         last_verified_at := t;
         provenance_json :=
           JSON_stringify env
             (JObj [("source", JStr (source_url ev));
                    ("evidence_id", JStr (ev_id ev));
                    ("extracted_at", JStr t)]);
         policy_tags := "extracted:ai" |}.

(** [for (const claimData of x.claims) { claims.push({...}) }]; iterating a
    missing [claims] throws. *)
Definition push_claims (ev : Evidence) (x : Extraction) (acc : list Claim)
    : M (list Claim) :=
  match claims x with
  | None => throw "extraction.claims is not iterable"
  | Some cds =>
      for_acc cds acc (fun claimData acc' =>
                         claim <- new_claim ev claimData ;;
                         ret (acc' ++ [claim]))
  end.

(** One iteration of the loop of [extractClaimsFromEvidence] over the local
    array [claims] and the evidence object [ev], which the body mutates
    ([ev.extraction = extraction]) before it persists it again. *)
Definition extract_one (ev : Evidence) (acc : list Claim)
    : M (list Claim * Evidence) :=
  match extraction ev with
  | Some x =>
      try_catch (cs <- push_claims ev x acc ;; ret (cs, ev))
                (fun _ => ret (acc, ev))
  | None =>
      match ai_extract env ev with
      | AiNotOk _ => ret (acc, ev)
      | AiUnparsable _ => ret (acc, ev)
      | AiNull =>
          try_catch
            (CanonicalMemory.createEvidence env ev ;;;
             throw "Cannot read properties of null (reading 'claims')")
            (fun _ => ret (acc, ev))
      | AiParsed x =>
          let ev' := set_extraction (Some x) ev in
          try_catch
            (CanonicalMemory.createEvidence env ev' ;;;
             cs <- push_claims ev' x acc ;;
             ret (cs, ev'))
            (fun _ => ret (acc, ev'))
      end
  end.

(** Returns the claims and the evidence array as the loop leaves it. *)
Definition extractClaimsFromEvidence (evidence : list Evidence)
    : M (list Claim * list Evidence) :=
  for_acc evidence ([], [])
    (fun ev acc =>
       r <- extract_one ev acc.1 ;;
       ret (r.1, acc.2 ++ [r.2])).

Definition verifyClaims (claims : list Claim) : M (list Claim) :=
  for_acc claims []
    (fun claim verifiedClaims =>
       try_catch
         (verification <- ComplianceAgent.verifyClaim env claim ;;
          match verification with
          | None => throw "Cannot read properties of null (reading 'approved')"
          | Some v =>
              if approved v then
                match vr_policy_tags v with
                | None =>
                    throw "Cannot read properties of undefined (reading 'join')"
                | Some tags =>
                    ret (verifiedClaims
                           ++ [set_policy_tags (join "," tags) claim])
                end
              else ret verifiedClaims
          end)
         (fun _ => ret verifiedClaims)).

(** The first two loops of [upsertClaimsAndEvidence]: D1. *)
Definition upsert_canonical (claims : list Claim) (evidence : list Evidence)
    : M unit :=
  (* FIRST: Store evidence in D1 canonical memory *)
  for_of evidence
    (fun ev => try_catch (CanonicalMemory.createEvidence env ev ;;; ret tt)
                         (fun _ => ret tt)) ;;;
  (* Store claims in canonical memory *)
  for_of claims
    (fun claim => try_catch (CanonicalMemory.createClaim env claim ;;; ret tt)
                            (fun _ => ret tt)).

(** Its last two loops: Vectorize. *)
Definition upsert_vector (claims : list Claim) (evidence : list Evidence)
    : M unit :=
  (* OPTIONAL: Try to store in vector memory *)
  for_of evidence
    (fun ev =>
       try_catch
         (embedding <- VectorMemory.generateEmbedding env (content_text ev) ;;
          VectorMemory.storeEvidence env ev embedding)
         (fun _ => ret tt)) ;;;
  (* Store claims with vector embeddings (optional) *)
  for_of claims
    (fun claim =>
       try_catch
         (let claimText := predicate claim +:+ " " +:+ object claim in
          embedding <- VectorMemory.generateEmbedding env claimText ;;
          VectorMemory.storeClaim env claim embedding)
         (fun _ => ret tt)).

Definition upsertClaimsAndEvidence (claims : list Claim)
    (evidence : list Evidence) : M unit :=
  upsert_canonical claims evidence ;;;
  upsert_vector claims evidence.

(** [run = await this.canonicalMemory.getSubjectRun(runId)!] followed by a
    read of [run.subject_name]. *)
Definition subject_of (run : option SubjectRun) : M string :=
  match run with
  | Some r => ret (subject_name r)
  | None => throw "Cannot read properties of null (reading 'subject_name')"
  end.

(** INTAKE and DISCOVER. *)
Definition stage_discover (runId : string) : M (option SubjectRun) :=
  updateRunStatus runId discover ;;;
  _ <- CanonicalMemory.getSubjectRun env runId ;;
  updateRunStatus runId fetch ;;;
  CanonicalMemory.getSubjectRun env runId.

(** FETCH, up to the status write that enters [normalize]. *)
Definition stage_fetch (runId : string) (run : option SubjectRun)
    : M (list Evidence) :=
  inputType <- gets (fun w => default search (w_inputType w)) ;;
  maxApiCalls <- gets (fun w => match w_maxApiCalls w with
                                | Some m => if (m =? 0)%Z then 5%Z else m
                                | None => 5%Z
                                end) ;;
  subject <- subject_of run ;;
  evidence <- harvestEvidence subject ["web"; "linkedin"] inputType maxApiCalls ;;
  CanonicalMemory.updateSubjectRunStatus env runId normalize
    (Some (Z.of_nat (length evidence))) None None ;;;
  _ <- CanonicalMemory.getSubjectRun env runId ;;
  ret evidence.

(** NORMALIZE and EXTRACT, up to the status write that enters [verify]. *)
Definition stage_extract (runId : string) (evidence : list Evidence)
    : M (list Claim * list Evidence) :=
  updateRunStatus runId extract ;;;
  _ <- CanonicalMemory.getSubjectRun env runId ;;
  r <- extractClaimsFromEvidence evidence ;;
  CanonicalMemory.updateSubjectRunStatus env runId verify None
    (Some (Z.of_nat (length r.1))) None ;;;
  _ <- CanonicalMemory.getSubjectRun env runId ;;
  ret r.

(** VERIFY, UPSERT, SYNTHESIZE and PUBLISH. *)
Definition stage_finish (runId : string) (claims : list Claim)
    (evidence : list Evidence) : M unit :=
  verifiedClaims <- verifyClaims claims ;;
  updateRunStatus runId upsert ;;;
  _ <- CanonicalMemory.getSubjectRun env runId ;;
  upsertClaimsAndEvidence verifiedClaims evidence ;;;
  updateRunStatus runId synthesize ;;;
  _ <- CanonicalMemory.getSubjectRun env runId ;;
  updateRunStatus runId publish ;;;
  _ <- CanonicalMemory.getSubjectRun env runId ;;
  updateRunStatus runId completed.

(** The [try] block of [executeStateMachine]. *)
Definition run_stages (runId : string) : M unit :=
  run <- CanonicalMemory.getSubjectRun env runId ;;
  match run with
  | None => ret tt
  | Some _ =>
      run <- stage_discover runId ;;
      evidence <- stage_fetch runId run ;;
      r <- stage_extract runId evidence ;;
      stage_finish runId r.1 r.2
  end.

Definition executeStateMachine (runId : string) : M unit :=
  try_catch
    (run_stages runId)
    (fun message =>
       CanonicalMemory.updateSubjectRunStatus env runId error None None
         (Some message)).

(** [this.ctx.waitUntil(this.executeStateMachine(run.id))]: the state
    machine runs detached; a rejection of its promise does not reach
    [startRun]. *)
Definition startRun (subjectName : string) (inputType : InputType)
    (maxApiCalls : Z) : M SubjectRun :=
  run <- CanonicalMemory.createSubjectRun env subjectName "web-scraping-user"
           intake 0 0 ;;
  storage_put inputType maxApiCalls ;;;
  try_catch (executeStateMachine (run_id run)) (fun _ => ret tt) ;;;
  ret run.

End WithEnv.

(** *** Deterministic fallback of [generateSynthesis] *)

(** The fields of [LinkedInProfileData] that the profile analysis reads. *)
Record LinkedInProfileData := {
  about : option string;
  experience : option (list json);
  education : option (list json);
  followers : option float;
  connections : option float
}.

Inductive ProfileStrength := Strong | Good | Moderate | Weak.

(** [x > y] on numbers. *)
Definition gt (x y : float) : bool := PrimFloat.ltb y x.

(** [v > 0] where [v] may be [undefined]. *)
Definition gt0 (v : option float) : bool :=
  match v with Some f => gt f 0%float | None => false end.

(** [l?.length > 0] *)
Definition nonempty (l : option (list json)) : bool :=
  match l with Some (_ :: _) => true | _ => false end.

Definition present (s : option string) : bool :=
  match s with Some x => negb (String.eqb x "") | None => false end.

(** [Math.min(a, b)] on numbers that are not NaN. *)
Definition Math_min (a b : float) : float :=
  if PrimFloat.ltb b a then b else a.

Definition completenessScore (linkedInData : LinkedInProfileData) : float :=
  Math_min
    ((if present (about linkedInData) then 0.2 else 0)
     + (if nonempty (experience linkedInData) then 0.3 else 0)
     + (if nonempty (education linkedInData) then 0.2 else 0)
     + (if gt0 (followers linkedInData) then 0.15 else 0)
     + (if gt0 (connections linkedInData) then 0.15 else 0))%float
    1.0%float.

Definition profileStrength (completenessScore : float) : ProfileStrength :=
  if gt completenessScore 0.8%float then Strong
  else if gt completenessScore 0.6%float then Good
  else if gt completenessScore 0.4%float then Moderate
  else Weak.

(** *** Key roles and timeline of the fallback *)

Record TimelineEvent := {
  date : json;
  event : string;
  source : string
}.

(** [v !== s] for a string [s]. *)
Definition differs (v : jsval) (s : string) : bool :=
  match v with
  | Some (JStr x) => negb (String.eqb x s)
  | _ => true
  end.

(** Property read [x.k] on an element of an [any[]]: it throws when the
    element is [null]. *)
Definition read (k : string) (x : json) : M jsval :=
  match x with
  | JNull =>
      throw ("Cannot read properties of null (reading '" +:+ k +:+ "')")
  | _ => ret (get_field k x)
  end.

Section Fallback.
Context (env : Env).

(** [`${v || d}`] *)
Definition text_or (v : jsval) (d : string) : string :=
  toString env (Some (js_or v (JStr d))).

(** The local [keyRoles]; [current_company_name] is the field of that name
    of the profile. *)
Definition keyRoles (current_company_name : option string)
    (linkedInData : LinkedInProfileData) : M (list string) :=
  let company := if present current_company_name
                 then default "" current_company_name
                 else "Unknown Company" in
  let keyRoles0 :=
    if negb (String.eqb company "Unknown Company")
    then ["Current: " +:+ company] else [] in
  keyRoles1 <-
    (if nonempty (experience linkedInData) then
       for_acc (take 3 (default [] (experience linkedInData))) keyRoles0
         (fun exp keyRoles =>
            c <- read "company" exp ;;
            if truthy c && differs c company then
              t <- read "title" exp ;;
              ret (keyRoles
                     ++ [text_or t "Position" +:+ " at " +:+ toString env c])
            else ret keyRoles)
     else ret keyRoles0) ;;
  match education linkedInData with
  | Some (edu :: _) =>
      t <- read "title" edu ;;
      ret (keyRoles1 ++ ["Education: " +:+ text_or t "Degree"])
  | _ => ret keyRoles1
  end.

(** [key_roles: keyRoles.length > 0 ? keyRoles : ['Professional']] *)
Definition key_roles (current_company_name : option string)
    (linkedInData : LinkedInProfileData) : M (list string) :=
  keyRoles <- keyRoles current_company_name linkedInData ;;
  ret (match keyRoles with [] => ["Professional"] | _ :: _ => keyRoles end).

Definition timeline (linkedInData : LinkedInProfileData)
    : M (list TimelineEvent) :=
  timeline1 <-
    (if nonempty (experience linkedInData) then
       for_acc (take 5 (default [] (experience linkedInData))) []
         (fun exp timeline =>
            duration <- read "duration" exp ;;
            start_year <- read "start_year" exp ;;
            title <- read "title" exp ;;
            company <- read "company" exp ;;
            ret (timeline
                   ++ [{| date := js_or duration
                                    (js_or start_year (JStr "Recent"));
                          event := text_or title "Position" +:+ " at "
                                   +:+ text_or company "Company";
                          source := "LinkedIn Profile" |}]))
     else ret []) ;;
  if nonempty (education linkedInData) then
    for_acc (default [] (education linkedInData)) timeline1
      (fun edu timeline =>
         start_year <- read "start_year" edu ;;
         end_year <- read "end_year" edu ;;
         title <- read "title" edu ;;
         let range := trim (text_or start_year "" +:+ "-"
                            +:+ text_or end_year "") in
         ret (timeline
                ++ [{| date := JStr (if String.eqb range "" then "Past"
                                     else range);
                       event := text_or title "Education" +:+ " at "
                                +:+ text_or title "Institution";
                       source := "LinkedIn Profile" |}]))
  else ret timeline1.

End Fallback.

End SubjectOrchestrator.

(** * Observations

    What the properties below say about a computation, a world or a
    specification sentence. *)

(** ** Computations *)

(** A computation that cannot throw. *)
Definition total {A} (m : M A) : Prop :=
  forall w, exists a w', m w = (Ok a, w').

(** [steps R m]: whether it returns or throws, [m] takes a world to one
    related to it by [R]. With a preorder [R] this is closed under sequencing,
    handlers and loops. *)
Definition steps {A} (R : relation World) (m : M A) : Prop :=
  forall w, R w (m w).2.

(** The observation [f] of the world is left as it is. *)
Definition same {T} (f : World -> T) : relation World :=
  fun w w' => f w' = f w.

(** The log grows by events that satisfy [P]. *)
Definition log_grows (P : Event -> Prop) : relation World :=
  fun w w' => exists l, w_log w' = l ++ w_log w /\ Forall P l.

Definition is_db_event (e : Event) : Prop :=
  match e with EDb _ _ => True | _ => False end.

Definition is_vector_event (e : Event) : Prop :=
  match e with EEmbed _ | EVec _ _ => True | _ => False end.

(** A statement on evidence or claims that D1 rejected. *)
Definition is_failed_insert (e : Event) : bool :=
  match e with
  | EDb (InsertEvidence _) false | EDb (InsertClaim _) false => true
  | _ => false
  end.

Definition is_failed_vector_write (e : Event) : bool :=
  match e with
  | EVec _ false => true
  | _ => false
  end.

(** The D1 statements among the events [evs] (most recent first), in the
    order in which they were issued, and those of them that D1 accepted. *)
Definition issued (evs : list Event) : list DbOp :=
  omap (fun e => match e with EDb op _ => Some op | _ => None end) (rev evs).

Definition accepted (evs : list Event) : list DbOp :=
  omap (fun e => match e with EDb op true => Some op | _ => None end) (rev evs).

(** The rows that a list of statements inserts. *)
Definition evidence_rows (ops : list DbOp) : list Evidence :=
  omap (fun op => match op with InsertEvidence e => Some e | _ => None end) ops.

Definition claim_rows (ops : list DbOp) : list Claim :=
  omap (fun op => match op with InsertClaim c => Some c | _ => None end) ops.

(** An insert without the id that the store has generated for the row. *)
Definition without_id (op : DbOp) : DbOp :=
  match op with
  | InsertEvidence e => InsertEvidence (set_ev_id EmptyString e)
  | InsertClaim c => InsertClaim (set_id EmptyString c)
  | _ => op
  end.

(** The outcomes of the embedding requests among the events [evs], and the
    ids of the vectors sent to Vectorize, each in the order of the calls. *)
Definition embed_requests (evs : list Event) : list bool :=
  omap (fun e => match e with EEmbed ok => Some ok | _ => None end) (rev evs).

Definition vector_writes (evs : list Event) : list string :=
  omap (fun e => match e with EVec i _ => Some i | _ => None end) (rev evs).

(** The ids under which the upsert stage sends the vectors of evidence and
    claims to Vectorize. *)
Definition vector_ids_of (evidence : list Evidence) (claims : list Claim)
    : list string :=
  map (fun ev => "evidence_" +:+ ev_id ev) evidence
  ++ map (fun c => "claim_" +:+ id c) claims.

(** The three tables of D1. *)
Definition tables (w : World)
    : gmap string SubjectRun * list Evidence * list Claim :=
  (w_runs w, w_evidence w, w_claims w).

(** The evidence and the claims that D1 holds. *)
Definition artifacts (w : World) : list Evidence * list Claim :=
  (w_evidence w, w_claims w).

(** Observations of the world that do not depend on the clock and on the
    supply of identifiers, and those that do not depend on the requests sent
    to the provider. *)
Class Timeless {T} (f : World -> T) : Prop := {
  blind_now : forall x w, f (set_now x w) = f w;
  blind_uuid : forall x w, f (set_uuid x w) = f w
}.

Class Offline {T} (f : World -> T) : Prop :=
  blind_trigger : forall i w, f (note_trigger i w) = f w.



(** The error message of a run, if D1 holds the run. *)
Definition run_message (runId : string) (w : World) : option (option string) :=
  error_message <$> (w_runs w !! runId).

(** ** Runs *)

(** Statements on table [subject_runs] that the state machine issues. *)
Definition run_statement (op : DbOp) : Prop :=
  match op with
  | SelectRun _ | UpdateRun _ _ _ _ _ => True
  | _ => False
  end.

(** D1 never fails a read or a status write of a run; inserts of evidence
    and claims may fail at will. *)
Definition run_statements_ok (env : Env) : Prop :=
  forall n op, run_statement op -> db_fault env n op = None.

Definition run_present (runId : string) (w : World) : Prop :=
  is_Some (w_runs w !! runId).

Definition has_status (runId : string) (s : RunStatus) (w : World) : Prop :=
  exists r, w_runs w !! runId = Some r /\ status r = s.

(** [m] returns, and a run that is in D1 before is in D1 after. *)
Definition serves {A} (runId : string) (m : M A) : Prop :=
  forall w, run_present runId w ->
            exists a w', m w = (Ok a, w') /\ run_present runId w'.

(** [m] returns and leaves the run in status [s]. *)
Definition ends_in {A} (runId : string) (s : RunStatus) (m : M A) : Prop :=
  forall w, run_present runId w ->
            exists a w', m w = (Ok a, w') /\ has_status runId s w'.

(** ** Claims, queries and scores *)

(** The claim that the verify stage keeps for [claim], if any: the model
    approved it and its reply carries a tag list, to which [verifyClaim]
    has pushed its own tags. *)
Definition kept (env : Env) (claim : Claim) : option Claim :=
  match ai_verify env claim with
  | AiParsed v =>
      if approved v then
        match vr_policy_tags v with
        | Some tags =>
            Some (set_policy_tags
                    (join "," (tags ++ ComplianceAgent.pushed_tags claim))
                    claim)
        | None => None
        end
      else None
  | _ => None
  end.

(** Rows are added to table [claims], each a claim of [cs] under a new id. *)
Definition claims_grow_from (cs : list Claim) : relation World :=
  fun w w' => exists l, w_claims w' = w_claims w ++ l
                        /\ Forall (fun row => exists c i,
                                     c ∈ cs /\ row = set_id i c) l.

(** The bytes of one white-space code point. *)
Definition is_white (s : list ascii) : bool :=
  match s with
  | [a] => space1 a
  | [a; b] => space2 a b
  | [a; b; c] => space3 a b c
  | _ => false
  end.

(** A run of white space. *)
Inductive blank : list ascii -> Prop :=
| blank_nil : blank []
| blank_cons s l : is_white s = true -> blank l -> blank (s ++ l).

(** A search query that consists of one white-space separated token: white
    space, a token in which no white space occurs, white space. *)
Definition single_token (q : string) : Prop :=
  exists pre t post,
    list_ascii_of_string q = pre ++ t ++ post
    /\ blank pre /\ blank post
    /\ t <> []
    /\ (forall l1 s l2, t = l1 ++ s ++ l2 -> is_white s = false).

(** The thresholds of the profile strength as the specification words
    them, with [>=] where [profileStrength] has [>]. *)
Definition profileStrength_at_least (score : float)
    : SubjectOrchestrator.ProfileStrength :=
  if PrimFloat.leb 0.8%float score then SubjectOrchestrator.Strong
  else if PrimFloat.leb 0.6%float score then SubjectOrchestrator.Good
  else if PrimFloat.leb 0.4%float score then SubjectOrchestrator.Moderate
  else SubjectOrchestrator.Weak.

(** The completeness score in exact hundredths. *)
Definition completeness_points (p : SubjectOrchestrator.LinkedInProfileData)
    : nat :=
  (if SubjectOrchestrator.present (SubjectOrchestrator.about p) then 20 else 0)
  + (if SubjectOrchestrator.nonempty (SubjectOrchestrator.experience p)
     then 30 else 0)
  + (if SubjectOrchestrator.nonempty (SubjectOrchestrator.education p)
     then 20 else 0)
  + (if SubjectOrchestrator.gt0 (SubjectOrchestrator.followers p)
     then 15 else 0)
  + (if SubjectOrchestrator.gt0 (SubjectOrchestrator.connections p)
     then 15 else 0).

(** ** Results, requests and replies *)

(** Every result that [m] returns satisfies [P]. *)
Definition yields {A} (P : A -> Prop) (m : M A) : Prop :=
  forall w a w', m w = (Ok a, w') -> P a.

(** Exactly [n] more trigger requests have been sent. *)
Definition sent (n : nat) : relation World :=
  fun w w' => w_triggers w' = w_triggers w + n.

(** The world without its clock and its supply of identifiers: the stores,
    the storage of the object, the counters and the log. *)
Definition durable (w : World) : World := set_uuid 0 (set_now 0 w).

(** A reply to a snapshot check from which the client learns nothing: the
    request was rejected, the status is not 2xx, the body is not JSON or is
    [null], or it carries a status other than [completed] and [failed]. *)
Definition inconclusive (r : option HttpReply) : Prop :=
  match r with
  | None => True
  | Some response =>
      http_ok response = false
      \/ http_json response = None
      \/ http_json response = Some JNull
      \/ exists body st,
           http_json response = Some body
           /\ get_field "status" body = Some st
           /\ truthy (Some st) = true
           /\ st <> JStr "completed" /\ st <> JStr "failed"
  end.

(** What [waitForCompletion] promises about its result: a success carries
    no error; a failure carries no data and an error that is not empty. *)
Definition well_formed_wait (r : Scraper.WaitResult) : Prop :=
  if Scraper.success r then Scraper.wait_error r = None
  else Scraper.data r = None /\ truthy (Scraper.wait_error r) = true.

(** What the scrape operations promise about a [ScrapingResult] for
    [source]: a success carries data and the snapshot id and no error; a
    failure carries the error only. *)
Definition well_formed (source : string) (r : Scraper.ScrapingResult) : Prop :=
  Scraper.sr_source r = source
  /\ if Scraper.sr_success r
     then is_Some (Scraper.sr_data r) /\ is_Some (Scraper.sr_snapshotId r)
          /\ Scraper.sr_error r = None
     else Scraper.sr_data r = None /\ Scraper.sr_snapshotId r = None
          /\ is_Some (Scraper.sr_error r).

(** The provider's record in the data of a snapshot: the first element of
    an array, and the data itself otherwise. *)
Definition provider_record (d : jsval) : jsval :=
  match d with
  | Some (JArr l) => head l
  | _ => d
  end.

(** The failed result that a scrape operation builds for [source] at the
    time of [w]. *)
Definition failure (env : Env) (source message : string) (w : World)
    : Scraper.ScrapingResult :=
  {| Scraper.sr_success := false; Scraper.sr_data := None;
     Scraper.sr_error := Some message; Scraper.sr_source := source;
     Scraper.sr_scrapedAt := toISOString env (w_now w);
     Scraper.sr_snapshotId := None |}.

(** [m] is a scrape by the trigger request [i]: it never throws and
    returns a well-formed result for [source]; it sends one trigger request,
    [i], and writes nothing to the log and to D1 besides. *)
Definition requests (i : TriggerInput) (source : string)
    (m : M Scraper.ScrapingResult) : Prop :=
  forall w, exists r w',
    m w = (Ok r, w')
    /\ well_formed source r
    /\ w_log w' = ETrigger i :: w_log w
    /\ w_triggers w' = S (w_triggers w)
    /\ tables w' = tables w.

(** The world when the reply to the trigger request [i], or its rejection,
    has arrived. *)
Definition triggered (env : Env) (i : TriggerInput) (w : World) : World :=
  set_now (w_now w + trigger_latency env (w_triggers w) i)%N
          (note_trigger i w).


(** ** Harvested evidence *)

(** An evidence record as the harvester builds it for [subject]: it is
    filed under the subject, carries the digest of its content and no
    extraction, and comes from the profile at the subject's URL or from the
    profile search. *)
Definition harvested (env : Env) (subject : string) (e : Evidence) : Prop :=
  ev_subject_id e = subject
  /\ hash e = sha256_hex env (content_text e)
  /\ extraction e = None
  /\ (exists n : nat, ev_id e = "evid_" +:+ pretty n)
  /\ ((source_url e = subject /\ content_type e = ct_json)
      \/ (source_url e = "linkedin://search" /\ content_type e = ct_json)).

(** The evidence of a tool result, if it has one, satisfies [P]. *)
Definition tool_evidence (P : Evidence -> Prop) (r : HarvesterAgent.ToolResult)
    : Prop :=
  match r with
  | HarvesterAgent.ToolOk e _ => P e
  | HarvesterAgent.ToolFail _ => True
  end.

(** What the harvester relies on when it runs a tool: the tool never
    throws and never writes to D1; its evidence is well formed; it sends one
    trigger request, or none, and then it has failed. *)
Definition tool_spec (env : Env) (subject : string)
    (tool : M HarvesterAgent.ToolResult) : Prop :=
  forall w, exists r w',
    tool w = (Ok r, w')
    /\ tables w' = tables w
    /\ tool_evidence (harvested env subject) r
    /\ (sent 1 w w'
        \/ (sent 0 w w' /\ exists message, r = HarvesterAgent.ToolFail message)).

(** ** What a run leaves alone *)

(** The storage of the Durable Object. *)
Definition storage (w : World) : option InputType * option Z :=
  (w_inputType w, w_maxApiCalls w).

(** The ids of the runs that D1 holds, and the row of one of them. *)
Definition run_ids (w : World) : gset string := dom (w_runs w).

Definition run_row (runId : string) (w : World) : option SubjectRun :=
  w_runs w !! runId.

(** The list [f] of the world is extended at its end and is otherwise left
    as it is. *)
Definition grows {T} (f : World -> list T) : relation World :=
  fun w w' => f w `prefix_of` f w'.

(** Observations of the world that do not depend on Vectorize and on the
    embedding model. *)
Class Indexless {T} (f : World -> T) : Prop := {
  blind_vec : forall i ok vs w, f (note_vec i ok vs w) = f w;
  blind_embed : forall ok w, f (note_embed ok w) = f w
}.

(** ** The status writes of a run *)

(** The statuses that D1 has accepted among the events [evs] (most recent
    first), in the order in which they were written. *)
Definition status_writes (evs : list Event) : list RunStatus :=
  omap (fun e => match e with
                 | EDb (UpdateRun _ s _ _ _) true => Some s
                 | _ => None
                 end) (rev evs).

(** An event that is not an accepted status write. *)
Definition no_status_write (e : Event) : Prop :=
  match e with
  | EDb (UpdateRun _ _ _ _ _) true => False
  | _ => True
  end.

(** The statuses that a run goes through, in their order. *)
Definition pipeline : list RunStatus :=
  [discover; fetch; normalize; extract; verify; upsert; synthesize; publish;
   completed].

(** [m] writes the statuses [S] in this order when it returns, and a part
    of them, from the first on and short of [completed], when it throws. *)
Definition follows {A} (S : list RunStatus) (m : M A) : Prop :=
  forall w, exists evs,
    w_log (m w).2 = evs ++ w_log w
    /\ match (m w).1 with
       | Ok _ => status_writes evs = S
       | Throw _ => status_writes evs `prefix_of` S
                    /\ completed ∉ status_writes evs
       end.

(** ** Extraction *)

(** [e'] is [e], or [e] with the extraction that the model returned for it
    attached. *)
Definition extraction_attached (env : Env) (e e' : Evidence) : Prop :=
  e' = e
  \/ (extraction e = None
      /\ exists x, ai_extract env e = AiParsed x
                   /\ e' = set_extraction (Some x) e).

(** [c] is the claim built from a claim candidate of the extraction of
    [e]. *)
Definition extracted_from (e : Evidence) (c : Claim) : Prop :=
  exists x cds cd,
    extraction e = Some x /\ claims x = Some cds /\ cd ∈ cds
    /\ subject_id c = ev_subject_id e
    /\ predicate c = cd_predicate cd
    /\ object c = cd_object cd
    /\ confidence c = cd_confidence cd
    /\ policy_tags c = "extracted:ai"
    /\ last_verified_at c = first_seen_at c.

(** ** The fallback report *)

(** The work history and the schools of a profile, empty when the field is
    missing. *)
Definition experiences (p : SubjectOrchestrator.LinkedInProfileData)
    : list json :=
  default [] (SubjectOrchestrator.experience p).

Definition schools (p : SubjectOrchestrator.LinkedInProfileData) : list json :=
  default [] (SubjectOrchestrator.education p).

(** * Scenarios

    Concrete environments and inputs on which the model is run. *)

Module Scenario.

Definition reply_ok (body : json) : HttpReply :=
  {| http_ok := true; http_status := 200; http_text := "";
     http_json := Some body |}.

Definition reply_error (st : nat) (text : string) : HttpReply :=
  {| http_ok := false; http_status := st; http_text := text;
     http_json := None |}.

(** An environment from its provider, model and fault plans. The digest,
    the printing of dates and numbers and the URI encoding are stand-ins:
    no scenario depends on what they return. A trigger request takes
    100 ms. *)
Definition mkEnv
    (trigger : nat -> TriggerInput -> option HttpReply)
    (poll : string -> nat -> N * option HttpReply)
    (extractor : Evidence -> AiReply Extraction)
    (verifier : Claim -> AiReply VerificationResult)
    (dbf : nat -> DbOp -> option string)
    (vecf : nat -> string -> option string) : Env :=
  {| sha256_hex := fun content => "sha256:" +:+ content;
     toISOString := fun t => pretty t;
     number_toString := fun _ => "0";
     encodeURIComponent := fun q => q;
     provider_trigger := trigger;
     trigger_latency := fun _ _ => 100%N;
     provider_poll := poll;
     ai_extract := extractor;
     ai_verify := verifier;
     ai_embed := fun _ _ => Some [];
     sql_datetime := fun t => "sql:" +:+ pretty t;
     db_fault := dbf;
     vec_fault := vecf |}.

Definition no_db_fault : nat -> DbOp -> option string := fun _ _ => None.
Definition no_vec_fault : nat -> string -> option string := fun _ _ => None.

(** A fresh deployment: empty tables, empty index, empty storage. *)
Definition world0 : World :=
  {| w_now := 0; w_uuid := 0; w_triggers := 0; w_db_ops := 0; w_vec_ops := 0;
     w_runs := ∅; w_evidence := []; w_claims := []; w_vectors := [];
     w_inputType := None; w_maxApiCalls := None; w_log := [] |}.

(** Polling: the first check of a snapshot answers [{}], the second [[]],
    each after 200 ms. *)
Definition poll_empty_then_array : string -> nat -> N * option HttpReply :=
  fun _ attempt =>
    match attempt with
    | 1 => (200%N, Some (reply_ok (JObj [])))
    | _ => (200%N, Some (reply_ok (JArr [])))
    end.

Definition env_poll : Env :=
  mkEnv (fun _ _ => None) poll_empty_then_array
        (fun _ => AiNotOk 500) (fun _ => AiNotOk 500) no_db_fault no_vec_fault.

(** A direct profile run: the provider accepts the trigger and the first
    check of the snapshot returns the profile; the model extracts one claim
    and approves it without tags. *)
Definition alice_url : string := "https://www.linkedin.com/in/alice".

Definition alice_profile : json :=
  JObj [("name", JStr "Alice"); ("current_company_name", JStr "Acme");
        ("city", JStr "Paris"); ("about", JStr "Builds things.")].

Definition trigger_accepts : nat -> TriggerInput -> option HttpReply :=
  fun n _ => Some (reply_ok (JObj [("snapshot_id", JStr ("s_" +:+ pretty n))])).

Definition poll_profile : string -> nat -> N * option HttpReply :=
  fun _ _ => (200%N, Some (reply_ok (JArr [alice_profile]))).

Definition extract_works_at : Evidence -> AiReply Extraction :=
  fun _ => AiParsed {| entities := [];
                       claims := Some [{| cd_predicate := "works_at";
                                          cd_object := "Acme";
                                          cd_confidence := 0.9%float |}] |}.

Definition approve_untagged : Claim -> AiReply VerificationResult :=
  fun _ => AiParsed {| approved := true; redacted_content := None;
                       vr_policy_tags := Some []; reason := None |}.

Definition env_direct : Env :=
  mkEnv trigger_accepts poll_profile extract_works_at approve_untagged
        no_db_fault no_vec_fault.

(** D1 rejects every insert of evidence and claims. *)
Definition inserts_fail : nat -> DbOp -> option string :=
  fun _ op =>
    match op with
    | InsertEvidence _ | InsertClaim _ => Some "D1_ERROR: insert failed"
    | _ => None
    end.

Definition env_inserts_fail : Env :=
  mkEnv trigger_accepts poll_profile extract_works_at approve_untagged
        inserts_fail no_vec_fault.

(** D1 rejects the status writes that enter [upsert], and nothing else. *)
Definition upsert_write_fails : nat -> DbOp -> option string :=
  fun _ op =>
    match op with
    | UpdateRun _ upsert _ _ _ => Some "D1_ERROR: update failed"
    | _ => None
    end.

Definition env_status_write_fails : Env :=
  mkEnv trigger_accepts poll_profile extract_works_at approve_untagged
        upsert_write_fails no_vec_fault.

(** Vectorize rejects every upsert. *)
Definition env_vector_fails : Env :=
  mkEnv trigger_accepts poll_profile extract_works_at approve_untagged
        no_db_fault (fun _ _ => Some "VECTOR_UPSERT_ERROR").


Definition poll_empty_array : string -> nat -> N * option HttpReply :=
  fun _ _ => (200%N, Some (reply_ok (JArr []))).


(** The world after [startRun] and the state machine it launches. *)
Definition after_run (env : Env) (subject : string) (inputType : InputType)
    (maxApiCalls : Z) : World :=
  (SubjectOrchestrator.startRun env subject inputType maxApiCalls world0).2.
(** The world in which [startRun] launches the state machine. *)
Definition started (env : Env) (subject : string) (inputType : InputType)
    (maxApiCalls : Z) : World :=
  ((CanonicalMemory.createSubjectRun env subject "web-scraping-user"
      intake 0 0 ;;;
    SubjectOrchestrator.storage_put inputType maxApiCalls) world0).2.

(** The harvested evidence and the world when the run has just entered
    [normalize]. *)
Definition entered_normalize (env : Env) (subject : string)
    (inputType : InputType) (maxApiCalls : Z)
    : outcome (list Evidence) * World :=
  (run <- SubjectOrchestrator.stage_discover env "run_0" ;;
   SubjectOrchestrator.stage_fetch env "run_0" run)
    (started env subject inputType maxApiCalls).

(** A profile with an about text and one school, and nothing else. *)
Definition about_and_education : SubjectOrchestrator.LinkedInProfileData :=
  {| SubjectOrchestrator.about := Some "Builds things.";
     SubjectOrchestrator.experience := Some [];
     SubjectOrchestrator.education := Some [JObj [("title", JStr "MIT")]];
     SubjectOrchestrator.followers := None;
     SubjectOrchestrator.connections := None |}.

(** The evidence of a profile scrape, and the extraction attached later. *)
Definition alice_evidence : Evidence :=
  {| ev_id := "evid_7"; ev_subject_id := alice_url; source_url := alice_url;
     collected_at := "15300"; content_text := "{}"; content_type := ct_json;
     hash := "sha256:{}"; extraction := None |}.

(** A claim extracted from it. *)
Definition alice_claim : Claim :=
  {| id := "claim_8"; subject_id := alice_url; predicate := "works_at";
     object := "Acme"; confidence := 0.9%float; first_seen_at := "15300";
     last_verified_at := "15300";
     provenance_json := "{}"; policy_tags := "source:linkedin_scraping" |}.

Definition alice_extraction : Extraction :=
  {| entities := [];
     claims := Some [{| cd_predicate := "works_at"; cd_object := "Acme";
                        cd_confidence := 0.9%float |}] |}.

(** The provider answers every snapshot check with HTTP 503, and with a
    snapshot that is still running. *)
Definition poll_unavailable : string -> nat -> N * option HttpReply :=
  fun _ _ => (200%N, Some (reply_error 503 "Service Unavailable")).

Definition poll_running : string -> nat -> N * option HttpReply :=
  fun _ _ => (200%N, Some (reply_ok (JObj [("status", JStr "running")]))).

Definition env_unavailable : Env :=
  mkEnv trigger_accepts poll_unavailable (fun _ => AiNotOk 500)
        (fun _ => AiNotOk 500) no_db_fault no_vec_fault.

Definition env_running : Env :=
  mkEnv trigger_accepts poll_running (fun _ => AiNotOk 500)
        (fun _ => AiNotOk 500) no_db_fault no_vec_fault.

(** The provider delivers the profile as a bare object, not wrapped in an
    array. *)
Definition poll_bare_object : string -> nat -> N * option HttpReply :=
  fun _ _ => (200%N, Some (reply_ok alice_profile)).

Definition env_bare_object : Env :=
  mkEnv trigger_accepts poll_bare_object extract_works_at approve_untagged
        no_db_fault no_vec_fault.

(** A search for a name on a provider that accepts every request and
    answers every snapshot check with an empty array. *)
Definition env_search : Env :=
  mkEnv trigger_accepts poll_empty_array extract_works_at approve_untagged
        no_db_fault no_vec_fault.

End Scenario.

(** * Properties *)

(** ** Reasoning about [M] *)

Lemma bind_ok {A B} (m : M A) (k : A -> M B) w a w' :
  m w = (Ok a, w') -> bind m k w = k a w'.
Proof. unfold bind. by intros ->. Qed.

Lemma try_catch_ok {A} (m : M A) h w a w' :
  m w = (Ok a, w') -> try_catch m h w = (Ok a, w').
Proof. unfold try_catch. by intros ->. Qed.

Lemma try_catch_throw {A} (m : M A) h w e w' :
  m w = (Throw e, w') -> try_catch m h w = h e w'.
Proof. unfold try_catch. by intros ->. Qed.

Lemma total_ret {A} (a : A) : total (ret a).
Proof. intros w. by exists a, w. Qed.

Lemma total_bind {A B} (m : M A) (k : A -> M B) :
  total m -> (forall a, total (k a)) -> total (bind m k).
Proof.
  intros Hm Hk w. destruct (Hm w) as (a & w1 & E).
  rewrite (bind_ok _ _ _ _ _ E). apply Hk.
Qed.

Lemma total_try_catch {A} (m : M A) h :
  (forall e, total (h e)) -> total (try_catch m h).
Proof.
  intros Hh w. unfold try_catch. destruct (m w) as [[a|e] w1]; [by eauto|].
  apply Hh.
Qed.

Lemma total_for_acc {A S} (xs : list A) (body : A -> S -> M S) acc :
  (forall x s, total (body x s)) -> total (for_acc xs acc body).
Proof.
  intros Hb. revert acc. induction xs as [|x xs IH]; intros acc; simpl.
  - apply total_ret.
  - apply total_bind; [apply Hb | intros a; apply IH].
Qed.

Lemma total_for_of {A} (xs : list A) (body : A -> M unit) :
  (forall x, total (body x)) -> total (for_of xs body).
Proof.
  intros Hb. induction xs as [|x xs IH]; simpl.
  - apply total_ret.
  - apply total_bind; [apply Hb | intros _; apply IH].
Qed.

(** ** Rules for [steps] *)

Global Instance same_preorder {T} (f : World -> T) : PreOrder (same f).
Proof.
  split; [by intros w|]. intros w1 w2 w3 H1 H2. unfold same in *. congruence.
Qed.

Global Instance log_grows_preorder P : PreOrder (log_grows P).
Proof.
  split.
  - intros w. by exists [].
  - intros w1 w2 w3 (l1 & E1 & F1) (l2 & E2 & F2). exists (l2 ++ l1).
    split; [by rewrite E2, E1, app_assoc | by apply Forall_app].
Qed.

Section Steps.
Context (R : relation World) `{!PreOrder R}.

Lemma steps_ret {A} (a : A) : steps R (ret a).
Proof. by intros w. Qed.

Lemma steps_throw {A} e : steps R (@throw A e).
Proof. by intros w. Qed.

Lemma steps_gets {A} (g : World -> A) : steps R (gets g).
Proof. by intros w. Qed.

Lemma steps_bind {A B} (m : M A) (k : A -> M B) :
  steps R m -> (forall a, steps R (k a)) -> steps R (bind m k).
Proof.
  intros Hm Hk w. unfold bind. specialize (Hm w).
  destruct (m w) as [[a|e] w1]; simpl in *; [|done].
  etrans; [exact Hm | apply Hk].
Qed.

Lemma steps_try_catch {A} (m : M A) h :
  steps R m -> (forall e, steps R (h e)) -> steps R (try_catch m h).
Proof.
  intros Hm Hh w. unfold try_catch. specialize (Hm w).
  destruct (m w) as [[a|e] w1]; simpl in *; [done|].
  etrans; [exact Hm | apply Hh].
Qed.

Lemma steps_for_acc {A S} (xs : list A) (body : A -> S -> M S) acc :
  (forall x s, steps R (body x s)) -> steps R (for_acc xs acc body).
Proof.
  intros Hb. revert acc. induction xs as [|x xs IH]; intros acc; simpl.
  - apply steps_ret.
  - apply steps_bind; [apply Hb | intros a; apply IH].
Qed.

Lemma steps_for_of_in {A} (xs : list A) (body : A -> M unit) :
  (forall x, x ∈ xs -> steps R (body x)) -> steps R (for_of xs body).
Proof.
  induction xs as [|x xs IH]; intros Hb; simpl.
  - apply steps_ret.
  - apply steps_bind; [apply Hb; left | intros _; apply IH].
    intros y Hy. apply Hb. by right.
Qed.

Lemma steps_for_of {A} (xs : list A) (body : A -> M unit) :
  (forall x, steps R (body x)) -> steps R (for_of xs body).
Proof. intros Hb. apply steps_for_of_in. auto. Qed.

End Steps.

(** What leaves the tables alone leaves each of them alone. *)
Lemma same_tables_runs {A} (m : M A) :
  steps (same tables) m -> steps (same w_runs) m.
Proof. intros H w. specialize (H w). unfold same, tables in *. congruence. Qed.

Lemma same_tables_claims {A} (m : M A) :
  steps (same tables) m -> steps (same w_claims) m.
Proof. intros H w. specialize (H w). unfold same, tables in *. congruence. Qed.

Create HintDb frame discriminated.
Create HintDb total discriminated.

(** Decompose a frame or totality goal along the structure of the code. *)
Ltac frame_step :=
  first
    [ solve [auto with frame nocore]
    | apply steps_ret; solve [apply _]
    | apply steps_throw; solve [apply _]
    | apply steps_gets; solve [apply _]
    | apply steps_bind; [apply _| |intros ?]
    | apply steps_try_catch; [apply _| |intros ?]
    | apply steps_for_acc; [apply _|intros ? ?]
    | apply steps_for_of; [apply _|intros ?]
    | match goal with
      | |- steps _ (if ?c then _ else _) => destruct c
      | |- steps _ (match ?x with _ => _ end) => destruct x
      end ].
Ltac frame := repeat frame_step.

Ltac total_step :=
  first
    [ solve [auto with total nocore]
    | apply total_ret
    | apply total_try_catch; intros ?
    | apply total_bind; [|intros ?]
    | apply total_for_acc; intros ? ?
    | apply total_for_of; intros ?
    | match goal with
      | |- total (if ?c then _ else _) => destruct c
      | |- total (match ?x with _ => _ end) => destruct x
      end ].
Ltac total := repeat total_step.

Lemma total_gets {A} (g : World -> A) : total (gets g).
Proof. intros w. by eexists _, _. Qed.

Lemma total_modify g : total (modify g).
Proof. intros w. by eexists _, _. Qed.

Lemma total_randomUUID : total randomUUID.
Proof. intros w. by eexists _, _. Qed.

Lemma total_now_iso env : total (Scraper.now_iso env).
Proof. apply total_gets. Qed.

#[global] Hint Resolve total_gets total_modify total_randomUUID total_now_iso
  : total.

(** The scraper client and the harvester work on the provider only: they
    never touch D1, and the harvest never throws. The lemmas are stated for
    any observation that the clock, the identifiers and (where a trigger
    request is sent) the provider do not affect. *)

Global Instance tables_timeless : Timeless tables.
Proof. by split. Qed.

Global Instance tables_offline : Offline tables.
Proof. by intros i w. Qed.

Global Instance triggers_timeless : Timeless w_triggers.
Proof. by split. Qed.

#[global] Hint Extern 1 (Timeless _) => typeclasses eauto : frame.
#[global] Hint Extern 1 (Offline _) => typeclasses eauto : frame.

Section ProviderFrame.
Context {T : Type} (f : World -> T) `{!Timeless f}.

Lemma frame_sleep ms : steps (same f) (sleep ms).
Proof. intros w. apply blind_now. Qed.

Lemma frame_randomUUID : steps (same f) randomUUID.
Proof. intros w. apply blind_uuid. Qed.

Lemma frame_now_iso env : steps (same f) (Scraper.now_iso env).
Proof. by intros w. Qed.

Lemma frame_Date_now : steps (same f) Date_now.
Proof. by intros w. Qed.

Lemma frame_fetch_snapshot env sid k :
  steps (same f) (Scraper.fetch_snapshot env sid k).
Proof.
  intros w. unfold Scraper.fetch_snapshot.
  destruct (provider_poll env sid k) as [? [?|]]; apply blind_now.
Qed.

Lemma frame_post_trigger `{!Offline f} env i :
  steps (same f) (Scraper.post_trigger env i).
Proof.
  intros w. unfold Scraper.post_trigger, same.
  destruct (provider_trigger env (w_triggers w) i); simpl;
    by rewrite blind_now, blind_trigger.
Qed.

End ProviderFrame.

#[global] Hint Resolve frame_sleep frame_randomUUID frame_now_iso
  frame_Date_now frame_fetch_snapshot frame_post_trigger : frame.

Section ScraperFrame.
Context {T : Type} (f : World -> T) `{!Timeless f}.

Lemma frame_pollLoop env fuel sid start k :
  steps (same f) (Scraper.pollLoop env fuel sid start k).
Proof.
  revert k. induction fuel as [|fuel IH]; intros k; simpl.
  - frame.
  - unfold Scraper.pollOnce, Scraper.checkSnapshot. frame.
Qed.
Hint Resolve frame_pollLoop : frame.

Lemma frame_waitForCompletion env sid :
  steps (same f) (Scraper.waitForCompletion env sid).
Proof. unfold Scraper.waitForCompletion. frame. Qed.
Hint Resolve frame_waitForCompletion : frame.

Lemma frame_snapshot_of_trigger env response :
  steps (same f) (Scraper.snapshot_of_trigger env response).
Proof. unfold Scraper.snapshot_of_trigger. frame. Qed.

Lemma frame_failed env source message :
  steps (same f) (Scraper.failed env source message).
Proof. unfold Scraper.failed. frame. Qed.

Lemma frame_succeeded env source sid d :
  steps (same f) (Scraper.succeeded env source sid d).
Proof. unfold Scraper.succeeded. frame. Qed.

Lemma frame_processLinkedInProfileData env d url :
  steps (same f) (Scraper.processLinkedInProfileData env d url).
Proof. unfold Scraper.processLinkedInProfileData. frame. Qed.

Lemma frame_processWebContent env d url :
  steps (same f) (Scraper.processWebContent env d url).
Proof. unfold Scraper.processWebContent. frame. Qed.

Lemma frame_search_items t items :
  steps (same f) (Scraper.search_items t items).
Proof.
  induction items as [|item items IH]; simpl; [frame|].
  unfold Scraper.search_item. frame.
Qed.
Hint Resolve frame_search_items : frame.

Lemma frame_processLinkedInSearchResults env d q :
  steps (same f) (Scraper.processLinkedInSearchResults env d q).
Proof. unfold Scraper.processLinkedInSearchResults. frame. Qed.

Lemma frame_createEvidence env subject url content ct :
  steps (same f) (HarvesterAgent.createEvidence env subject url content ct).
Proof. unfold HarvesterAgent.createEvidence. frame. Qed.

End ScraperFrame.

#[global] Hint Resolve frame_pollLoop frame_waitForCompletion
  frame_snapshot_of_trigger frame_failed frame_succeeded
  frame_processLinkedInProfileData frame_processWebContent frame_search_items
  frame_processLinkedInSearchResults frame_createEvidence : frame.

Lemma frame_scrapeProfile env url :
  steps (same tables) (Scraper.scrapeProfile env url).
Proof. unfold Scraper.scrapeProfile. frame. Qed.

Lemma frame_searchProfiles env q :
  steps (same tables) (Scraper.searchProfiles env q).
Proof. unfold Scraper.searchProfiles. frame. Qed.

(** [scrapeWebContent] sends nothing: it stops at its call of
    [triggerScraping]. *)
Lemma frame_scrapeWebContent {T} (f : World -> T) `{!Timeless f} env url :
  steps (same f) (Scraper.scrapeWebContent env url).
Proof. by intros w. Qed.
#[global] Hint Resolve frame_scrapeProfile frame_searchProfiles
  frame_scrapeWebContent : frame.

Lemma steps_tables_harvestEvidence env subject sources inputType maxApiCalls :
  steps (same tables)
    (HarvesterAgent.harvestEvidence env subject sources inputType maxApiCalls).
Proof.
  unfold HarvesterAgent.harvestEvidence, HarvesterAgent.scrape_one,
    HarvesterAgent.searchLinkedInProfilesTool,
    HarvesterAgent.scrapeLinkedInProfileTool, HarvesterAgent.searchWebTool,
    HarvesterAgent.fetchWebContent, HarvesterAgent.createEvidence.
  frame.
Qed.

Lemma total_harvestEvidence env subject sources inputType maxApiCalls :
  total
    (HarvesterAgent.harvestEvidence env subject sources inputType maxApiCalls).
Proof.
  unfold HarvesterAgent.harvestEvidence, HarvesterAgent.scrape_one.
  total.
Qed.

(** ** D1 and Vectorize *)

Lemma steps_runs_insert_evidence env e :
  steps (same w_runs) (CanonicalMemory.d1_run env (InsertEvidence e)).
Proof.
  intros w. unfold CanonicalMemory.d1_run.
  by destruct (db_fault env (w_db_ops w) (InsertEvidence e)).
Qed.

Lemma steps_runs_insert_claim env c :
  steps (same w_runs) (CanonicalMemory.d1_run env (InsertClaim c)).
Proof.
  intros w. unfold CanonicalMemory.d1_run.
  by destruct (db_fault env (w_db_ops w) (InsertClaim c)).
Qed.

Lemma steps_runs_randomUUID : steps (same w_runs) randomUUID.
Proof. by intros w. Qed.

Lemma steps_runs_now_iso env : steps (same w_runs) (Scraper.now_iso env).
Proof. by intros w. Qed.

#[global] Hint Resolve steps_runs_insert_evidence steps_runs_insert_claim
  steps_runs_randomUUID steps_runs_now_iso : frame.

Lemma steps_runs_createEvidence env e :
  steps (same w_runs) (CanonicalMemory.createEvidence env e).
Proof. unfold CanonicalMemory.createEvidence. frame. Qed.

Lemma steps_runs_createClaim env c :
  steps (same w_runs) (CanonicalMemory.createClaim env c).
Proof. unfold CanonicalMemory.createClaim. frame. Qed.

Lemma steps_tables_generateEmbedding env text :
  steps (same tables) (VectorMemory.generateEmbedding env text).
Proof.
  intros w. unfold VectorMemory.generateEmbedding.
  by destruct (ai_embed env _ _).
Qed.

Lemma steps_tables_upsert env i v :
  steps (same tables) (VectorMemory.upsert env i v).
Proof.
  intros w. unfold VectorMemory.upsert. by destruct (vec_fault env _ _).
Qed.

Lemma steps_runs_generateEmbedding env text :
  steps (same w_runs) (VectorMemory.generateEmbedding env text).
Proof. apply same_tables_runs, steps_tables_generateEmbedding. Qed.

Lemma steps_runs_upsert env i v :
  steps (same w_runs) (VectorMemory.upsert env i v).
Proof. apply same_tables_runs, steps_tables_upsert. Qed.

#[global] Hint Resolve steps_runs_createEvidence steps_runs_createClaim
  steps_tables_generateEmbedding steps_tables_upsert
  steps_runs_generateEmbedding steps_runs_upsert : frame.

(** Run statements, when D1 serves them. *)
Lemma getSubjectRun_ok env runId w :
  run_statements_ok env ->
  CanonicalMemory.getSubjectRun env runId w
  = (Ok (w_runs w !! runId),
     note_db (SelectRun runId) true (w_runs w) (w_evidence w) (w_claims w) w).
Proof.
  intros Hok. unfold CanonicalMemory.getSubjectRun, bind,
    CanonicalMemory.d1_run. by rewrite Hok.
Qed.

Lemma updateSubjectRunStatus_ok env runId s ec cc em w :
  run_statements_ok env ->
  CanonicalMemory.updateSubjectRunStatus env runId s ec cc em w
  = (Ok tt,
     note_db (UpdateRun runId s ec cc em) true
       (alter (CanonicalMemory.set_run_status s ec cc em
                 (toISOString env (w_now w))) runId (w_runs w))
       (w_evidence w) (w_claims w) w).
Proof.
  intros Hok. unfold CanonicalMemory.updateSubjectRunStatus,
    CanonicalMemory.d1_run. by rewrite Hok.
Qed.

Lemma has_status_present runId s w : has_status runId s w -> run_present runId w.
Proof. intros (r & E & _). by exists r. Qed.

Lemma updateSubjectRunStatus_status env runId s ec cc em w :
  run_statements_ok env -> run_present runId w ->
  exists w', CanonicalMemory.updateSubjectRunStatus env runId s ec cc em w
             = (Ok tt, w')
             /\ has_status runId s w'
             /\ w_evidence w' = w_evidence w /\ w_claims w' = w_claims w.
Proof.
  intros Hok [r Hr]. rewrite updateSubjectRunStatus_ok by done.
  eexists; split; [reflexivity|]. split; [|done].
  eexists. simpl. rewrite lookup_alter_eq, Hr. simpl. done.
Qed.

(** ** The stages of the state machine *)

Lemma serves_total_frame {A} runId (m : M A) :
  total m -> steps (same w_runs) m -> serves runId m.
Proof.
  intros Ht Hf w Hp. destruct (Ht w) as (a & w' & E).
  exists a, w'. split; [done|]. specialize (Hf w). rewrite E in Hf.
  unfold run_present, same in *. simpl in Hf. by rewrite Hf.
Qed.

Lemma serves_bind {A B} runId (m : M A) (k : A -> M B) :
  serves runId m -> (forall a, serves runId (k a)) -> serves runId (bind m k).
Proof.
  intros Hm Hk w Hp. destruct (Hm w Hp) as (a & w1 & E & Hp1).
  rewrite (bind_ok _ _ _ _ _ E). by apply Hk.
Qed.

Lemma serves_ret {A} runId (a : A) : serves runId (ret a).
Proof. intros w Hp. by exists a, w. Qed.

Lemma serves_update env runId s ec cc em :
  run_statements_ok env ->
  serves runId (CanonicalMemory.updateSubjectRunStatus env runId s ec cc em).
Proof.
  intros Hok w Hp.
  destruct (updateSubjectRunStatus_status env runId s ec cc em w Hok Hp)
    as (w' & E & Hs & _).
  exists tt, w'. eauto using has_status_present.
Qed.

Lemma serves_get env runId :
  run_statements_ok env ->
  serves runId (CanonicalMemory.getSubjectRun env runId).
Proof.
  intros Hok w Hp. rewrite getSubjectRun_ok by done. by eexists _, _.
Qed.

Lemma total_extractClaimsFromEvidence env evidence :
  total (SubjectOrchestrator.extractClaimsFromEvidence env evidence).
Proof.
  unfold SubjectOrchestrator.extractClaimsFromEvidence,
    SubjectOrchestrator.extract_one.
  total.
Qed.

Lemma steps_runs_extractClaimsFromEvidence env evidence :
  steps (same w_runs)
        (SubjectOrchestrator.extractClaimsFromEvidence env evidence).
Proof.
  unfold SubjectOrchestrator.extractClaimsFromEvidence,
    SubjectOrchestrator.extract_one, SubjectOrchestrator.push_claims,
    SubjectOrchestrator.new_claim.
  frame.
Qed.

Lemma total_upsertClaimsAndEvidence env claims evidence :
  total (SubjectOrchestrator.upsertClaimsAndEvidence env claims evidence).
Proof.
  unfold SubjectOrchestrator.upsertClaimsAndEvidence,
    SubjectOrchestrator.upsert_canonical, SubjectOrchestrator.upsert_vector.
  total.
Qed.

Lemma steps_runs_upsertClaimsAndEvidence env claims evidence :
  steps (same w_runs)
        (SubjectOrchestrator.upsertClaimsAndEvidence env claims evidence).
Proof.
  unfold SubjectOrchestrator.upsertClaimsAndEvidence,
    SubjectOrchestrator.upsert_canonical, SubjectOrchestrator.upsert_vector,
    VectorMemory.storeEvidence, VectorMemory.storeClaim.
  frame.
Qed.

(** The verify stage is a function of the model's replies: it returns the
    kept claims in order and changes nothing in the world. *)
Lemma verifyClaims_acc env claims :
  forall acc w,
    for_acc claims acc
      (fun claim verifiedClaims =>
         try_catch
           (verification <- ComplianceAgent.verifyClaim env claim ;;
            match verification with
            | None =>
                throw "Cannot read properties of null (reading 'approved')"
            | Some v =>
                if approved v then
                  match vr_policy_tags v with
                  | None =>
                      throw
                        "Cannot read properties of undefined (reading 'join')"
                  | Some tags =>
                      ret (verifiedClaims
                             ++ [set_policy_tags (join "," tags) claim])
                  end
                else ret verifiedClaims
            end)
           (fun _ => ret verifiedClaims)) w
    = (Ok (acc ++ omap (kept env) claims), w).
Proof.
  induction claims as [|claim claims IH]; intros acc w; simpl.
  { by rewrite app_nil_r. }
  match goal with
  | |- bind ?m _ w = _ =>
      assert (m w = (Ok (acc ++ option_list (kept env claim)), w)) as E
  end.
  { unfold kept, ComplianceAgent.verifyClaim, bind, try_catch, ret, throw.
    destruct (ai_verify env claim) as [st|msg| |v]; simpl;
      rewrite ?app_nil_r; try reflexivity.
    - destruct (ComplianceAgent.pushed_tags claim); simpl;
        by rewrite ?app_nil_r.
    - destruct (ComplianceAgent.pushed_tags claim) as [|t ts] eqn:Ept;
        destruct (approved v), (vr_policy_tags v) as [tags|]; simpl;
        rewrite ?app_nil_r; reflexivity. }
  rewrite (bind_ok _ _ _ _ _ E), IH.
  destruct (kept env claim); simpl; by rewrite <- ?app_assoc, ?app_nil_r.
Qed.

Lemma verifyClaims_kept env claims w :
  SubjectOrchestrator.verifyClaims env claims w
  = (Ok (omap (kept env) claims), w).
Proof. unfold SubjectOrchestrator.verifyClaims. by rewrite verifyClaims_acc. Qed.

Lemma stage_discover_serves env runId w :
  run_statements_ok env -> run_present runId w ->
  exists r w', SubjectOrchestrator.stage_discover env runId w = (Ok (Some r), w')
               /\ run_present runId w'.
Proof.
  intros Hok Hp. unfold SubjectOrchestrator.stage_discover,
    SubjectOrchestrator.updateRunStatus.
  destruct (serves_update env runId discover None None None Hok w Hp)
    as ([] & w1 & E1 & Hp1).
  rewrite (bind_ok _ _ _ _ _ E1).
  rewrite (bind_ok _ _ _ _ _ (getSubjectRun_ok env runId w1 Hok)).
  set (w2 := note_db _ _ _ _ _ w1).
  assert (Hp2 : run_present runId w2) by done.
  destruct (serves_update env runId fetch None None None Hok w2 Hp2)
    as ([] & w3 & E3 & Hp3).
  rewrite (bind_ok _ _ _ _ _ E3), getSubjectRun_ok by done.
  destruct Hp3 as [r Hr]. exists r. eexists. split; [by rewrite Hr|].
  by exists r.
Qed.

Lemma serves_gets {A} runId (g : World -> A) : serves runId (gets g).
Proof. intros w Hp. by eexists _, _. Qed.

Lemma serves_harvestEvidence env runId subject sources inputType maxApiCalls :
  serves runId
    (HarvesterAgent.harvestEvidence env subject sources inputType maxApiCalls).
Proof.
  apply serves_total_frame;
    [apply total_harvestEvidence
    |apply same_tables_runs, steps_tables_harvestEvidence].
Qed.

Lemma serves_extractClaimsFromEvidence env runId evidence :
  serves runId (SubjectOrchestrator.extractClaimsFromEvidence env evidence).
Proof.
  apply serves_total_frame;
    [apply total_extractClaimsFromEvidence
    |apply steps_runs_extractClaimsFromEvidence].
Qed.

Lemma serves_verifyClaims env runId claims :
  serves runId (SubjectOrchestrator.verifyClaims env claims).
Proof. intros w Hp. rewrite verifyClaims_kept. by eexists _, _. Qed.

Lemma serves_upsertClaimsAndEvidence env runId claims evidence :
  serves runId (SubjectOrchestrator.upsertClaimsAndEvidence env claims evidence).
Proof.
  apply serves_total_frame;
    [apply total_upsertClaimsAndEvidence
    |apply steps_runs_upsertClaimsAndEvidence].
Qed.

Ltac serves_step :=
  first [ apply serves_ret | apply serves_gets
        | apply serves_update; assumption
        | apply serves_get; assumption
        | apply serves_harvestEvidence
        | apply serves_extractClaimsFromEvidence
        | apply serves_verifyClaims
        | apply serves_upsertClaimsAndEvidence
        | apply serves_bind; [|intros ?] ].

Lemma stage_fetch_serves env runId r :
  run_statements_ok env ->
  serves runId (SubjectOrchestrator.stage_fetch env runId (Some r)).
Proof.
  intros Hok. unfold SubjectOrchestrator.stage_fetch,
    SubjectOrchestrator.subject_of, SubjectOrchestrator.harvestEvidence.
  repeat serves_step.
Qed.

Lemma stage_extract_serves env runId evidence :
  run_statements_ok env ->
  serves runId (SubjectOrchestrator.stage_extract env runId evidence).
Proof.
  intros Hok. unfold SubjectOrchestrator.stage_extract,
    SubjectOrchestrator.updateRunStatus.
  repeat serves_step.
Qed.

Lemma ends_in_bind {A B} runId s (m : M A) (k : A -> M B) :
  serves runId m -> (forall a, ends_in runId s (k a)) ->
  ends_in runId s (bind m k).
Proof.
  intros Hm Hk w Hp. destruct (Hm w Hp) as (a & w1 & E & Hp1).
  rewrite (bind_ok _ _ _ _ _ E). by apply Hk.
Qed.

Lemma ends_in_update env runId s ec cc em :
  run_statements_ok env ->
  ends_in runId s (CanonicalMemory.updateSubjectRunStatus env runId s ec cc em).
Proof.
  intros Hok w Hp.
  destruct (updateSubjectRunStatus_status env runId s ec cc em w Hok Hp)
    as (w' & E & Hs & _).
  by exists tt, w'.
Qed.

Lemma stage_finish_completes env runId claims evidence :
  run_statements_ok env ->
  ends_in runId completed
          (SubjectOrchestrator.stage_finish env runId claims evidence).
Proof.
  intros Hok. unfold SubjectOrchestrator.stage_finish,
    SubjectOrchestrator.updateRunStatus.
  repeat (apply ends_in_bind; [solve [repeat serves_step]|intros ?]).
  by apply ends_in_update.
Qed.

(** With D1 serving the run statements, a run that exists is driven to
    [completed], whatever the provider, the model and Vectorize answer and
    whichever inserts of evidence and claims D1 rejects. *)
Lemma run_stages_complete env runId :
  run_statements_ok env ->
  ends_in runId completed (SubjectOrchestrator.run_stages env runId).
Proof.
  intros Hok w Hp. unfold SubjectOrchestrator.run_stages.
  rewrite (bind_ok _ _ _ _ _ (getSubjectRun_ok env runId w Hok)).
  set (w1 := note_db _ _ _ _ _ w).
  assert (Hp1 : run_present runId w1) by done.
  destruct Hp as [r0 ->].
  destruct (stage_discover_serves env runId w1 Hok Hp1)
    as (r & w2 & E2 & Hp2).
  rewrite (bind_ok _ _ _ _ _ E2).
  revert w2 Hp2 E2. generalize w1. intros _ w2 Hp2 _. revert w2 Hp2.
  change (ends_in runId completed
            (evidence <- SubjectOrchestrator.stage_fetch env runId (Some r) ;;
             r1 <- SubjectOrchestrator.stage_extract env runId evidence ;;
             SubjectOrchestrator.stage_finish env runId r1.1 r1.2)).
  apply ends_in_bind; [by apply stage_fetch_serves|intros evidence].
  apply ends_in_bind; [by apply stage_extract_serves|intros r1].
  by apply stage_finish_completes.
Qed.

Lemma run_completes env runId w :
  run_statements_ok env -> run_present runId w ->
  exists w', SubjectOrchestrator.executeStateMachine env runId w = (Ok tt, w')
             /\ has_status runId completed w'.
Proof.
  intros Hok Hp. destruct (run_stages_complete env runId Hok w Hp)
    as ([] & w' & E & Hs).
  exists w'. split; [|done].
  unfold SubjectOrchestrator.executeStateMachine. by apply try_catch_ok.
Qed.

(** An exception that leaves the stages marks the run as failed, when D1
    takes that last write. *)
Lemma run_aborts env runId w e w1 :
  SubjectOrchestrator.run_stages env runId w = (Throw e, w1) ->
  db_fault env (w_db_ops w1) (UpdateRun runId error None None (Some e)) = None ->
  run_present runId w1 ->
  exists w' r, SubjectOrchestrator.executeStateMachine env runId w = (Ok tt, w')
               /\ w_runs w' !! runId = Some r
               /\ status r = error /\ error_message r = Some e.
Proof.
  intros E Hf [r Hr]. unfold SubjectOrchestrator.executeStateMachine.
  rewrite (try_catch_throw _ _ _ _ _ E).
  unfold CanonicalMemory.updateSubjectRunStatus, CanonicalMemory.d1_run.
  rewrite Hf. eexists _, _. split; [reflexivity|]. simpl.
  rewrite lookup_alter_eq, Hr. simpl. done.
Qed.

(** ** What the upsert stage writes, and in which order *)

Global Instance claims_grow_from_preorder cs : PreOrder (claims_grow_from cs).
Proof.
  split.
  - intros w. exists []. by rewrite app_nil_r.
  - intros w1 w2 w3 (l1 & E1 & F1) (l2 & E2 & F2). exists (l1 ++ l2).
    split; [by rewrite E2, E1, app_assoc | by apply Forall_app].
Qed.

Lemma steps_log_same {A} P (m : M A) :
  steps (same w_log) m -> steps (log_grows P) m.
Proof. intros H w. exists []. split; [apply H | constructor]. Qed.

Lemma steps_claims_same {A} cs (m : M A) :
  steps (same w_claims) m -> steps (claims_grow_from cs) m.
Proof.
  intros H w. exists []. split; [|constructor].
  rewrite app_nil_r. apply H.
Qed.

Lemma steps_log_randomUUID P : steps (log_grows P) randomUUID.
Proof. apply steps_log_same. by intros w. Qed.

Lemma steps_log_d1_run env op :
  steps (log_grows is_db_event) (CanonicalMemory.d1_run env op).
Proof.
  intros w. unfold CanonicalMemory.d1_run.
  destruct (db_fault env (w_db_ops w) op); [|destruct op]; simpl;
    (eexists [_]; split; [reflexivity|by repeat constructor]).
Qed.

Lemma steps_log_generateEmbedding env text :
  steps (log_grows is_vector_event) (VectorMemory.generateEmbedding env text).
Proof.
  intros w. unfold VectorMemory.generateEmbedding.
  destruct (ai_embed env _ _); simpl;
    (eexists [_]; split; [reflexivity|by repeat constructor]).
Qed.

Lemma steps_log_upsert env i v :
  steps (log_grows is_vector_event) (VectorMemory.upsert env i v).
Proof.
  intros w. unfold VectorMemory.upsert.
  destruct (vec_fault env _ _); simpl;
    (eexists [_]; split; [reflexivity|by repeat constructor]).
Qed.

#[global] Hint Resolve steps_log_randomUUID steps_log_d1_run
  steps_log_generateEmbedding steps_log_upsert : frame.

Lemma steps_claims_createEvidence env cs e :
  steps (claims_grow_from cs) (CanonicalMemory.createEvidence env e).
Proof.
  apply steps_claims_same. intros w.
  unfold CanonicalMemory.createEvidence, CanonicalMemory.d1_run, bind,
    randomUUID; simpl.
  by destruct (db_fault env _ _).
Qed.

Lemma steps_claims_createClaim env cs c :
  c ∈ cs -> steps (claims_grow_from cs) (CanonicalMemory.createClaim env c).
Proof.
  intros Hc w.
  unfold CanonicalMemory.createClaim, CanonicalMemory.d1_run, bind,
    randomUUID; simpl.
  destruct (db_fault env _ _); simpl.
  - exists []. by rewrite app_nil_r.
  - eexists [_]. split; [reflexivity|]. repeat constructor. eauto.
Qed.

(** The two halves of [upsertClaimsAndEvidence]. *)
Lemma upsert_canonical_spec env claims evidence :
  let m := SubjectOrchestrator.upsert_canonical env claims evidence in
  total m /\ steps (log_grows is_db_event) m
  /\ steps (claims_grow_from claims) m.
Proof.
  intros m. subst m. unfold SubjectOrchestrator.upsert_canonical.
  split; [total|]. split.
  - unfold CanonicalMemory.createEvidence, CanonicalMemory.createClaim. frame.
  - apply steps_bind; [apply _| |intros _].
    + apply steps_for_of; [apply _|]. intros ev.
      apply steps_try_catch; [apply _| |intros; by apply steps_ret, _].
      apply steps_bind; [apply _|apply steps_claims_createEvidence|].
      intros; by apply steps_ret, _.
    + apply steps_for_of_in; [apply _|]. intros c Hc.
      apply steps_try_catch; [apply _| |intros; by apply steps_ret, _].
      apply steps_bind; [apply _|by apply steps_claims_createClaim|].
      intros; by apply steps_ret, _.
Qed.

Lemma upsert_vector_spec env claims evidence :
  let m := SubjectOrchestrator.upsert_vector env claims evidence in
  total m /\ steps (log_grows is_vector_event) m /\ steps (same tables) m.
Proof.
  intros m. subst m. unfold SubjectOrchestrator.upsert_vector.
  split; [total|].
  unfold VectorMemory.storeEvidence, VectorMemory.storeClaim.
  split; frame.
Qed.

Lemma upsertClaimsAndEvidence_writes env claims evidence w :
  exists w' dbs vecs,
    SubjectOrchestrator.upsertClaimsAndEvidence env claims evidence w
    = (Ok tt, w')
    /\ w_log w' = vecs ++ dbs ++ w_log w
    /\ Forall is_db_event dbs /\ Forall is_vector_event vecs
    /\ claims_grow_from claims w w'.
Proof.
  destruct (upsert_canonical_spec env claims evidence) as (T1 & L1 & C1).
  destruct (upsert_vector_spec env claims evidence) as (T2 & L2 & F2).
  cbv zeta in *.
  destruct (T1 w) as ([] & w1 & E1).
  destruct (T2 w1) as ([] & w2 & E2).
  specialize (L1 w). specialize (C1 w). rewrite E1 in L1, C1.
  specialize (L2 w1). specialize (F2 w1). rewrite E2 in L2, F2.
  destruct L1 as (dbs & ED & FD). destruct L2 as (vecs & EV & FV).
  simpl in *.
  exists w2, dbs, vecs. split; [|split; [|split; [|split]]]; try done.
  - unfold SubjectOrchestrator.upsertClaimsAndEvidence.
    by rewrite (bind_ok _ _ _ _ _ E1).
  - by rewrite EV, ED.
  - destruct C1 as (l & El & Fl). exists l. split; [|done].
    unfold same, tables in F2. simplify_eq. congruence.
Qed.

(** ** The polling loop of the scraper client *)

Section Polling.
Import Scraper.
Context (env : Env).



(** One turn of the loop before the deadline. *)
Lemma pollLoop_step fuel snapshotId startTime attemptCount w r w' :
  (w_now w - startTime < maxWaitTime)%N ->
  pollOnce env snapshotId (S attemptCount) w = (Ok r, w') ->
  pollLoop env (S fuel) snapshotId startTime attemptCount w
  = match r with
    | Some res => (Ok res, w')
    | None => pollLoop env fuel snapshotId startTime (S attemptCount) w'
    end.
Proof.
  intros Hlt E. simpl. unfold bind at 1, Date_now, gets.
  apply N.ltb_lt in Hlt. rewrite Hlt.
  rewrite (bind_ok _ _ _ _ _ E). by destruct r.
Qed.

(** An iteration never throws, never moves the clock back, and waits a full
    interval whenever it does not return. *)
Lemma pollOnce_spec snapshotId attempt w :
  exists r w', pollOnce env snapshotId attempt w = (Ok r, w')
    /\ (w_now w <= w_now w')%N
    /\ (r = None -> (w_now w + checkInterval <= w_now w')%N).
Proof.
  unfold pollOnce, try_catch, checkSnapshot, fetch_snapshot, bind, sleep,
    modify, ret, throw.
  destruct (provider_poll env snapshotId attempt) as [latency [response|]];
    simpl.
  2: { eexists _, _; split; [reflexivity|]; simpl; split; [lia|intros _; lia]. }
  destruct (http_ok response); simpl.
  2: { eexists _, _; split; [reflexivity|]; simpl; split; [lia|intros _; lia]. }
  destruct (http_json response) as [body|]; simpl.
  2: { eexists _, _; split; [reflexivity|]; simpl; split; [lia|intros _; lia]. }
  destruct body; simpl;
    repeat match goal with
           | |- context [if ?c then _ else _] => destruct c; simpl
           end;
    eexists _, _; (split; [reflexivity|]); simpl;
    (split; [lia | intros; (discriminate || lia)]).
Qed.

(** Enough fuel: once [fuel] covers the intervals left before the deadline,
    the result of the loop does not depend on it. *)
Lemma pollLoop_fuel snapshotId startTime :
  forall fuel1 fuel2 attemptCount w,
    (startTime <= w_now w)%N ->
    (maxWaitTime <= w_now w - startTime + checkInterval * N.of_nat fuel1)%N ->
    (maxWaitTime <= w_now w - startTime + checkInterval * N.of_nat fuel2)%N ->
    pollLoop env fuel1 snapshotId startTime attemptCount w
    = pollLoop env fuel2 snapshotId startTime attemptCount w.
Proof.
  induction fuel1 as [|fuel1 IH]; intros fuel2 k w Hs H1 H2.
  - simpl. unfold bind, Date_now, gets.
    destruct (N.ltb_spec (w_now w - startTime) maxWaitTime) as [Hlt|Hge].
    + exfalso. simpl in H1. lia.
    + destruct fuel2; simpl; unfold bind, Date_now, gets;
        destruct (N.ltb_spec (w_now w - startTime) maxWaitTime); try lia;
        reflexivity.
  - destruct fuel2 as [|fuel2].
    + simpl. unfold bind at 1 3, Date_now, gets.
      destruct (N.ltb_spec (w_now w - startTime) maxWaitTime) as [Hlt|Hge].
      * exfalso. simpl in H2. lia.
      * reflexivity.
    + simpl. unfold bind at 1 3, Date_now, gets.
      destruct (N.ltb_spec (w_now w - startTime) maxWaitTime) as [Hlt|Hge];
        [|reflexivity].
      destruct (pollOnce_spec snapshotId (S k) w) as (r & w' & E & Hmono & Hw).
      rewrite !(bind_ok _ _ _ _ _ E).
      destruct r as [res|]; [reflexivity|].
      specialize (Hw eq_refl).
      apply IH; unfold checkInterval in *; lia.
Qed.

(** [waitForCompletion] returns: with the fuel it is given the loop never
    runs dry before the deadline. *)
Lemma waitForCompletion_fuel snapshotId extra w :
  waitForCompletion env snapshotId w
  = (startTime <- Date_now ;;
     sleep initialCheckDelay ;;;
     pollLoop env (31 + extra) snapshotId startTime 0) w.
Proof.
  unfold waitForCompletion, bind, Date_now, gets, sleep, modify.
  apply pollLoop_fuel; simpl; unfold maxWaitTime, checkInterval,
    initialCheckDelay; lia.
Qed.

End Polling.

Lemma run_statements_ok_inserts_fail :
  run_statements_ok Scenario.env_inserts_fail.
Proof. by intros n [] H. Qed.

Lemma run_statements_ok_direct : run_statements_ok Scenario.env_direct.
Proof. by intros n op H. Qed.

(** *** One write at a time *)

Lemma omap_rev_app {A B} (f : A -> option B) (l2 l1 : list A) :
  omap f (rev (l2 ++ l1)) = omap f (rev l1) ++ omap f (rev l2).
Proof. by rewrite rev_app_distr, omap_app. Qed.

(** One turn of the first loop: the insert of the record under a new id is
    sent to D1, and the row is in the table if D1 accepts it. *)
Lemma createEvidence_event env ev w :
  exists w' ok row,
    try_catch (CanonicalMemory.createEvidence env ev ;;; ret tt)
              (fun _ => ret tt) w = (Ok tt, w')
    /\ set_ev_id EmptyString row = set_ev_id EmptyString ev
    /\ w_log w' = [EDb (InsertEvidence row) ok] ++ w_log w
    /\ w_evidence w' = w_evidence w ++ (if ok then [row] else [])
    /\ w_claims w' = w_claims w.
Proof.
  unfold CanonicalMemory.createEvidence, CanonicalMemory.d1_run, try_catch,
    bind, randomUUID, ret. simpl.
  destruct (db_fault env _ _) as [message|]; simpl.
  - eexists _, false, (set_ev_id _ ev). rewrite app_nil_r.
    split; [reflexivity|]. split; [reflexivity|]. by split.
  - eexists _, true, (set_ev_id _ ev).
    split; [reflexivity|]. split; [reflexivity|]. by split.
Qed.

Lemma createClaim_event env c w :
  exists w' ok row,
    try_catch (CanonicalMemory.createClaim env c ;;; ret tt)
              (fun _ => ret tt) w = (Ok tt, w')
    /\ set_id EmptyString row = set_id EmptyString c
    /\ w_log w' = [EDb (InsertClaim row) ok] ++ w_log w
    /\ w_claims w' = w_claims w ++ (if ok then [row] else [])
    /\ w_evidence w' = w_evidence w.
Proof.
  unfold CanonicalMemory.createClaim, CanonicalMemory.d1_run, try_catch,
    bind, randomUUID, ret. simpl.
  destruct (db_fault env _ _) as [message|]; simpl.
  - eexists _, false, (set_id _ c). rewrite app_nil_r.
    split; [reflexivity|]. split; [reflexivity|]. by split.
  - eexists _, true, (set_id _ c).
    split; [reflexivity|]. split; [reflexivity|]. by split.
Qed.

Lemma evidence_loop_writes env evidence :
  forall w, exists w' dbs,
    for_of evidence
      (fun ev => try_catch (CanonicalMemory.createEvidence env ev ;;; ret tt)
                           (fun _ => ret tt)) w = (Ok tt, w')
    /\ w_log w' = dbs ++ w_log w
    /\ Forall is_db_event dbs
    /\ map without_id (issued dbs)
       = map (fun e => InsertEvidence (set_ev_id EmptyString e)) evidence
    /\ w_evidence w' = w_evidence w ++ evidence_rows (accepted dbs)
    /\ claim_rows (accepted dbs) = []
    /\ w_claims w' = w_claims w.
Proof.
  induction evidence as [|ev evidence IH]; intros w; simpl.
  - exists w, []. rewrite app_nil_r. by repeat split.
  - destruct (createEvidence_event env ev w)
      as (w1 & ok & row & E1 & Hrow & Hl1 & He1 & Hc1).
    rewrite (bind_ok _ _ _ _ _ E1).
    destruct (IH w1) as (w' & dbs & E & Hl & Hd & Hi & He & Hcr & Hc).
    exists w', (dbs ++ [EDb (InsertEvidence row) ok]). split; [done|].
    split; [by rewrite Hl, Hl1, app_assoc|].
    split; [apply Forall_app; split; [done|by repeat constructor]|].
    unfold issued, accepted in *. rewrite !omap_rev_app. simpl.
    split; [by rewrite Hi, Hrow|].
    split; [|split; [|congruence]].
    + rewrite He, He1, <- app_assoc. f_equal.
      unfold evidence_rows. rewrite omap_app. by destruct ok.
    + unfold claim_rows in *. rewrite omap_app, Hcr. by destruct ok.
Qed.

Lemma claim_loop_writes env claims :
  forall w, exists w' dbs,
    for_of claims
      (fun claim => try_catch (CanonicalMemory.createClaim env claim ;;; ret tt)
                              (fun _ => ret tt)) w = (Ok tt, w')
    /\ w_log w' = dbs ++ w_log w
    /\ Forall is_db_event dbs
    /\ map without_id (issued dbs)
       = map (fun c => InsertClaim (set_id EmptyString c)) claims
    /\ w_claims w' = w_claims w ++ claim_rows (accepted dbs)
    /\ evidence_rows (accepted dbs) = []
    /\ w_evidence w' = w_evidence w.
Proof.
  induction claims as [|c claims IH]; intros w; simpl.
  - exists w, []. rewrite app_nil_r. by repeat split.
  - destruct (createClaim_event env c w)
      as (w1 & ok & row & E1 & Hrow & Hl1 & Hc1 & He1).
    rewrite (bind_ok _ _ _ _ _ E1).
    destruct (IH w1) as (w' & dbs & E & Hl & Hd & Hi & Hc & Her & He).
    exists w', (dbs ++ [EDb (InsertClaim row) ok]). split; [done|].
    split; [by rewrite Hl, Hl1, app_assoc|].
    split; [apply Forall_app; split; [done|by repeat constructor]|].
    unfold issued, accepted in *. rewrite !omap_rev_app. simpl.
    split; [by rewrite Hi, Hrow|].
    split; [|split; [|congruence]].
    + rewrite Hc, Hc1, <- app_assoc. f_equal.
      unfold claim_rows. rewrite omap_app. by destruct ok.
    + unfold evidence_rows in *. rewrite omap_app, Her. by destruct ok.
Qed.

(** One turn of a Vectorize loop: an embedding is requested, and when it
    arrives the vector is sent under its id. *)
Lemma vector_event env text i w :
  exists w' evs,
    try_catch (embedding <- VectorMemory.generateEmbedding env text ;;
               VectorMemory.upsert env i embedding)
              (fun _ => ret tt) w = (Ok tt, w')
    /\ w_log w' = evs ++ w_log w
    /\ Forall is_vector_event evs
    /\ length (embed_requests evs) = 1
    /\ (vector_writes evs = [] \/ vector_writes evs = [i])
    /\ ((forall n t, is_Some (ai_embed env n t)) -> vector_writes evs = [i]).
Proof.
  unfold VectorMemory.generateEmbedding, VectorMemory.upsert, try_catch, bind,
    ret.
  destruct (ai_embed env _ _) as [values|] eqn:Ee; simpl.
  - destruct (vec_fault env _ _); simpl;
      (eexists _, [_; _]; split; [reflexivity|]; split; [reflexivity|];
       split; [by repeat constructor|]; split; [reflexivity|];
       split; [by right|done]).
  - eexists _, [_]. split; [reflexivity|]. split; [reflexivity|].
    split; [by repeat constructor|]. split; [reflexivity|].
    split; [by left|]. intros H. specialize (H (length (w_log w))
      (String.substring 0 5000 text)). rewrite Ee in H. by destruct H.
Qed.

Lemma vector_loop_writes {A} env (text vid : A -> string) (xs : list A) :
  forall w, exists w' vecs,
    for_of xs
      (fun x => try_catch
                  (embedding <- VectorMemory.generateEmbedding env (text x) ;;
                   VectorMemory.upsert env (vid x) embedding)
                  (fun _ => ret tt)) w = (Ok tt, w')
    /\ w_log w' = vecs ++ w_log w
    /\ Forall is_vector_event vecs
    /\ length (embed_requests vecs) = length xs
    /\ vector_writes vecs `sublist_of` map vid xs
    /\ ((forall n t, is_Some (ai_embed env n t)) ->
        vector_writes vecs = map vid xs).
Proof.
  induction xs as [|x xs IH]; intros w; simpl.
  - exists w, []. by repeat split.
  - destruct (vector_event env (text x) (vid x) w)
      as (w1 & evs1 & E1 & Hl1 & Hv1 & Hn1 & Hw1 & Hall1).
    rewrite (bind_ok _ _ _ _ _ E1).
    destruct (IH w1) as (w' & vecs & E & Hl & Hv & Hn & Hw & Hall).
    exists w', (vecs ++ evs1). split; [done|].
    split; [by rewrite Hl, Hl1, app_assoc|].
    split; [by apply Forall_app|].
    unfold embed_requests, vector_writes in *. rewrite !omap_rev_app.
    split; [rewrite length_app; lia|]. split.
    + destruct Hw1 as [->| ->]; simpl.
      * by apply sublist_cons.
      * by apply sublist_skip.
    + intros Ha. by rewrite (Hall1 Ha), (Hall Ha).
Qed.

(** The stage as a whole: D1 first, then Vectorize. *)
Lemma upsertClaimsAndEvidence_order env claims evidence w :
  exists w' dbs vecs,
    SubjectOrchestrator.upsertClaimsAndEvidence env claims evidence w
    = (Ok tt, w')
    /\ w_log w' = vecs ++ dbs ++ w_log w
    /\ Forall is_db_event dbs /\ Forall is_vector_event vecs
    /\ map without_id (issued dbs)
       = map (fun e => InsertEvidence (set_ev_id EmptyString e)) evidence
         ++ map (fun c => InsertClaim (set_id EmptyString c)) claims
    /\ w_evidence w' = w_evidence w ++ evidence_rows (accepted dbs)
    /\ w_claims w' = w_claims w ++ claim_rows (accepted dbs)
    /\ length (embed_requests vecs) = length evidence + length claims
    /\ vector_writes vecs `sublist_of` vector_ids_of evidence claims
    /\ ((forall n t, is_Some (ai_embed env n t)) ->
        vector_writes vecs = vector_ids_of evidence claims).
Proof.
  destruct (evidence_loop_writes env evidence w)
    as (w1 & d1 & E1 & Hl1 & Hd1 & Hi1 & He1 & Hcr1 & Hc1).
  destruct (claim_loop_writes env claims w1)
    as (w2 & d2 & E2 & Hl2 & Hd2 & Hi2 & Hc2 & Her2 & He2).
  destruct (vector_loop_writes env content_text
              (fun ev => "evidence_" +:+ ev_id ev) evidence w2)
    as (w3 & v3 & E3 & Hl3 & Hv3 & Hn3 & Hw3 & Ha3).
  destruct (vector_loop_writes env
              (fun c => predicate c +:+ " " +:+ object c)
              (fun c => "claim_" +:+ id c) claims w3)
    as (w4 & v4 & E4 & Hl4 & Hv4 & Hn4 & Hw4 & Ha4).
  assert (F3 : tables w3 = tables w2).
  { destruct (upsert_vector_spec env [] evidence) as (_ & _ & F).
    specialize (F w2). unfold SubjectOrchestrator.upsert_vector in F.
    simpl in F. unfold VectorMemory.storeEvidence in F.
    rewrite (bind_ok _ _ _ _ _ E3) in F. exact F. }
  assert (F4 : tables w4 = tables w3).
  { destruct (upsert_vector_spec env claims []) as (_ & _ & F).
    specialize (F w3). unfold SubjectOrchestrator.upsert_vector in F.
    simpl in F. unfold VectorMemory.storeClaim in F. exact (eq_trans
      (f_equal (fun r => tables r.2) (eq_sym E4)) F). }
  exists w4, (d2 ++ d1), (v4 ++ v3). split.
  { unfold SubjectOrchestrator.upsertClaimsAndEvidence,
      SubjectOrchestrator.upsert_canonical, SubjectOrchestrator.upsert_vector,
      VectorMemory.storeEvidence, VectorMemory.storeClaim.
    rewrite (bind_ok _ _ _ _ _ (eq_trans (bind_ok _ _ _ _ _ E1) E2)).
    rewrite (bind_ok _ _ _ _ _ E3). exact E4. }
  split; [by rewrite Hl4, Hl3, Hl2, Hl1, !app_assoc|].
  split; [by apply Forall_app|]. split; [by apply Forall_app|].
  unfold tables in F3, F4.
  unfold issued, accepted, embed_requests, vector_writes, vector_ids_of in *.
  rewrite !omap_rev_app.
  split; [by rewrite map_app, Hi1, Hi2|].
  split.
  { unfold evidence_rows in *. rewrite omap_app, Her2, app_nil_r.
    simplify_eq. congruence. }
  split.
  { unfold claim_rows in *. rewrite omap_app, Hcr1. simpl.
    simplify_eq. congruence. }
  split; [rewrite length_app; lia|].
  split; [by apply sublist_app|].
  intros Ha. by rewrite (Ha3 Ha), (Ha4 Ha).
Qed.

(** C1 (as amended). In the upsert stage evidence and approved claims are
    written to the canonical store first and only afterwards, best-effort, to
    the vector store: one insert is sent to D1 for every evidence record and
    then for every claim, each under a new id, and the rows that D1 accepts
    are in its tables; after these an embedding is requested for every
    record and claim, and the vector of each one whose embedding arrives is
    sent to Vectorize under [evidence_<id>] or [claim_<id>]. The stage never
    throws: a failure of Vectorize or of the embedding, and equally a failed
    insert of an evidence or claim row, is caught per item. So with D1
    serving the statements on the run row, no such failure transitions the
    run to [error]: it ends [completed]. Only an exception that leaves the
    stages (a failed status write or run read) marks the run as [error] with
    the message of the exception, and only if D1 takes that last write. *)
Theorem C1_upsert_order_and_failures (env : Env) :
  (forall claims evidence w,
      exists w' dbs vecs,
        SubjectOrchestrator.upsertClaimsAndEvidence env claims evidence w
        = (Ok tt, w')
        /\ w_log w' = vecs ++ dbs ++ w_log w
        /\ Forall is_db_event dbs /\ Forall is_vector_event vecs
        /\ map without_id (issued dbs)
           = map (fun e => InsertEvidence (set_ev_id EmptyString e)) evidence
             ++ map (fun c => InsertClaim (set_id EmptyString c)) claims
        /\ w_evidence w' = w_evidence w ++ evidence_rows (accepted dbs)
        /\ w_claims w' = w_claims w ++ claim_rows (accepted dbs)
        /\ length (embed_requests vecs) = length evidence + length claims
        /\ vector_writes vecs `sublist_of` vector_ids_of evidence claims
        /\ ((forall n t, is_Some (ai_embed env n t)) ->
            vector_writes vecs = vector_ids_of evidence claims))
  /\ (forall runId w,
         run_statements_ok env -> run_present runId w ->
         exists w',
           SubjectOrchestrator.executeStateMachine env runId w = (Ok tt, w')
           /\ has_status runId completed w')
  /\ (forall runId w e w1,
         SubjectOrchestrator.run_stages env runId w = (Throw e, w1) ->
         db_fault env (w_db_ops w1) (UpdateRun runId error None None (Some e))
         = None ->
         run_present runId w1 ->
         exists w' r,
           SubjectOrchestrator.executeStateMachine env runId w = (Ok tt, w')
           /\ w_runs w' !! runId = Some r
           /\ status r = error /\ error_message r = Some e).
Proof.
  split; [|split].
  - intros claims evidence w. apply upsertClaimsAndEvidence_order.
  - intros runId w. apply run_completes.
  - intros runId w e w1. apply run_aborts.
Qed.

(** The upsert of one evidence record and one claim on a fresh deployment;
    a run that completes although D1 rejects every insert; a run that is
    marked failed when D1 rejects the status write that enters [upsert]. *)
Lemma C1_witness :
  (exists w' dbs vecs,
      SubjectOrchestrator.upsertClaimsAndEvidence Scenario.env_direct
        [Scenario.alice_claim] [Scenario.alice_evidence] Scenario.world0
      = (Ok tt, w')
      /\ w_log w' = vecs ++ dbs ++ w_log Scenario.world0
      /\ Forall is_db_event dbs /\ Forall is_vector_event vecs
      /\ map without_id (issued dbs)
         = [InsertEvidence (set_ev_id EmptyString Scenario.alice_evidence);
            InsertClaim (set_id EmptyString Scenario.alice_claim)]
      /\ w_evidence w'
         = w_evidence Scenario.world0 ++ evidence_rows (accepted dbs)
      /\ w_claims w' = w_claims Scenario.world0 ++ claim_rows (accepted dbs)
      /\ length (embed_requests vecs) = 2
      /\ vector_writes vecs `sublist_of` ["evidence_evid_7"; "claim_claim_8"]
      /\ ((forall n t, is_Some (ai_embed Scenario.env_direct n t)) ->
          vector_writes vecs = ["evidence_evid_7"; "claim_claim_8"]))
  /\ (exists w',
         SubjectOrchestrator.executeStateMachine Scenario.env_inserts_fail
           "run_0"
           (Scenario.started Scenario.env_inserts_fail Scenario.alice_url
              linkedin 1)
         = (Ok tt, w')
         /\ has_status "run_0" completed w')
  /\ (exists w' r,
         SubjectOrchestrator.executeStateMachine
           Scenario.env_status_write_fails "run_0"
           (Scenario.started Scenario.env_status_write_fails
              Scenario.alice_url linkedin 1)
         = (Ok tt, w')
         /\ w_runs w' !! "run_0" = Some r
         /\ status r = error
         /\ error_message r = Some "D1_ERROR: update failed").
Proof.
  split; [|split].
  - apply (proj1 (C1_upsert_order_and_failures Scenario.env_direct)
             [Scenario.alice_claim] [Scenario.alice_evidence] Scenario.world0).
  - apply (proj1 (proj2 (C1_upsert_order_and_failures
                           Scenario.env_inserts_fail))).
    + exact run_statements_ok_inserts_fail.
    + vm_compute. eexists. reflexivity.
  - eapply (proj2 (proj2 (C1_upsert_order_and_failures
                            Scenario.env_status_write_fails))).
    + vm_compute. reflexivity.
    + reflexivity.
    + vm_compute. eexists. reflexivity.
Defined.

(** C1 as stated fails. The upsert sends the insert of the evidence record
    and the insert of the claim, D1 rejects both, and the upsert returns
    normally with nothing stored. In a whole run D1 rejects the insert of
    the extract stage and the insert of the upsert stage, and the run still
    ends [completed] with no error message. *)
Lemma C1_counterexample :
  let u := SubjectOrchestrator.upsertClaimsAndEvidence
             Scenario.env_inserts_fail [Scenario.alice_claim]
             [Scenario.alice_evidence] Scenario.world0 in
  let w := Scenario.after_run Scenario.env_inserts_fail Scenario.alice_url
             linkedin 1 in
  u.1 = Ok tt
  /\ map without_id (issued (w_log u.2))
     = [InsertEvidence (set_ev_id EmptyString Scenario.alice_evidence);
        InsertClaim (set_id EmptyString Scenario.alice_claim)]
  /\ accepted (w_log u.2) = []
  /\ w_evidence u.2 = [] /\ w_claims u.2 = []
  /\ existsb is_failed_insert (w_log w) = true
  /\ length (evidence_rows (issued (w_log w))) = 2
  /\ evidence_rows (accepted (w_log w)) = []
  /\ status <$> (w_runs w !! "run_0") = Some completed
  /\ error_message <$> (w_runs w !! "run_0") = Some None
  /\ w_evidence w = [] /\ w_claims w = [].
Proof. vm_compute. done. Qed.

(** A Vectorize failure leaves the run [completed], as C1 says. *)
Example vector_failure_is_absorbed :
  let w := Scenario.after_run Scenario.env_vector_fails Scenario.alice_url
             linkedin 1 in
  existsb is_failed_vector_write (w_log w) = true
  /\ status <$> (w_runs w !! "run_0") = Some completed
  /\ length (w_evidence w) = 2 /\ length (w_claims w) = 1.
Proof. vm_compute. done. Qed.

(** C3 at its failing input: after a direct profile run the stored claim
    names evidence [evid_1] in its provenance, and the evidence rows of the
    same subject are [evid_2] and [evid_4]. *)
Theorem C3_provenance_names_no_stored_evidence :
  let w := Scenario.after_run Scenario.env_direct Scenario.alice_url
             linkedin 1 in
  map provenance_json (w_claims w)
  = [JSON_stringify Scenario.env_direct
       (JObj [("source", JStr Scenario.alice_url);
              ("evidence_id", JStr "evid_1");
              ("extracted_at", JStr "15300")])]
  /\ map subject_id (w_claims w) = [Scenario.alice_url]
  /\ map ev_id (w_evidence w) = ["evid_2"; "evid_4"]
  /\ map ev_id (CanonicalMemory.getEvidenceBySubject_rows Scenario.alice_url w)
     = ["evid_2"; "evid_4"].
Proof. vm_compute. done. Qed.

(** ** A search query of one token *)

(** *** White space *)

Lemma space1_true a : space1 a = true -> nat_of_ascii a <= 32.
Proof.
  unfold space1. rewrite orb_true_iff, andb_true_iff, Nat.eqb_eq, !Nat.leb_le.
  lia.
Qed.

Lemma space2_true a b :
  space2 a b = true -> nat_of_ascii a = 194 /\ nat_of_ascii b = 160.
Proof. unfold space2. by rewrite andb_true_iff, !Nat.eqb_eq. Qed.

Lemma space3_true a b c :
  space3 a b c = true ->
  225 <= nat_of_ascii a
  /\ 128 <= nat_of_ascii b < 192 /\ 128 <= nat_of_ascii c < 192.
Proof.
  unfold space3.
  rewrite !orb_true_iff, !andb_true_iff, !orb_true_iff, !andb_true_iff,
    !Nat.eqb_eq, !Nat.leb_le.
  lia.
Qed.

(** The bytes of white space are single bytes up to U+0020 or bytes of a
    longer encoding: none of them is a printable ASCII character. *)
Ltac space_facts :=
  repeat match goal with
         | H : space1 _ = true |- _ => apply space1_true in H
         | H : space2 _ _ = true |- _ => apply space2_true in H
         | H : space3 _ _ _ = true |- _ => apply space3_true in H
         end.

(** The first byte of a white-space code point is not a continuation
    byte. *)
Lemma white_head s :
  is_white s = true ->
  exists a s', s = a :: s' /\ (nat_of_ascii a <= 32 \/ 192 <= nat_of_ascii a).
Proof.
  destruct s as [|a [|b [|c [|]]]]; simpl; try discriminate; intros H;
    exists a; eexists; (split; [reflexivity|]); space_facts; lia.
Qed.

Lemma blank_head post b l :
  blank post -> post = b :: l ->
  nat_of_ascii b <= 32 \/ 192 <= nat_of_ascii b.
Proof.
  intros Hb. revert b l. induction Hb as [|s p Hs _ _]; [done|].
  intros b l E. destruct (white_head s Hs) as (a & s' & -> & Ha).
  by simplify_eq/=.
Qed.

(** One white-space code point at the front, and at the end of the string
    read backwards. *)
Lemma skip_white s l :
  is_white s = true -> skip_space false (s ++ l) = skip_space false l.
Proof.
  destruct s as [|a [|b [|c [|]]]]; simpl; try discriminate; intros H.
  - by rewrite H.
  - assert (space1 a = false) as ->.
    { apply not_true_is_false. intros H1. space_facts. lia. }
    by rewrite H.
  - assert (space1 a = false) as ->.
    { apply not_true_is_false. intros H1. space_facts. lia. }
    assert (space2 a b = false) as ->.
    { apply not_true_is_false. intros H1. space_facts. lia. }
    by rewrite H.
Qed.

Lemma skip_white_back s l :
  is_white s = true -> skip_space true (rev s ++ l) = skip_space true l.
Proof.
  destruct s as [|a [|b [|c [|]]]]; simpl; try discriminate; intros H.
  - by rewrite H.
  - assert (space1 b = false) as ->.
    { apply not_true_is_false. intros H1. space_facts. lia. }
    by rewrite H.
  - assert (space1 c = false) as ->.
    { apply not_true_is_false. intros H1. space_facts. lia. }
    assert (space2 b c = false) as ->.
    { apply not_true_is_false. intros H1. space_facts. lia. }
    by rewrite H.
Qed.

Lemma skip_blank pre l :
  blank pre -> skip_space false (pre ++ l) = skip_space false l.
Proof.
  induction 1 as [|s p Hs _ IH]; [done|].
  by rewrite <- app_assoc, skip_white.
Qed.

Lemma skip_blank_back post :
  blank post -> forall l, skip_space true (rev post ++ l) = skip_space true l.
Proof.
  induction 1 as [|s p Hs _ IH]; intros l; [done|].
  by rewrite rev_app_distr, <- app_assoc, IH, skip_white_back.
Qed.

(** A token stays: nothing is skipped at its front, whatever white space
    follows, and nothing at its end. *)
Lemma skip_token t post :
  t <> [] ->
  (forall l1 s l2, t = l1 ++ s ++ l2 -> is_white s = false) ->
  blank post ->
  skip_space false (t ++ post) = t ++ post.
Proof.
  intros Hne Ht Hpost. destruct t as [|a t]; [done|].
  assert (H1 : space1 a = false) by exact (Ht [] [a] t eq_refl).
  assert (H2 : forall b rest, t ++ post = b :: rest -> space2 a b = false).
  { intros b rest E. destruct t as [|b' t].
    - apply not_true_is_false. intros H.
      pose proof (blank_head _ _ _ Hpost E). space_facts. lia.
    - simplify_eq/=. exact (Ht [] [a; b] t eq_refl). }
  assert (H3 : forall b c rest,
             t ++ post = b :: c :: rest -> space3 a b c = false).
  { intros b c rest E. destruct t as [|b' [|c' t]].
    - apply not_true_is_false. intros H.
      pose proof (blank_head _ _ _ Hpost E). space_facts. lia.
    - simplify_eq/=. apply not_true_is_false. intros H.
      pose proof (blank_head _ _ _ Hpost eq_refl). space_facts. lia.
    - simplify_eq/=. exact (Ht [] [a; b; c] t eq_refl). }
  change ((a :: t) ++ post) with (a :: (t ++ post)).
  destruct (t ++ post) as [|b [|c rest]] eqn:E; cbn [skip_space];
    rewrite H1, ?(H2 _ _ eq_refl), ?(H3 _ _ _ eq_refl); reflexivity.
Qed.

Lemma skip_token_back t :
  (forall l1 s l2, t = l1 ++ s ++ l2 -> is_white s = false) ->
  skip_space true (rev t) = rev t.
Proof.
  intros Ht.
  assert (Hr : t = rev (rev t)) by by rewrite rev_involutive.
  destruct (rev t) as [|z [|y [|x r]]]; [done| | |]; cbn [skip_space].
  - assert (space1 z = false) as -> by exact (Ht [] [z] [] Hr).
    reflexivity.
  - simpl in Hr.
    assert (space1 z = false) as -> by exact (Ht [y] [z] [] Hr).
    assert (space2 y z = false) as -> by exact (Ht [] [y; z] [] Hr).
    reflexivity.
  - assert (Hr' : t = rev r ++ [x; y; z]).
    { rewrite Hr. simpl. by rewrite <- !app_assoc. }
    assert (space1 z = false) as ->.
    { apply (Ht (rev r ++ [x; y]) [z] []). rewrite Hr'.
      by rewrite <- !app_assoc. }
    assert (space2 y z = false) as ->.
    { apply (Ht (rev r ++ [x]) [y; z] []). rewrite Hr'.
      by rewrite <- !app_assoc. }
    assert (space3 x y z = false) as ->.
    { apply (Ht (rev r) [x; y; z] []). rewrite Hr'. by rewrite app_nil_r. }
    reflexivity.
Qed.

Lemma trim_chars_token pre t post :
  blank pre -> blank post -> t <> [] ->
  (forall l1 s l2, t = l1 ++ s ++ l2 -> is_white s = false) ->
  trim_chars (pre ++ t ++ post) = t.
Proof.
  intros Hpre Hpost Hne Ht. unfold trim_chars, drop_space.
  rewrite skip_blank, skip_token by done.
  rewrite rev_app_distr, skip_blank_back, skip_token_back by done.
  apply rev_involutive.
Qed.

(** What is skipped is white space: a printable ASCII character stays. *)
Lemma skip_space_keeps backwards c :
  space1 c = false -> nat_of_ascii c < 128 ->
  forall l, c ∈ l -> c ∈ skip_space backwards l.
Proof.
  intros Hc Hlt l.
  induction l as [l IH] using (induction_ltof1 _ (@length ascii)).
  unfold ltof in IH.
  destruct l as [|a rest]; [done|]. intros Hin. cbn [skip_space].
  destruct (space1 a) eqn:Ha.
  { apply IH; [simpl; lia|].
    apply elem_of_cons in Hin as [->|Hin]; [congruence|done]. }
  destruct rest as [|b rest1]; [done|].
  destruct (if backwards then space2 b a else space2 a b) eqn:H2.
  { apply IH; [simpl; lia|].
    assert (128 <= nat_of_ascii a /\ 128 <= nat_of_ascii b) as [??]
      by (destruct backwards; space_facts; lia).
    apply elem_of_cons in Hin as [->|Hin]; [lia|].
    apply elem_of_cons in Hin as [->|Hin]; [lia|done]. }
  destruct rest1 as [|c' rest2]; [done|].
  destruct (if backwards then space3 c' b a else space3 a b c') eqn:H3;
    [|done].
  apply IH; [simpl; lia|].
  assert (128 <= nat_of_ascii a /\ 128 <= nat_of_ascii b
          /\ 128 <= nat_of_ascii c') as (? & ? & ?)
    by (destruct backwards; space_facts; lia).
  apply elem_of_cons in Hin as [->|Hin]; [lia|].
  apply elem_of_cons in Hin as [->|Hin]; [lia|].
  apply elem_of_cons in Hin as [->|Hin]; [lia|done].
Qed.

Lemma split_chars_token sep t :
  Forall (fun a => Ascii.eqb a sep = false) t -> split_chars sep t = [t].
Proof.
  induction 1 as [|a t Ha _ IH]; simpl; [done|]. by rewrite Ha, IH.
Qed.

Lemma single_token_parts q :
  single_token q -> exists t, split " " (trim q) = [t].
Proof.
  intros (pre & t & post & Eq & Hpre & Hpost & Hne & Ht).
  exists (string_of_list_ascii t). unfold split, trim.
  rewrite Eq, trim_chars_token by done.
  rewrite list_ascii_of_string_of_list_ascii, split_chars_token; [done|].
  apply Forall_forall. intros a Ha.
  apply list_elem_of_split in Ha as (l1 & l2 & E).
  destruct (Ascii.eqb_spec a " ") as [->|]; [|done].
  by specialize (Ht l1 [" "%char] l2 E).
Qed.

(** The profile search on such a query fails before its trigger request:
    the world is as before. *)
Lemma searchProfiles_single_token env q w :
  single_token q ->
  Scraper.searchProfiles env q w
  = (Ok {| Scraper.sr_success := false; Scraper.sr_data := None;
           Scraper.sr_error :=
             Some "Search query must contain at least first and last name";
           Scraper.sr_source := "linkedin-search";
           Scraper.sr_scrapedAt := toISOString env (w_now w);
           Scraper.sr_snapshotId := None |}, w).
Proof.
  intros (t & Et)%single_token_parts.
  unfold Scraper.searchProfiles. by rewrite Et.
Qed.

Lemma searchLinkedInProfilesTool_single_token env subject q w :
  single_token q ->
  exists message,
    HarvesterAgent.searchLinkedInProfilesTool env subject q w
    = (Ok (HarvesterAgent.ToolFail message), w).
Proof.
  intros Hq. unfold HarvesterAgent.searchLinkedInProfilesTool.
  eexists. apply try_catch_ok.
  rewrite (bind_ok _ _ _ _ _ (searchProfiles_single_token env q w Hq)).
  reflexivity.
Qed.

(** ** Counting trigger requests *)










(** ** The web search *)

(** [scrapeWebContent] calls a method that the scraper client does not
    have: it fails at once, and so does the web search of the harvester;
    nothing is sent and nothing changes. *)
Lemma scrapeWebContent_fails env url w :
  Scraper.scrapeWebContent env url w
  = (Ok {| Scraper.sr_success := false; Scraper.sr_data := None;
           Scraper.sr_error := Some "this.triggerScraping is not a function";
           Scraper.sr_source := url;
           Scraper.sr_scrapedAt := toISOString env (w_now w);
           Scraper.sr_snapshotId := None |}, w).
Proof. reflexivity. Qed.


(** ** How many trigger requests a harvest can send *)

Lemma bind_inv_ok {A B} (m : M A) (k : A -> M B) w b w' :
  bind m k w = (Ok b, w') ->
  exists a w1, m w = (Ok a, w1) /\ k a w1 = (Ok b, w').
Proof.
  unfold bind. destruct (m w) as [[a|e] w1]; [eauto|discriminate].
Qed.

Lemma try_catch_inv_ok {A} (m : M A) h w a w' :
  try_catch m h w = (Ok a, w') ->
  m w = (Ok a, w')
  \/ exists e w1, m w = (Throw e, w1) /\ h e w1 = (Ok a, w').
Proof.
  unfold try_catch. destruct (m w) as [[x|e] w1]; [by left|eauto].
Qed.

(** The [data] of a successful profile search is the summary object, and
    the summary has no [results]: the harvester finds no profile to scrape
    in it. *)
Lemma searchLinkedInProfilesTool_no_results env subject q w evidence d w' :
  HarvesterAgent.searchLinkedInProfilesTool env subject q w
  = (Ok (HarvesterAgent.ToolOk evidence d), w') ->
  d ≫= get_field "results" = None.
Proof.
  unfold HarvesterAgent.searchLinkedInProfilesTool.
  intros [H|(e & w1 & _ & H)]%try_catch_inv_ok; [|discriminate].
  apply bind_inv_ok in H as (sr & w1 & _ & H).
  destruct (negb _); [discriminate|].
  apply bind_inv_ok in H as (ev & w2 & _ & H).
  apply bind_inv_ok in H as (now & w3 & _ & H).
  unfold ret in H. by simplify_eq.
Qed.


(** ** The harvest for a query of one token *)

(** Neither the web search nor the profile search reaches the provider:
    the harvest returns no evidence and leaves the world as it is. *)
Lemma harvestEvidence_single_token env q sources maxApiCalls w :
  single_token q ->
  HarvesterAgent.harvestEvidence env q sources search maxApiCalls w
  = (Ok [], w).
Proof.
  intros Hq. unfold HarvesterAgent.harvestEvidence. cbv zeta.
  replace (bool_decide (search = linkedin)) with false by done.
  cbn [andb].
  assert (E1 : forall b : bool,
             (if b
              then try_catch
                     (searchResult <-
                        HarvesterAgent.searchWebTool env q q ;;
                      ret (HarvesterAgent.collect searchResult ([], 0%Z)))
                     (fun _ => ret ([], 0%Z))
              else ret ([], 0%Z)) w
             = (Ok (([], 0%Z) : HarvesterAgent.Locals), w)).
  { by intros []. }
  unfold bind at 1 2. rewrite E1. cbv beta iota.
  destruct (_ && _); [|reflexivity].
  destruct (searchLinkedInProfilesTool_single_token env q q w Hq)
    as (message & E).
  unfold try_catch, bind at 1. by rewrite E.
Qed.

(** C5 (as amended). [CreateEvidence] never looks up [(subject, hash)]:
    every call that D1 accepts appends one row, the record under an id
    generated for this call, and leaves the rows that exist as they are,
    whether or not one of them has the same subject and hash. *)
Theorem C5_createEvidence_appends (env : Env) (evidence : Evidence) (w : World) :
  let row := set_ev_id ("evid_" +:+ pretty (w_uuid w)) evidence in
  db_fault env (w_db_ops w) (InsertEvidence row) = None ->
  exists w',
    CanonicalMemory.createEvidence env evidence w = (Ok row, w')
    /\ w_evidence w' = w_evidence w ++ [row]
    /\ w_claims w' = w_claims w /\ w_runs w' = w_runs w.
Proof.
  intros row Hf.
  unfold CanonicalMemory.createEvidence, CanonicalMemory.d1_run, bind,
    randomUUID, ret; simpl.
  fold row. rewrite Hf. by eexists.
Qed.

(** The same evidence persisted a second time, on a table that holds it. *)
Lemma C5_witness :
  let w1 :=
    (CanonicalMemory.createEvidence Scenario.env_direct
       Scenario.alice_evidence Scenario.world0).2 in
  exists w',
    CanonicalMemory.createEvidence Scenario.env_direct
      Scenario.alice_evidence w1
    = (Ok (set_ev_id "evid_1" Scenario.alice_evidence), w')
    /\ w_evidence w'
       = w_evidence w1 ++ [set_ev_id "evid_1" Scenario.alice_evidence]
    /\ w_claims w' = w_claims w1 /\ w_runs w' = w_runs w1.
Proof.
  intros w1.
  apply (C5_createEvidence_appends Scenario.env_direct Scenario.alice_evidence
           w1).
  reflexivity.
Defined.

(** C5 as stated fails: persisting an evidence and then the same evidence
    with its extraction gives two rows with one subject and one hash; the
    first row is not updated. *)
Lemma C5_counterexample :
  let w :=
    ((CanonicalMemory.createEvidence Scenario.env_direct
        Scenario.alice_evidence ;;;
      CanonicalMemory.createEvidence Scenario.env_direct
        (set_extraction (Some Scenario.alice_extraction)
                        Scenario.alice_evidence)) Scenario.world0).2 in
  map ev_id (w_evidence w) = ["evid_0"; "evid_1"]
  /\ map ev_subject_id (w_evidence w)
     = [Scenario.alice_url; Scenario.alice_url]
  /\ map hash (w_evidence w) = ["sha256:{}"; "sha256:{}"]
  /\ map extraction (w_evidence w) = [None; Some Scenario.alice_extraction].
Proof. vm_compute. done. Qed.

(** A kept claim is the claim it was made from, but for its tags. *)
Lemma kept_erased env c c' :
  kept env c = Some c' -> set_policy_tags "" c' = set_policy_tags "" c.
Proof.
  unfold kept. intros H. repeat case_match; by simplify_eq.
Qed.

Lemma kept_sublist env claims :
  map (set_policy_tags "") (omap (kept env) claims)
  `sublist_of` map (set_policy_tags "") claims.
Proof.
  induction claims as [|c claims IH]; simpl; [constructor|].
  destruct (kept env c) as [c'|] eqn:E; simpl.
  - rewrite (kept_erased _ _ _ E). by constructor.
  - by constructor.
Qed.

(** [verifyClaim] returns, and [kept] reads off its result. *)
Lemma verifyClaim_result env c w :
  exists r,
    ComplianceAgent.verifyClaim env c w = (Ok r, w)
    /\ kept env c
       = match r with
         | Some v =>
             if approved v
             then (fun tags => set_policy_tags (join "," tags) c)
                    <$> vr_policy_tags v
             else None
         | None => None
         end.
Proof.
  unfold kept, ComplianceAgent.verifyClaim, try_catch, ret, throw.
  destruct (ai_verify env c) as [st|msg| |v]; simpl; eauto.
  - destruct (ComplianceAgent.pushed_tags c); eauto.
  - destruct (ComplianceAgent.pushed_tags c) as [|t ts] eqn:Ept.
    + exists (Some v). split; [reflexivity|].
      destruct (approved v), (vr_policy_tags v); simpl;
        by rewrite ?app_nil_r.
    + destruct (vr_policy_tags v) as [tags|] eqn:Et; simpl.
      * eexists (Some _). split; [reflexivity|]. simpl.
        by destruct (approved v).
      * eexists (Some _). split; [reflexivity|]. simpl.
        by destruct (approved v).
Qed.

(** C6 (as amended). The tags of a stored claim are the tags of the model's
    reply that approved it, followed by the tags [verifyClaim] pushes:
    [source:linkedin_scraping] when the provenance contains [linkedin://],
    [consent:public_data] when it names a public source, [sensitive:pii]
    when the claim is sensitive. The code derives no [verified:] tag from
    the confidence; the tag string has one only if the model's reply does,
    and it may be empty. *)
Theorem C6_policy_tags_of_stored_claims
    (env : Env) (claims : list Claim) (evidence : list Evidence) (w : World) :
  exists verifiedClaims w' rows,
    SubjectOrchestrator.verifyClaims env claims w = (Ok verifiedClaims, w)
    /\ SubjectOrchestrator.upsertClaimsAndEvidence env verifiedClaims evidence w
       = (Ok tt, w')
    /\ w_claims w' = w_claims w ++ rows
    /\ Forall (fun row =>
                 exists c v tags,
                   c ∈ claims
                   /\ ai_verify env c = AiParsed v
                   /\ approved v = true
                   /\ vr_policy_tags v = Some tags
                   /\ policy_tags row
                      = join "," (tags ++ ComplianceAgent.pushed_tags c)) rows.
Proof.
  destruct (upsertClaimsAndEvidence_writes env (omap (kept env) claims)
              evidence w) as (w' & _ & _ & E & _ & _ & _ & rows & Er & Fr).
  exists (omap (kept env) claims), w', rows.
  split; [apply verifyClaims_kept|]. split; [done|]. split; [done|].
  eapply Forall_impl; [exact Fr|]. simpl.
  intros row (c' & i & Hc' & ->).
  apply list_elem_of_omap in Hc' as (c & Hc & Hk).
  unfold kept in Hk.
  destruct (ai_verify env c) as [| | |v] eqn:Ev; try discriminate.
  destruct (approved v) eqn:Ea; [|discriminate].
  destruct (vr_policy_tags v) as [tags|] eqn:Et; [|discriminate].
  simplify_eq. by exists c, v, tags.
Qed.

(** C6 as stated fails: the claim stored by a direct profile run has no
    tags at all. *)
Lemma C6_counterexample :
  let w := Scenario.after_run Scenario.env_direct Scenario.alice_url
             linkedin 1 in
  map policy_tags (w_claims w) = [""]
  /\ map predicate (w_claims w) = ["works_at"].
Proof. vm_compute. done. Qed.

Lemma bind_gets {A B} (g : World -> A) (k : A -> M B) w :
  bind (gets g) k w = k (g w) w.
Proof. reflexivity. Qed.

Lemma bind_ret {A B} (a : A) (k : A -> M B) w : bind (ret a) k w = k a w.
Proof. reflexivity. Qed.

Lemma steps_artifacts_update env runId s ec cc em :
  steps (same artifacts)
        (CanonicalMemory.updateSubjectRunStatus env runId s ec cc em).
Proof.
  intros w. unfold CanonicalMemory.updateSubjectRunStatus,
    CanonicalMemory.d1_run.
  by destruct (db_fault env _ _).
Qed.

Lemma steps_artifacts_getSubjectRun env runId :
  steps (same artifacts) (CanonicalMemory.getSubjectRun env runId).
Proof.
  intros w. unfold CanonicalMemory.getSubjectRun, CanonicalMemory.d1_run,
    bind.
  by destruct (db_fault env _ _).
Qed.

#[global] Hint Resolve steps_artifacts_update steps_artifacts_getSubjectRun
  : frame.

(** INTAKE and DISCOVER with D1 serving the run statements: the run that
    enters the fetch stage is the row of the run as it was, but for its
    status and the time of its update; nothing else has changed. *)
Lemma stage_discover_spec env runId r0 w :
  run_statements_ok env -> w_runs w !! runId = Some r0 ->
  exists r1 w1,
    SubjectOrchestrator.stage_discover env runId w = (Ok (Some r1), w1)
    /\ w_runs w1 !! runId = Some r1
    /\ subject_name r1 = subject_name r0
    /\ storage w1 = storage w /\ w_triggers w1 = w_triggers w
    /\ artifacts w1 = artifacts w.
Proof.
  intros Hok Hr.
  unfold SubjectOrchestrator.stage_discover, SubjectOrchestrator.updateRunStatus.
  rewrite (bind_ok _ _ _ _ _
             (updateSubjectRunStatus_ok env runId discover None None None w
                Hok)).
  rewrite (bind_ok _ _ _ _ _ (getSubjectRun_ok env runId _ Hok)).
  rewrite (bind_ok _ _ _ _ _
             (updateSubjectRunStatus_ok env runId fetch None None None _ Hok)).
  rewrite getSubjectRun_ok by done.
  match goal with
  | |- context [Ok (w_runs ?w3 !! runId)] =>
      assert (Hl : exists r1, w_runs w3 !! runId = Some r1
                              /\ subject_name r1 = subject_name r0)
  end.
  { simpl. rewrite !lookup_alter_eq, Hr. simpl. eauto. }
  destruct Hl as (r1 & Hl & Hs). rewrite Hl.
  exists r1. eexists. split; [reflexivity|]. by repeat split.
Qed.

(** C7 (as amended). When the orchestrator has advanced a run out of the
    fetch stage into [normalize], the evidence count of the run is the number
    of records that the Harvester returned, also when there are none: the
    Harvester was called once, for the subject of the run, with the input
    type and the budget of the storage, when the run had entered [fetch].
    The fetch stage itself writes no evidence: the evidence and claims that
    D1 holds are those it held before the run. (Evidence is persisted later,
    by the extract and upsert stages.) *)
Theorem C7_fetch_updates_count_only
    (env : Env) (runId : string) (r0 : SubjectRun) (w : World) :
  run_statements_ok env ->
  w_runs w !! runId = Some r0 ->
  let entered_fetch := (SubjectOrchestrator.stage_discover env runId w).2 in
  let inputType := default search (w_inputType w) in
  let maxApiCalls := match w_maxApiCalls w with
                     | Some m => if (m =? 0)%Z then 5%Z else m
                     | None => 5%Z
                     end in
  exists evidence harvested_at w',
    HarvesterAgent.harvestEvidence env (subject_name r0) ["web"; "linkedin"]
      inputType maxApiCalls entered_fetch
    = (Ok evidence, harvested_at)
    /\ (run <- SubjectOrchestrator.stage_discover env runId ;;
        SubjectOrchestrator.stage_fetch env runId run) w
       = (Ok evidence, w')
    /\ (exists r, w_runs w' !! runId = Some r
                  /\ status r = normalize
                  /\ evidence_count r = Z.of_nat (length evidence))
    /\ w_evidence w' = w_evidence w
    /\ w_claims w' = w_claims w.
Proof.
  intros Hok Hr entered_fetch inputType maxApiCalls.
  destruct (stage_discover_spec env runId r0 w Hok Hr)
    as (r1 & w1 & E1 & Hr1 & Hsub & Hst & _ & A1).
  subst entered_fetch. rewrite E1. cbn [snd].
  unfold storage in Hst. unfold artifacts in A1.
  destruct (total_harvestEvidence env (subject_name r0) ["web"; "linkedin"]
              inputType maxApiCalls w1) as (evidence & w2 & E2).
  pose proof (steps_tables_harvestEvidence env (subject_name r0)
                ["web"; "linkedin"] inputType maxApiCalls w1) as T2.
  rewrite E2 in T2. unfold same, tables in T2. simpl in T2.
  exists evidence, w2. eexists. split; [exact E2|].
  rewrite (bind_ok _ _ _ _ _ E1).
  unfold SubjectOrchestrator.stage_fetch, SubjectOrchestrator.subject_of,
    SubjectOrchestrator.harvestEvidence.
  rewrite !bind_gets, bind_ret.
  injection Hst as Hit Hmax. rewrite Hit, Hmax. fold inputType maxApiCalls.
  rewrite Hsub, (bind_ok _ _ _ _ _ E2).
  rewrite (bind_ok _ _ _ _ _
             (updateSubjectRunStatus_ok env runId normalize _ _ _ w2 Hok)).
  rewrite (bind_ok _ _ _ _ _ (getSubjectRun_ok env runId _ Hok)).
  split; [reflexivity|]. simpl.
  split; [|split; simplify_eq; congruence].
  eexists. rewrite lookup_alter_eq.
  replace (w_runs w2) with (w_runs w1) by congruence.
  rewrite Hr1. simpl. done.
Qed.

(** A direct profile run at the moment it enters [normalize]. *)
Lemma C7_witness :
  let w := Scenario.started Scenario.env_direct Scenario.alice_url linkedin 1 in
  exists evidence harvested_at w',
    HarvesterAgent.harvestEvidence Scenario.env_direct Scenario.alice_url
      ["web"; "linkedin"] linkedin 1
      (SubjectOrchestrator.stage_discover Scenario.env_direct "run_0" w).2
    = (Ok evidence, harvested_at)
    /\ Scenario.entered_normalize Scenario.env_direct Scenario.alice_url
         linkedin 1
       = (Ok evidence, w')
    /\ (exists r, w_runs w' !! "run_0" = Some r
                  /\ status r = normalize
                  /\ evidence_count r = Z.of_nat (length evidence))
    /\ w_evidence w' = []
    /\ w_claims w' = [].
Proof.
  intros w.
  apply (C7_fetch_updates_count_only Scenario.env_direct "run_0"
           {| run_id := "run_0"; subject_name := Scenario.alice_url;
              user_id := "web-scraping-user"; status := intake;
              evidence_count := 0; claims_count := 0;
              created_at := "sql:0"; updated_at := "sql:0";
              error_message := None |} w).
  - exact run_statements_ok_direct.
  - vm_compute. reflexivity.
Defined.

(** C7 as stated fails: the run has entered [normalize] with an evidence
    count of 1, the Harvester returned one record, and D1 holds no
    evidence. *)
Lemma C7_counterexample :
  let r := Scenario.entered_normalize Scenario.env_direct Scenario.alice_url
             linkedin 1 in
  (match r.1 with Ok evidence => map ev_id evidence | Throw _ => [] end)
  = ["evid_1"]
  /\ status <$> (w_runs r.2 !! "run_0") = Some normalize
  /\ evidence_count <$> (w_runs r.2 !! "run_0") = Some 1%Z
  /\ w_evidence r.2 = [].
Proof. vm_compute. done. Qed.

(** C8 (as amended). The completeness score is the sum of the weights of
    the sections that are present, 0.2 (about), 0.3 (experience), 0.2
    (education), 0.15 (followers), 0.15 (connections), computed in binary64
    and capped at 1: it lies in [0, 1] and is the exact sum of hundredths up
    to rounding. The profile strength compares it strictly: [Strong] above
    0.8, [Good] above 0.6, [Moderate] above 0.4 and [Weak] otherwise, so a
    score of exactly 0.8, 0.6 or 0.4 gets the lower grade. *)
Theorem C8_completeness_and_strength
    (p : SubjectOrchestrator.LinkedInProfileData) :
  let score := SubjectOrchestrator.completenessScore p in
  let points := completeness_points p in
  PrimFloat.leb 0%float score = true
  /\ PrimFloat.leb score 1%float = true
  /\ PrimFloat.ltb
       (PrimFloat.abs (score * 100 - num_of_nat points)%float)
       0.000000001%float = true
  /\ SubjectOrchestrator.profileStrength score
     = if (80 <? points)%nat then SubjectOrchestrator.Strong
       else if (60 <? points)%nat then SubjectOrchestrator.Good
       else if (40 <? points)%nat then SubjectOrchestrator.Moderate
       else SubjectOrchestrator.Weak.
Proof.
  unfold SubjectOrchestrator.completenessScore, completeness_points.
  destruct (SubjectOrchestrator.present _),
    (SubjectOrchestrator.nonempty (SubjectOrchestrator.experience p)),
    (SubjectOrchestrator.nonempty (SubjectOrchestrator.education p)),
    (SubjectOrchestrator.gt0 (SubjectOrchestrator.followers p)),
    (SubjectOrchestrator.gt0 (SubjectOrchestrator.connections p));
    vm_compute; done.
Qed.

(** C8 as stated fails: with an about text and one school the score is
    exactly 0.4; that is [Moderate] by the thresholds of the claim, and the
    code answers [Weak]. *)
Lemma C8_counterexample :
  let score :=
    SubjectOrchestrator.completenessScore Scenario.about_and_education in
  score = 0.4%float
  /\ profileStrength_at_least score = SubjectOrchestrator.Moderate
  /\ SubjectOrchestrator.profileStrength score = SubjectOrchestrator.Weak.
Proof. vm_compute. done. Qed.

(** C10. The verify stage returns, without an exception and without a
    change to the world, a subsequence of its input: the claims that
    [verifyClaim] approves with a tag list, in their order, each equal to
    its input in every field but [policy_tags], which becomes the joined
    tags. A claim that is rejected, or whose verification fails, is left
    out; [verifyClaim] itself never throws. *)
Theorem C10_verify_stage_frame (env : Env) (claims : list Claim) (w : World) :
  SubjectOrchestrator.verifyClaims env claims w
  = (Ok (omap (kept env) claims), w)
  /\ map (set_policy_tags "") (omap (kept env) claims)
     `sublist_of` map (set_policy_tags "") claims
  /\ (forall c c',
         kept env c = Some c' ->
         id c' = id c /\ subject_id c' = subject_id c
         /\ predicate c' = predicate c /\ object c' = object c
         /\ confidence c' = confidence c
         /\ first_seen_at c' = first_seen_at c
         /\ last_verified_at c' = last_verified_at c
         /\ provenance_json c' = provenance_json c)
  /\ (forall c,
         exists r,
           ComplianceAgent.verifyClaim env c w = (Ok r, w)
           /\ kept env c
              = match r with
                | Some v =>
                    if approved v
                    then (fun tags => set_policy_tags (join "," tags) c)
                           <$> vr_policy_tags v
                    else None
                | None => None
                end).
Proof.
  split; [apply verifyClaims_kept|].
  split; [apply kept_sublist|].
  split; [|intros c; apply verifyClaim_result].
  intros c c' Hk. apply kept_erased in Hk.
  destruct c, c'. by simplify_eq/=.
Qed.



(** The whole wait on that provider: 15 s, a pending check, 30 s, done. *)
Example waitForCompletion_empty_then_array :
  Scraper.waitForCompletion Scenario.env_poll "snap_1" Scenario.world0
  = (Ok {| Scraper.success := true; Scraper.data := Some (JArr []);
           Scraper.wait_error := None |},
     set_now 45400 Scenario.world0).
Proof. vm_compute. reflexivity. Qed.

(** * The scraper client *)

(** ** Results *)

Lemma yields_ret {A} (P : A -> Prop) a : P a -> yields P (ret a).
Proof. intros H w a' w' E. unfold ret in E. by simplify_eq. Qed.

Lemma yields_throw {A} (P : A -> Prop) e : yields P (throw e).
Proof. intros w a w' E. discriminate. Qed.

Lemma yields_bind {A B} (P : B -> Prop) (m : M A) (k : A -> M B) :
  (forall a, yields P (k a)) -> yields P (bind m k).
Proof.
  intros Hk w b w' (a & w1 & _ & E)%bind_inv_ok. by eapply Hk.
Qed.

Lemma yields_bind_with {A B} (Q : A -> Prop) (P : B -> Prop) (m : M A)
    (k : A -> M B) :
  yields Q m -> (forall a, Q a -> yields P (k a)) -> yields P (bind m k).
Proof.
  intros Hm Hk w b w' (a & w1 & E1 & E)%bind_inv_ok.
  eapply Hk; [by eapply Hm|done].
Qed.

Lemma yields_try_catch {A} (P : A -> Prop) (m : M A) h :
  yields P m -> (forall e, yields P (h e)) -> yields P (try_catch m h).
Proof.
  intros Hm Hh w a w' [E|(e & w1 & _ & E)]%try_catch_inv_ok.
  - by eapply Hm.
  - by eapply Hh.
Qed.

Lemma yields_impl {A} (P Q : A -> Prop) (m : M A) :
  (forall a, P a -> Q a) -> yields P m -> yields Q m.
Proof. intros HPQ Hm w a w' E. eapply HPQ, Hm, E. Qed.

Global Instance durable_timeless : Timeless durable.
Proof. by split. Qed.

Global Instance log_timeless : Timeless w_log.
Proof. by split. Qed.

(** What the durable part of the world determines. *)
Lemma durable_inv w w' :
  durable w' = durable w ->
  w_log w' = w_log w /\ w_triggers w' = w_triggers w /\ tables w' = tables w.
Proof.
  unfold durable, tables. destruct w, w'. simpl. intros H.
  by simplify_eq.
Qed.

Lemma truthy_js_or v d : truthy (Some d) = true -> truthy (Some (js_or v d)) = true.
Proof. intros Hd. unfold js_or. destruct v as [x|]; [|done]. by case_eq (truthy (Some x)). Qed.

Lemma set_now_id w : set_now (w_now w) w = w.
Proof. by destruct w. Qed.

(** ** Polling *)

Section PollingResults.
Import Scraper.
Context (env : Env).

Lemma pollOnce_inconclusive snapshotId attempt latency r w :
  provider_poll env snapshotId attempt = (latency, r) ->
  inconclusive r ->
  pollOnce env snapshotId attempt w
  = (Ok None, set_now (w_now w + latency + checkInterval)%N w).
Proof.
  intros Hp Hr.
  unfold pollOnce, try_catch, checkSnapshot, fetch_snapshot, bind.
  rewrite Hp. destruct r as [response|]; simpl; [|reflexivity].
  destruct Hr as [H|[H|[H|(body & st & Hb & Hs & Ht & Hc & Hf)]]].
  - by rewrite H.
  - destruct (http_ok response); simpl; [|done]. by rewrite H.
  - destruct (http_ok response); simpl; [|done]. by rewrite H.
  - destruct (http_ok response); simpl; [|done]. rewrite Hb.
    destruct body; try discriminate. simpl in Hs. simpl. rewrite Hs, Ht.
    assert (is_str "completed" (Some st) = false) as ->.
    { destruct st; try done. simpl.
      destruct (String.eqb_spec s "completed"); congruence. }
    assert (is_str "failed" (Some st) = false) as ->.
    { destruct st; try done. simpl.
      destruct (String.eqb_spec s "failed"); congruence. }
    reflexivity.
Qed.

(** An iteration returns a well-formed result or waits a full interval; it
    never throws and changes nothing but the clock. *)
Lemma pollOnce_result snapshotId attempt w :
  exists r t,
    pollOnce env snapshotId attempt w = (Ok r, set_now t w)
    /\ (w_now w <= t)%N
    /\ match r with
       | Some res => well_formed_wait res
       | None => (w_now w + checkInterval <= t)%N
       end.
Proof.
  unfold pollOnce, try_catch, checkSnapshot, fetch_snapshot, bind, sleep,
    modify, ret, throw.
  destruct (provider_poll env snapshotId attempt) as [latency [response|]];
    simpl.
  2: { eexists None, _; split; [reflexivity|]; simpl; lia. }
  destruct (http_ok response); simpl.
  2: { eexists None, _; split; [reflexivity|]; simpl; lia. }
  destruct (http_json response) as [body|]; simpl.
  2: { eexists None, _; split; [reflexivity|]; simpl; lia. }
  destruct body; simpl;
    repeat match goal with
           | |- context [if ?c then _ else _] => destruct c eqn:?; simpl
           end;
    try (eexists None, _; split; [reflexivity|]; simpl; lia);
    try (eexists (Some _), _; split; [reflexivity|]; simpl;
         split; [lia|]; unfold well_formed_wait; simpl;
         first [reflexivity | split; [reflexivity|by apply truthy_js_or]]).
Qed.

Lemma pollLoop_result snapshotId startTime :
  forall fuel attemptCount w,
    exists r t,
      pollLoop env fuel snapshotId startTime attemptCount w
      = (Ok r, set_now t w)
      /\ (w_now w <= t)%N /\ well_formed_wait r.
Proof.
  induction fuel as [|fuel IH]; intros k w; simpl;
    unfold bind at 1, Date_now, gets.
  - exists timed_out, (w_now w). rewrite set_now_id.
    split; [by destruct (_ <? _)%N|]. split; [lia|]. by split.
  - destruct (_ <? _)%N.
    2: { exists timed_out, (w_now w). rewrite set_now_id.
         split; [done|]. split; [lia|]. by split. }
    destruct (pollOnce_result snapshotId (S k) w) as (r & t & E & Ht & Hr).
    rewrite (bind_ok _ _ _ _ _ E). destruct r as [res|].
    + by exists res, t.
    + destruct (IH (S k) (set_now t w)) as (r & t' & E' & Ht' & Hr').
      exists r, t'. split; [exact E'|]. split; [|done]. simpl in Ht'. lia.
Qed.

Lemma pollLoop_times_out snapshotId startTime :
  (forall attempt, inconclusive (provider_poll env snapshotId attempt).2) ->
  forall fuel attemptCount w,
    (startTime <= w_now w)%N ->
    (maxWaitTime <= w_now w - startTime + checkInterval * N.of_nat fuel)%N ->
    exists t,
      pollLoop env fuel snapshotId startTime attemptCount w
      = (Ok timed_out, set_now t w)
      /\ (startTime + maxWaitTime <= t)%N.
Proof.
  intros Hall. induction fuel as [|fuel IH]; intros k w Hs Hf; simpl;
    unfold bind at 1, Date_now, gets.
  - exists (w_now w). rewrite set_now_id.
    split; [by destruct (_ <? _)%N|]. lia.
  - destruct (N.ltb_spec (w_now w - startTime) maxWaitTime) as [Hlt|Hge].
    2: { exists (w_now w). rewrite set_now_id. split; [done|]. lia. }
    specialize (Hall (S k)).
    destruct (provider_poll env snapshotId (S k)) as [latency r] eqn:Hp.
    rewrite (bind_ok _ _ _ _ _
               (pollOnce_inconclusive _ _ _ _ w Hp Hall)).
    destruct (IH (S k) (set_now (w_now w + latency + checkInterval)%N w))
      as (t & E & Ht); simpl.
    + lia.
    + unfold checkInterval in *. lia.
    + by exists t.
Qed.

End PollingResults.

(** X1. A snapshot check that fails is retried: when the request is
    rejected, the reply is not 2xx, its body is not JSON or is [null], or the
    snapshot reports a status other than [completed] and [failed], the
    iteration does not return and does not throw; it waits one check
    interval (30 s) after the reply and leaves everything else as it is. *)
Theorem X1_failed_check_is_retried
    (env : Env) (snapshotId : string) (attempt : nat) (latency : N)
    (r : option HttpReply) (w : World) :
  provider_poll env snapshotId attempt = (latency, r) ->
  inconclusive r ->
  Scraper.pollOnce env snapshotId attempt w
  = (Ok None, set_now (w_now w + latency + 30000)%N w).
Proof. apply pollOnce_inconclusive. Qed.

(** The first check of a snapshot on a provider that answers HTTP 503 after
    200 ms. *)
Lemma X1_witness :
  Scraper.pollOnce Scenario.env_unavailable "snap_1" 1 Scenario.world0
  = (Ok None, set_now 30200 Scenario.world0).
Proof.
  apply (X1_failed_check_is_retried Scenario.env_unavailable "snap_1" 1 200
           (Some (Scenario.reply_error 503 "Service Unavailable"))
           Scenario.world0).
  - reflexivity.
  - left. reflexivity.
Defined.

(** X2. When no check of a snapshot is conclusive, [waitForCompletion]
    gives up: it returns the failure [Timeout waiting for scraping
    completion], not before 15 minutes have passed, and has changed nothing
    but the clock. *)
Theorem X2_wait_times_out (env : Env) (snapshotId : string) (w : World) :
  (forall attempt, inconclusive (provider_poll env snapshotId attempt).2) ->
  exists t,
    Scraper.waitForCompletion env snapshotId w
    = (Ok {| Scraper.success := false; Scraper.data := None;
             Scraper.wait_error :=
               Some (JStr "Timeout waiting for scraping completion") |},
       set_now t w)
    /\ (w_now w + 900000 <= t)%N.
Proof.
  intros Hall. unfold Scraper.waitForCompletion, bind, Date_now, gets, sleep,
    modify.
  destruct (pollLoop_times_out env snapshotId (w_now w) Hall 31 0
              (set_now (w_now w + Scraper.initialCheckDelay)%N w))
    as (t & E & Ht); simpl.
  - lia.
  - unfold Scraper.maxWaitTime, Scraper.checkInterval,
      Scraper.initialCheckDelay. lia.
  - exists t. split; [exact E|]. unfold Scraper.maxWaitTime in Ht. lia.
Qed.

(** A snapshot that is reported as running at every check. *)
Lemma X2_witness :
  exists t,
    Scraper.waitForCompletion Scenario.env_running "snap_1" Scenario.world0
    = (Ok {| Scraper.success := false; Scraper.data := None;
             Scraper.wait_error :=
               Some (JStr "Timeout waiting for scraping completion") |},
       set_now t Scenario.world0)
    /\ (w_now Scenario.world0 + 900000 <= t)%N.
Proof.
  apply (X2_wait_times_out Scenario.env_running "snap_1" Scenario.world0).
  intros attempt. right. right. right.
  exists (JObj [("status", JStr "running")]), (JStr "running").
  repeat split; done.
Defined.

(** X3. [waitForCompletion] never throws, whatever the provider answers,
    and changes nothing but the clock, which it advances by the initial
    delay of 15 s at least. Its result is well formed: a success carries no
    error; a failure carries no data and an error that is not empty. *)
Theorem X3_wait_contract (env : Env) (snapshotId : string) (w : World) :
  exists r t,
    Scraper.waitForCompletion env snapshotId w = (Ok r, set_now t w)
    /\ (w_now w + 15000 <= t)%N
    /\ well_formed_wait r.
Proof.
  unfold Scraper.waitForCompletion, bind, Date_now, gets, sleep, modify.
  destruct (pollLoop_result env snapshotId (w_now w) 31 0
              (set_now (w_now w + Scraper.initialCheckDelay)%N w))
    as (r & t & E & Ht & Hr).
  exists r, t. split; [exact E|]. split; [|done].
  simpl in Ht. unfold Scraper.initialCheckDelay in Ht. lia.
Qed.

(** ** Scrape operations *)

Lemma yields_failed env source message :
  yields (well_formed source) (Scraper.failed env source message).
Proof.
  unfold Scraper.failed. apply yields_bind. intros t. apply yields_ret.
  split; [done|]. simpl. eauto.
Qed.

Lemma yields_succeeded env source sid d :
  yields (well_formed source) (Scraper.succeeded env source sid d).
Proof.
  unfold Scraper.succeeded. apply yields_bind. intros t. apply yields_ret.
  split; [done|]. simpl. eauto.
Qed.

Lemma total_failed env source message :
  total (Scraper.failed env source message).
Proof. unfold Scraper.failed. total. Qed.

#[global] Hint Resolve total_failed : total.

Ltac yields_step :=
  first
    [ apply yields_throw
    | apply yields_failed
    | apply yields_succeeded
    | apply yields_bind; intros ?
    | apply yields_try_catch; [|intros ?]
    | match goal with
      | |- yields _ (if ?c then _ else _) => destruct c
      | |- yields _ (match ?x with _ => _ end) => destruct x
      end ].
Ltac yields := repeat yields_step.

Lemma frame_processLinkedInCompanyData {T} (f : World -> T) `{!Timeless f}
    env d url :
  steps (same f) (Scraper.processLinkedInCompanyData env d url).
Proof. unfold Scraper.processLinkedInCompanyData. frame. Qed.

#[global] Hint Resolve frame_processLinkedInCompanyData : frame.

(** A scrape operation starts with its trigger request. *)
Lemma trigger_first {A} env i (k : HttpReply -> M A) h w :
  try_catch (bind (Scraper.post_trigger env i) k) h w
  = try_catch
      (match provider_trigger env (w_triggers w) i with
       | Some response => k response
       | None => throw "fetch failed"
       end) h (triggered env i w).
Proof.
  unfold try_catch at 1, bind, Scraper.post_trigger, triggered.
  by destruct (provider_trigger env (w_triggers w) i).
Qed.

Lemma requests_intro env i source
    (k : HttpReply -> M Scraper.ScrapingResult) h :
  (forall e, total (h e)) ->
  (forall response, yields (well_formed source) (k response)) ->
  (forall e, yields (well_formed source) (h e)) ->
  (forall response, steps (same durable) (k response)) ->
  (forall e, steps (same durable) (h e)) ->
  requests i source (try_catch (bind (Scraper.post_trigger env i) k) h).
Proof.
  intros Th Yk Yh Fk Fh w. rewrite trigger_first.
  set (m := try_catch _ h).
  assert (Tm : total m) by by apply total_try_catch.
  assert (Ym : yields (well_formed source) m).
  { apply yields_try_catch; [|done].
    destruct (provider_trigger _ _ _); [done|apply yields_throw]. }
  assert (Fm : steps (same durable) m).
  { apply steps_try_catch; [apply _| |done].
    destruct (provider_trigger _ _ _); [done|apply steps_throw, _]. }
  destruct (Tm (triggered env i w)) as (r & w' & E).
  exists r, w'. split; [done|]. split; [by eapply Ym|].
  specialize (Fm (triggered env i w)). rewrite E in Fm.
  apply durable_inv in Fm as (Hl & Ht & Hd). simpl in *. done.
Qed.

Lemma requests_scrapeProfile env url :
  requests (ByUrl url) url (Scraper.scrapeProfile env url).
Proof.
  unfold Scraper.scrapeProfile.
  apply requests_intro; intros; [total|yields|yields|frame..].
Qed.

(** X4. [scrapeProfile] and [scrapeCompany] never throw: every failure of
    the provider comes back as a failed result. The result is well formed
    (a success carries data and the snapshot id and no error, a failure
    carries an error and nothing else) and names the requested URL as its
    source. Each call sends exactly one trigger request, for that URL, and
    writes nothing to D1. *)
Theorem X4_scrape_contract (env : Env) (url : string) :
  requests (ByUrl url) url (Scraper.scrapeProfile env url)
  /\ requests (ByUrl url) url (Scraper.scrapeCompany env url).
Proof.
  split.
  - apply requests_scrapeProfile.
  - unfold Scraper.scrapeCompany.
    apply requests_intro; intros; [total|yields|yields|frame..].
Qed.

(** ** A trigger request that the provider refuses *)





(** ** Processing the snapshot data *)

Lemma assoc_get_app k l1 l2 :
  assoc_get k (l1 ++ l2)
  = match assoc_get k l1 with Some v => Some v | None => assoc_get k l2 end.
Proof.
  induction l1 as [|[k' v] l1 IH]; simpl; [done|].
  by destruct (String.eqb k k').
Qed.

Lemma assoc_get_prop k k' v :
  assoc_get k (prop k' v) = if String.eqb k k' then v else None.
Proof. destruct v; simpl; by destruct (String.eqb k k'). Qed.

Lemma profile_fields_url pd :
  assoc_get "url" (Scraper.profile_fields pd) = None
  /\ assoc_get "input_url" (Scraper.profile_fields pd) = None.
Proof.
  unfold Scraper.profile_fields.
  split; rewrite !assoc_get_app, !assoc_get_prop; reflexivity.
Qed.

Lemma profile_fields_name pd :
  assoc_get "name" (Scraper.profile_fields pd) = get_field "name" pd.
Proof.
  unfold Scraper.profile_fields.
  rewrite !assoc_get_app, !assoc_get_prop. simpl.
  by destruct (get_field "name" pd).
Qed.

(** X6. The record that [processLinkedInProfileData] builds always says
    where it came from: whatever the snapshot data, [url] and [input_url]
    are defined, and each is the value that the provider's record has for it
    when that value is truthy, and the requested URL otherwise. The
    provider's record is the first element of an array, or the data itself:
    a record delivered bare and the same record as the first element of an
    array give the same result. The function returns without an exception
    and without an effect. *)
Theorem X6_profile_record_names_its_url
    (env : Env) (d : jsval) (profileUrl : string) (w : World) :
  (exists fields,
      Scraper.processLinkedInProfileData env d profileUrl w
      = (Ok (JObj fields), w)
      /\ Forall (fun k =>
                   assoc_get k fields
                   = Some (js_or (provider_record d ≫= get_field k)
                                 (JStr profileUrl)))
                ["url"; "input_url"])
  /\ (forall record rest,
         Scraper.processLinkedInProfileData env
           (Some (JArr (JObj record :: rest))) profileUrl w
         = Scraper.processLinkedInProfileData env (Some (JObj record))
             profileUrl w).
Proof.
  split; [|done].
  unfold Scraper.processLinkedInProfileData, bind, Scraper.now_iso, gets, ret.
  assert (Hpd : forall pd t,
             Forall (fun k =>
                       assoc_get k
                         (Scraper.profile_fields pd
                          ++ [("url",
                               js_or (get_field "url" pd) (JStr profileUrl));
                              ("input_url",
                               js_or (get_field "input_url" pd)
                                     (JStr profileUrl))]
                          ++ Scraper.profile_tail pd
                          ++ [("timestamp",
                               js_or (get_field "timestamp" pd) (JStr t))])
                       = Some (js_or (get_field k pd) (JStr profileUrl)))
                    ["url"; "input_url"]).
  { intros pd t. destruct (profile_fields_url pd) as [H1 H2].
    repeat constructor; rewrite assoc_get_app.
    - by rewrite H1.
    - by rewrite H2. }
  destruct d as [[|b|f|s|[|first l]|record]|]; cbv beta iota zeta;
    try (eexists; split; [reflexivity|]; by repeat constructor).
  - destruct (truthy (Some first)) eqn:Et.
    + eexists. split; [reflexivity|]. apply Hpd.
    + eexists. split; [reflexivity|].
      destruct first as [|[]|?|?|?|?]; try discriminate;
        by repeat constructor.
  - eexists. split; [reflexivity|]. apply (Hpd (JObj record)).
Qed.

(** A check before the deadline that answers an object without a status:
    the object is the data of a completed snapshot. *)
Lemma pollOnce_object env snapshotId attempt latency reply record w :
  provider_poll env snapshotId attempt = (latency, Some reply) ->
  http_ok reply = true ->
  http_json reply = Some (JObj record) ->
  record <> [] ->
  truthy (assoc_get "status" record) = false ->
  Scraper.pollOnce env snapshotId attempt w
  = (Ok (Some {| Scraper.success := true;
                 Scraper.data := Some (JObj record);
                 Scraper.wait_error := None |}),
     set_now (w_now w + latency)%N w).
Proof.
  intros Hp Hok Hj Hne Hs.
  unfold Scraper.pollOnce, try_catch, Scraper.checkSnapshot,
    Scraper.fetch_snapshot, bind.
  rewrite Hp; simpl. rewrite Hok, Hj; simpl. rewrite Hs.
  by destruct record.
Qed.

Lemma waitForCompletion_first_check env snapshotId res w w' :
  Scraper.pollOnce env snapshotId 1
    (set_now (w_now w + Scraper.initialCheckDelay)%N w)
  = (Ok (Some res), w') ->
  Scraper.waitForCompletion env snapshotId w = (Ok res, w').
Proof.
  intros E. unfold Scraper.waitForCompletion, bind at 1 2, Date_now, gets,
    sleep, modify.
  assert (Hlt : (w_now (set_now (w_now w + Scraper.initialCheckDelay)%N w)
                 - w_now w < Scraper.maxWaitTime)%N).
  { cbn [w_now set_now].
    unfold Scraper.initialCheckDelay, Scraper.maxWaitTime. lia. }
  rewrite (pollLoop_step env 30 snapshotId (w_now w) 0 _ _ _ Hlt E).
  reflexivity.
Qed.

Lemma snapshot_of_trigger_accepted env response sid w :
  http_ok response = true ->
  http_json response = Some (JObj [("snapshot_id", JStr sid)]) ->
  sid <> "" ->
  Scraper.snapshot_of_trigger env response w = (Ok sid, w).
Proof.
  intros Hok Hj Hne. unfold Scraper.snapshot_of_trigger.
  rewrite Hok, Hj. simpl.
  destruct (String.eqb_spec sid ""); [done|]. reflexivity.
Qed.

(** X7. A snapshot may arrive as a bare object instead of an array: the
    polling loop accepts a non-empty object without a status as the data of
    a completed snapshot. [scrapeProfile] processes such an object as the
    profile; [scrapeCompany] reads arrays only, so for the same object it
    reports a success whose data is the placeholder record named
    [Unknown Company], and what the provider delivered is lost. *)
Theorem X7_bare_company_object_is_discarded
    (env : Env) (url sid : string) (response reply : HttpReply) (latency : N)
    (record : list (string * json)) (w : World) :
  provider_trigger env (w_triggers w) (ByUrl url) = Some response ->
  http_ok response = true ->
  http_json response = Some (JObj [("snapshot_id", JStr sid)]) ->
  sid <> "" ->
  provider_poll env sid 1 = (latency, Some reply) ->
  http_ok reply = true ->
  http_json reply = Some (JObj record) ->
  record <> [] ->
  truthy (assoc_get "status" record) = false ->
  let w' := set_now (w_now w + trigger_latency env (w_triggers w) (ByUrl url)
                     + 15000 + latency)%N
                    (note_trigger (ByUrl url) w) in
  let t := toISOString env (w_now w') in
  Scraper.scrapeCompany env url w
  = (Ok {| Scraper.sr_success := true;
           Scraper.sr_data :=
             Some (JObj [("name", JStr "Unknown Company");
                         ("url", JStr url); ("timestamp", JStr t)]);
           Scraper.sr_error := None; Scraper.sr_source := url;
           Scraper.sr_scrapedAt := t; Scraper.sr_snapshotId := Some sid |},
     w')
  /\ exists fields,
       Scraper.scrapeProfile env url w
       = (Ok {| Scraper.sr_success := true;
                Scraper.sr_data := Some (JObj fields);
                Scraper.sr_error := None; Scraper.sr_source := url;
                Scraper.sr_scrapedAt := t;
                Scraper.sr_snapshotId := Some sid |}, w')
       /\ assoc_get "name" fields = assoc_get "name" record.
Proof.
  intros Ht Hok Hj Hsid Hp Hrok Hrj Hne Hst w' t.
  set (w1 := triggered env (ByUrl url) w).
  assert (Ew : Scraper.waitForCompletion env sid w1
               = (Ok {| Scraper.success := true;
                        Scraper.data := Some (JObj record);
                        Scraper.wait_error := None |}, w')).
  { apply waitForCompletion_first_check.
    by rewrite (pollOnce_object env sid 1 latency reply record _ Hp Hrok Hrj
                  Hne Hst). }
  split.
  - unfold Scraper.scrapeCompany. rewrite trigger_first, Ht. fold w1.
    apply try_catch_ok.
    rewrite (bind_ok _ _ _ _ _
               (snapshot_of_trigger_accepted env response sid w1 Hok Hj Hsid)).
    rewrite (bind_ok _ _ _ _ _ Ew). reflexivity.
  - eexists. split.
    + unfold Scraper.scrapeProfile. rewrite trigger_first, Ht. fold w1.
      apply try_catch_ok.
      rewrite (bind_ok _ _ _ _ _
                 (snapshot_of_trigger_accepted env response sid w1 Hok Hj
                    Hsid)).
      rewrite (bind_ok _ _ _ _ _ Ew). reflexivity.
    + rewrite assoc_get_app, profile_fields_name.
      change (get_field "name" (JObj record)) with (assoc_get "name" record).
      destruct (assoc_get "name" record); [done|].
      unfold Scraper.profile_tail.
      rewrite !assoc_get_app, !assoc_get_prop. reflexivity.
Qed.

(** The provider delivers the profile of Alice as a bare object. *)
Lemma X7_witness :
  let w' := set_now 15300 (note_trigger (ByUrl Scenario.alice_url)
                                        Scenario.world0) in
  Scraper.scrapeCompany Scenario.env_bare_object Scenario.alice_url
    Scenario.world0
  = (Ok {| Scraper.sr_success := true;
           Scraper.sr_data :=
             Some (JObj [("name", JStr "Unknown Company");
                         ("url", JStr Scenario.alice_url);
                         ("timestamp", JStr "15300")]);
           Scraper.sr_error := None; Scraper.sr_source := Scenario.alice_url;
           Scraper.sr_scrapedAt := "15300";
           Scraper.sr_snapshotId := Some "s_0" |}, w')
  /\ exists fields,
       Scraper.scrapeProfile Scenario.env_bare_object Scenario.alice_url
         Scenario.world0
       = (Ok {| Scraper.sr_success := true;
                Scraper.sr_data := Some (JObj fields);
                Scraper.sr_error := None;
                Scraper.sr_source := Scenario.alice_url;
                Scraper.sr_scrapedAt := "15300";
                Scraper.sr_snapshotId := Some "s_0" |}, w')
       /\ assoc_get "name" fields = Some (JStr "Alice").
Proof.
  apply (X7_bare_company_object_is_discarded Scenario.env_bare_object
           Scenario.alice_url "s_0"
           (Scenario.reply_ok (JObj [("snapshot_id", JStr "s_0")]))
           (Scenario.reply_ok Scenario.alice_profile) 200
           [("name", JStr "Alice"); ("current_company_name", JStr "Acme");
            ("city", JStr "Paris"); ("about", JStr "Builds things.")]
           Scenario.world0); done.
Defined.

(** ** The name that a profile search sends *)

Lemma includes_char c s :
  includes (String c EmptyString) s = true <-> c ∈ list_ascii_of_string s.
Proof.
  induction s as [|a s IH]; simpl.
  - split; [done|]. by intros ?%elem_of_nil.
  - destruct (ascii_dec c a) as [->|Hne].
    + split; [intros _; left|intros _; by destruct s].
    + simpl. rewrite IH. split; [by right|].
      intros [?|?]%elem_of_cons; [done|done].
Qed.

Lemma join_cons sep p ps :
  join sep (p :: ps)
  = match ps with [] => p | _ :: _ => p +:+ sep +:+ join sep ps end.
Proof. by destruct ps. Qed.

Lemma append_nil_r s : s +:+ EmptyString = s.
Proof. induction s as [|a s IH]; [done|]. cbv [append]. fold append. by rewrite IH. Qed.

(** [split] cuts at the first separator, and [join] undoes it. *)
Lemma split_chars_spec sep l :
  exists p ps,
    split_chars sep l = p :: ps
    /\ (sep ∉ p)
    /\ string_of_list_ascii l
       = (string_of_list_ascii p
          +:+ match ps with
              | [] => EmptyString
              | _ :: _ =>
                  String sep (join (String sep EmptyString)
                                   (map string_of_list_ascii ps))
              end)
    /\ (ps = [] <-> sep ∉ l).
Proof.
  induction l as [|a l (p & ps & E & Hp & Hs & Hl)].
  - exists [], []. split; [done|]. split; [by intros ?%elem_of_nil|].
    split; [done|]. split; [by intros _ ?%elem_of_nil|done].
  - cbn [split_chars]. destruct (Ascii.eqb_spec a sep) as [->|Hne].
    + exists [], (p :: ps). split; [by rewrite E|].
      split; [by intros ?%elem_of_nil|]. split.
      * cbn [map string_of_list_ascii]. rewrite join_cons, Hs.
        change (EmptyString +:+ ?x) with x. f_equal.
        destruct ps; [apply append_nil_r|reflexivity].
      * split; [done|]. intros H. exfalso. apply H. left.
    + rewrite E. exists (a :: p), ps. split; [done|].
      split; [intros [?|?]%elem_of_cons; congruence|].
      split; [cbn [string_of_list_ascii]; rewrite Hs; reflexivity|].
      rewrite Hl. split.
      * intros H [?|?]%elem_of_cons; congruence.
      * intros H Hin. apply H. by right.
Qed.

Lemma split_spec sep s :
  exists first rest,
    split sep s = first :: rest
    /\ includes (String sep EmptyString) first = false
    /\ s = first
           +:+ match rest with
               | [] => EmptyString
               | _ :: _ => String sep (join (String sep EmptyString) rest)
               end
    /\ (rest = [] <-> includes (String sep EmptyString) s = false).
Proof.
  destruct (split_chars_spec sep (list_ascii_of_string s))
    as (p & ps & E & Hp & Hs & Hl).
  exists (string_of_list_ascii p), (map string_of_list_ascii ps).
  unfold split. rewrite E. split; [done|]. split; [|split].
  - apply not_true_is_false. rewrite includes_char.
    by rewrite list_ascii_of_string_of_list_ascii.
  - rewrite string_of_list_ascii_of_string in Hs. rewrite Hs.
    by destruct ps.
  - rewrite <- not_true_iff_false, includes_char, <- Hl.
    by destruct ps.
Qed.

Lemma searchProfiles_cases env q :
  if includes " " (trim q) then
    exists firstName lastName,
      trim q = firstName +:+ " " +:+ lastName
      /\ includes " " firstName = false
      /\ requests (ByName firstName lastName) "linkedin-search"
                  (Scraper.searchProfiles env q)
  else
    forall w,
      Scraper.searchProfiles env q w
      = (Ok (failure env "linkedin-search"
               "Search query must contain at least first and last name" w),
         w).
Proof.
  destruct (split_spec " " (trim q)) as (first & rest & E & Hf & Hs & Hr).
  unfold Scraper.searchProfiles. rewrite E.
  destruct (includes " " (trim q)) eqn:Hi.
  - destruct rest as [|r rest]; [by destruct Hr as [Hr _]; specialize (Hr eq_refl)|].
    exists first, (join " " (r :: rest)). split; [exact Hs|]. split; [done|].
    change (length (first :: r :: rest) <? 2)%nat with false. cbv iota.
    apply requests_intro; intros; [total|yields|yields|frame..].
  - destruct Hr as [_ Hr]. rewrite (Hr eq_refl). reflexivity.
Qed.

(** X8. [searchProfiles] cuts the trimmed query at its first blank: what
    precedes it is sent as the first name and all that follows as the last
    name, so that the two, joined by a blank, are the trimmed query. With no
    blank in the trimmed query nothing is sent and the result is the failure
    that asks for a first and a last name. In both cases the operation
    returns a well-formed result and never throws. *)
Theorem X8_search_sends_the_name (env : Env) (q : string) :
  if includes " " (trim q) then
    exists firstName lastName,
      trim q = firstName +:+ " " +:+ lastName
      /\ includes " " firstName = false
      /\ requests (ByName firstName lastName) "linkedin-search"
                  (Scraper.searchProfiles env q)
  else
    forall w,
      Scraper.searchProfiles env q w
      = (Ok (failure env "linkedin-search"
               "Search query must contain at least first and last name" w),
         w).
Proof. apply searchProfiles_cases. Qed.

(** * The harvester *)

(** ** Its tools *)

Lemma sent_bind_l {A B} n (m : M A) (k : A -> M B) :
  steps (sent n) m -> (forall a, steps (same w_triggers) (k a)) ->
  steps (sent n) (bind m k).
Proof.
  intros Hm Hk w. unfold bind. specialize (Hm w).
  destruct (m w) as [[a|e] w1]; simpl in *; [|done].
  unfold sent in *. specialize (Hk a w1). unfold same in Hk.
  by rewrite Hk.
Qed.

Lemma sent_try_catch_l {A} n (m : M A) h :
  steps (sent n) m -> (forall e, steps (same w_triggers) (h e)) ->
  steps (sent n) (try_catch m h).
Proof.
  intros Hm Hh w. unfold try_catch. specialize (Hm w).
  destruct (m w) as [[a|e] w1]; simpl in *; [done|].
  unfold sent in *. specialize (Hh e w1). unfold same in Hh.
  by rewrite Hh.
Qed.

Lemma sent_requests i source m : requests i source m -> steps (sent 1) m.
Proof.
  intros H w. destruct (H w) as (r & w' & E & _ & _ & Ht & _).
  rewrite E. unfold sent. simpl. lia.
Qed.

Lemma yields_createEvidence env subject url content ct :
  yields (fun e => ev_subject_id e = subject /\ source_url e = url
                   /\ content_type e = ct
                   /\ hash e = sha256_hex env (content_text e)
                   /\ extraction e = None
                   /\ exists n : nat, ev_id e = "evid_" +:+ pretty n)
         (HarvesterAgent.createEvidence env subject url content ct).
Proof.
  intros w e w' E.
  unfold HarvesterAgent.createEvidence, bind, randomUUID, Scraper.now_iso,
    gets, ret in E.
  simplify_eq. simpl. eauto 10.
Qed.

Lemma tool_spec_intro env subject tool :
  total tool ->
  steps (same tables) tool ->
  yields (tool_evidence (harvested env subject)) tool ->
  (forall w, sent 1 w (tool w).2
             \/ (sent 0 w (tool w).2
                 /\ exists message,
                      (tool w).1 = Ok (HarvesterAgent.ToolFail message))) ->
  tool_spec env subject tool.
Proof.
  intros Ht Hf Hy Hs w. destruct (Ht w) as (r & w' & E).
  specialize (Hf w). specialize (Hs w). rewrite E in Hf, Hs. simpl in *.
  exists r, w'. split; [done|]. split; [done|]. split; [by eapply Hy|].
  destruct Hs as [?|(? & message & ?)]; [by left|right].
  split; [done|]. exists message. congruence.
Qed.

Lemma tool_spec_scrapeLinkedInProfileTool env subject :
  tool_spec env subject
    (HarvesterAgent.scrapeLinkedInProfileTool env subject subject).
Proof.
  apply tool_spec_intro.
  - unfold HarvesterAgent.scrapeLinkedInProfileTool. total.
  - unfold HarvesterAgent.scrapeLinkedInProfileTool. frame.
  - unfold HarvesterAgent.scrapeLinkedInProfileTool.
    apply yields_try_catch; [|intros; by apply yields_ret].
    apply yields_bind. intros sr.
    destruct (negb _); [by apply yields_ret|].
    eapply yields_bind_with; [apply yields_createEvidence|].
    intros e (H1 & H2 & H3 & H4 & H5 & H6).
    apply yields_bind. intros now. apply yields_ret.
    repeat split; auto.
  - intros w. left.
    apply (sent_try_catch_l 1); [|intros; frame].
    apply sent_bind_l; [|intros; frame].
    eapply sent_requests, requests_scrapeProfile.
Qed.

Lemma tool_spec_searchLinkedInProfilesTool env subject :
  tool_spec env subject
    (HarvesterAgent.searchLinkedInProfilesTool env subject subject).
Proof.
  apply tool_spec_intro.
  - unfold HarvesterAgent.searchLinkedInProfilesTool. total.
  - unfold HarvesterAgent.searchLinkedInProfilesTool. frame.
  - unfold HarvesterAgent.searchLinkedInProfilesTool.
    apply yields_try_catch; [|intros; by apply yields_ret].
    apply yields_bind. intros sr.
    destruct (negb _); [by apply yields_ret|].
    eapply yields_bind_with; [apply yields_createEvidence|].
    intros e (H1 & H2 & H3 & H4 & H5 & H6).
    apply yields_bind. intros now. apply yields_ret.
    repeat split; auto.
  - intros w. pose proof (searchProfiles_cases env subject) as H.
    destruct (includes " " (trim subject)).
    + left. destruct H as (f & l & _ & _ & H).
      apply (sent_try_catch_l 1); [|intros; frame].
      apply sent_bind_l; [|intros; frame].
      eapply sent_requests, H.
    + right. unfold HarvesterAgent.searchLinkedInProfilesTool, try_catch.
      rewrite (bind_ok _ _ _ _ _ (H w)). simpl.
      split; [unfold sent; lia|]. eauto.
Qed.

(** ** A harvest *)

(** Running a tool and collecting its evidence. *)
Lemma collect_step env subject tool st :
  tool_spec env subject tool ->
  forall w, exists st' new w',
    try_catch (r <- tool ;; ret (HarvesterAgent.collect r st))
              (fun _ => ret st) w
    = (Ok st', w')
    /\ st'.1 = st.1 ++ new
    /\ Forall (harvested env subject) new
    /\ tables w' = tables w
    /\ w_triggers w + length new <= w_triggers w'
    /\ w_triggers w' <= w_triggers w + 1.
Proof.
  intros Ht w. destruct (Ht w) as (r & w' & E & Hd & He & Hs).
  exists (HarvesterAgent.collect r st),
    (match r with HarvesterAgent.ToolOk e _ => [e] | _ => [] end), w'.
  split; [apply try_catch_ok; by rewrite (bind_ok _ _ _ _ _ E)|].
  unfold sent in Hs.
  destruct r as [e d|message]; simpl in *.
  - split; [done|]. split; [by constructor|]. split; [done|].
    destruct Hs as [?|(? & ? & ?)]; [lia|done].
  - split; [by rewrite app_nil_r|]. split; [constructor|]. split; [done|].
    destruct Hs as [?|(? & ? & ?)]; lia.
Qed.

(** The profile search hands the harvester no profile to scrape. *)
Lemma search_step_collects env subject maxApiCalls st1 w :
  try_catch
    (linkedinSearchResult <-
       HarvesterAgent.searchLinkedInProfilesTool env subject subject ;;
     match linkedinSearchResult with
     | HarvesterAgent.ToolFail _ => ret st1
     | HarvesterAgent.ToolOk _ searchData =>
         let st2 := HarvesterAgent.collect linkedinSearchResult st1 in
         match searchData ≫= get_field "results" with
         | Some (JArr (p :: ps)) =>
             let remainingCalls := (maxApiCalls - st2.2)%Z in
             let profilesToScrape :=
               slice0 (Z.min remainingCalls 5) (p :: ps) in
             r <- for_acc profilesToScrape (st2, false)
                    (HarvesterAgent.scrape_one env subject maxApiCalls) ;;
             ret r.1
         | _ => ret st2
         end
     end)
    (fun _ => ret st1) w
  = try_catch
      (r <- HarvesterAgent.searchLinkedInProfilesTool env subject subject ;;
       ret (HarvesterAgent.collect r st1))
      (fun _ => ret st1) w.
Proof.
  unfold try_catch, bind.
  destruct (HarvesterAgent.searchLinkedInProfilesTool env subject subject w)
    as [[[ev d|message]|e] w1] eqn:E; simpl; try reflexivity.
  by rewrite (searchLinkedInProfilesTool_no_results _ _ _ _ _ _ _ E).
Qed.

Lemma harvestEvidence_spec env subject sources inputType maxApiCalls w :
  exists evidence w',
    HarvesterAgent.harvestEvidence env subject sources inputType maxApiCalls w
    = (Ok evidence, w')
    /\ Forall (harvested env subject) evidence
    /\ tables w' = tables w
    /\ w_triggers w + length evidence <= w_triggers w'
    /\ w_triggers w' <= w_triggers w + 1.
Proof.
  unfold HarvesterAgent.harvestEvidence. cbv zeta.
  destruct (_ && _).
  { destruct (collect_step env subject _ ([], 0%Z)
                (tool_spec_scrapeLinkedInProfileTool env subject) w)
      as (st & new & w' & E & Hst & Hn & Hd & H1 & H2).
    rewrite (bind_ok _ _ _ _ _ E). exists st.1, w'. rewrite Hst. simpl.
    repeat split; auto. }
  match goal with
  | |- context [bind (bind ?m _) _ w] => set (step1 := m)
  end.
  assert (E1 : step1 w = (Ok (([], 0%Z) : HarvesterAgent.Locals), w)).
  { subst step1. by destruct (_ && _). }
  unfold bind at 1 2. rewrite E1. clearbody step1. cbv beta iota.
  destruct (_ && _).
  - pose proof (search_step_collects env subject maxApiCalls ([], 0%Z) w)
      as Hc.
    cbv zeta in Hc. rewrite Hc.
    destruct (collect_step env subject _ ([], 0%Z)
                (tool_spec_searchLinkedInProfilesTool env subject) w)
      as (st & new & w' & E & Hst & Hn & Hd & H1 & H2).
    rewrite E. exists st.1, w'. split; [reflexivity|].
    rewrite Hst. simpl. repeat split; auto.
  - exists [], w. split; [reflexivity|]. repeat split; auto; simpl; lia.
Qed.

(** X10. [harvestEvidence] never throws; it works on the provider only and
    leaves the tables of D1 as they are. It sends at most one trigger
    request, whatever the budget, and returns at most one evidence record
    for each request it has sent. *)
Theorem X10_harvest_contract
    (env : Env) (subject : string) (sources : list string)
    (inputType : InputType) (maxApiCalls : Z) (w : World) :
  exists evidence w',
    HarvesterAgent.harvestEvidence env subject sources inputType maxApiCalls w
    = (Ok evidence, w')
    /\ tables w' = tables w
    /\ w_triggers w + length evidence <= w_triggers w'
    /\ w_triggers w' <= w_triggers w + 1.
Proof.
  destruct (harvestEvidence_spec env subject sources inputType maxApiCalls w)
    as (evidence & w' & E & _ & H).
  by exists evidence, w'.
Qed.

(** X11. Every evidence record that [harvestEvidence] returns is filed
    under the subject of the run, carries the SHA-256 digest of its own
    content as its hash and no extraction, and has an id of the form
    [evid_...]. Its source is the subject's URL (a profile, as JSON) or
    [linkedin://search] (as JSON): the web search yields no evidence, and
    the profiles that a profile search finds are never scraped. *)
Theorem X11_harvested_evidence
    (env : Env) (subject : string) (sources : list string)
    (inputType : InputType) (maxApiCalls : Z) (w : World) :
  exists evidence w',
    HarvesterAgent.harvestEvidence env subject sources inputType maxApiCalls w
    = (Ok evidence, w')
    /\ Forall (harvested env subject) evidence.
Proof.
  destruct (harvestEvidence_spec env subject sources inputType maxApiCalls w)
    as (evidence & w' & E & H & _).
  by exists evidence, w'.
Qed.

(** X12. On the search path a budget of zero or less buys nothing: the
    harvest returns no evidence and leaves the world as it is, without a
    request to the provider. *)
Theorem X12_no_budget_no_request
    (env : Env) (subject : string) (sources : list string)
    (maxApiCalls : Z) (w : World) :
  (maxApiCalls <= 0)%Z ->
  HarvesterAgent.harvestEvidence env subject sources search maxApiCalls w
  = (Ok [], w).
Proof.
  intros Hm. unfold HarvesterAgent.harvestEvidence. cbv zeta.
  replace (bool_decide (search = linkedin)) with false by done.
  cbn [andb fst snd].
  assert ((0 <? maxApiCalls)%Z = false) as Hlt by lia.
  rewrite Hlt, andb_false_r. unfold bind, ret. cbn [fst snd].
  by rewrite Hlt, andb_false_r.
Qed.

Lemma X12_witness :
  HarvesterAgent.harvestEvidence Scenario.env_search "Alice Example"
    ["web"; "linkedin"] search (-1) Scenario.world0
  = (Ok [], Scenario.world0).
Proof.
  apply (X12_no_budget_no_request Scenario.env_search "Alice Example"
           ["web"; "linkedin"] (-1) Scenario.world0).
  lia.
Defined.

Lemma try_catch_bind_ok {A B} (m : M A) (k : A -> M B) h w a w1 :
  m w = (Ok a, w1) -> try_catch (bind m k) h w = try_catch (k a) h w1.
Proof. intros E. unfold try_catch, bind. by rewrite E. Qed.

Lemma log_scrapeLinkedInProfileTool env subject url w :
  w_log (HarvesterAgent.scrapeLinkedInProfileTool env subject url w).2
  = ETrigger (ByUrl url) :: w_log w.
Proof.
  unfold HarvesterAgent.scrapeLinkedInProfileTool.
  destruct (requests_scrapeProfile env url w) as (r & w1 & E & _ & Hl & _).
  rewrite (try_catch_bind_ok _ _ _ _ _ _ E), <- Hl.
  match goal with
  | |- w_log (?m w1).2 = _ => assert (F : steps (same w_log) m) by frame
  end.
  apply F.
Qed.

(** X13. A run for a LinkedIn URL does not consult the budget: when the
    input type is [linkedin] and the subject contains [linkedin.com/in/] or
    [linkedin.com/company/], the harvest is the same for every budget, the
    sources are not looked at, and exactly one trigger request is sent, for
    the subject. *)
Theorem X13_direct_scrape_ignores_budget
    (env : Env) (subject : string) (sources1 sources2 : list string)
    (budget1 budget2 : Z) (w : World) :
  includes "linkedin.com/in/" subject
  || includes "linkedin.com/company/" subject = true ->
  HarvesterAgent.harvestEvidence env subject sources1 linkedin budget1 w
  = HarvesterAgent.harvestEvidence env subject sources2 linkedin budget2 w
  /\ w_log (HarvesterAgent.harvestEvidence env subject sources1 linkedin
              budget1 w).2
     = ETrigger (ByUrl subject) :: w_log w.
Proof.
  intros Hs. unfold HarvesterAgent.harvestEvidence. cbv zeta.
  rewrite Hs. replace (bool_decide (linkedin = linkedin)) with true by done.
  cbn [andb]. split; [reflexivity|].
  pose proof (log_scrapeLinkedInProfileTool env subject subject w) as Hl.
  destruct (tool_spec_scrapeLinkedInProfileTool env subject w)
    as (tr & w2 & E2 & _).
  rewrite E2 in Hl. unfold bind at 1.
  rewrite (try_catch_bind_ok _ _ _ _ _ _ E2). exact Hl.
Qed.

Lemma X13_witness :
  HarvesterAgent.harvestEvidence Scenario.env_direct Scenario.alice_url
    ["web"] linkedin 0 Scenario.world0
  = HarvesterAgent.harvestEvidence Scenario.env_direct Scenario.alice_url
      [] linkedin 5 Scenario.world0
  /\ w_log (HarvesterAgent.harvestEvidence Scenario.env_direct
              Scenario.alice_url ["web"] linkedin 0 Scenario.world0).2
     = ETrigger (ByUrl Scenario.alice_url) :: w_log Scenario.world0.
Proof.
  apply (X13_direct_scrape_ignores_budget Scenario.env_direct
           Scenario.alice_url ["web"] [] 0 5 Scenario.world0).
  reflexivity.
Defined.

(** * The run of the state machine *)

(** ** What a run leaves alone *)

Global Instance grows_preorder {T} (f : World -> list T) : PreOrder (grows f).
Proof.
  split; [intros w; unfold grows; reflexivity|].
  intros w1 w2 w3 H1 H2. unfold grows in *. by etrans.
Qed.

Lemma grows_same {A T} (f : World -> list T) (m : M A) :
  steps (same f) m -> steps (grows f) m.
Proof. intros H w. unfold grows. by rewrite (H w). Qed.

Global Instance storage_timeless : Timeless storage.
Proof. by split. Qed.
Global Instance storage_offline : Offline storage.
Proof. by intros i w. Qed.
Global Instance storage_indexless : Indexless storage.
Proof. by split. Qed.

Global Instance run_ids_timeless : Timeless run_ids.
Proof. by split. Qed.
Global Instance run_ids_offline : Offline run_ids.
Proof. by intros i w. Qed.
Global Instance run_ids_indexless : Indexless run_ids.
Proof. by split. Qed.

Global Instance run_row_timeless runId : Timeless (run_row runId).
Proof. by split. Qed.
Global Instance run_row_offline runId : Offline (run_row runId).
Proof. by intros i w. Qed.
Global Instance run_row_indexless runId : Indexless (run_row runId).
Proof. by split. Qed.

Global Instance evidence_timeless : Timeless w_evidence.
Proof. by split. Qed.
Global Instance evidence_offline : Offline w_evidence.
Proof. by intros i w. Qed.
Global Instance evidence_indexless : Indexless w_evidence.
Proof. by split. Qed.

Global Instance claims_timeless : Timeless w_claims.
Proof. by split. Qed.
Global Instance claims_offline : Offline w_claims.
Proof. by intros i w. Qed.
Global Instance claims_indexless : Indexless w_claims.
Proof. by split. Qed.

#[global] Hint Extern 1 (Indexless _) => typeclasses eauto : frame.

Lemma frame_generateEmbedding {T} (f : World -> T) `{!Indexless f} env text :
  steps (same f) (VectorMemory.generateEmbedding env text).
Proof.
  intros w. unfold VectorMemory.generateEmbedding.
  destruct (ai_embed env _ _); apply blind_embed.
Qed.

Lemma frame_upsert {T} (f : World -> T) `{!Indexless f} env i v :
  steps (same f) (VectorMemory.upsert env i v).
Proof.
  intros w. unfold VectorMemory.upsert.
  destruct (vec_fault env _ _); apply blind_vec.
Qed.

Lemma frame_d1_storage env op :
  steps (same storage) (CanonicalMemory.d1_run env op).
Proof.
  intros w. unfold CanonicalMemory.d1_run.
  destruct (db_fault env _ _); [done|]. by destruct op.
Qed.

Lemma frame_d1_run_ids env op :
  match op with InsertRun _ => False | _ => True end ->
  steps (same run_ids) (CanonicalMemory.d1_run env op).
Proof.
  intros Hop w. unfold CanonicalMemory.d1_run.
  destruct (db_fault env _ _); [done|]. destruct op; try done.
  unfold same, run_ids. simpl. apply dom_alter_L.
Qed.

Lemma frame_d1_run_row env other op :
  match op with
  | InsertRun _ => False
  | UpdateRun runId _ _ _ _ => runId <> other
  | _ => True
  end ->
  steps (same (run_row other)) (CanonicalMemory.d1_run env op).
Proof.
  intros Hop w. unfold CanonicalMemory.d1_run.
  destruct (db_fault env _ _); [done|]. destruct op; try done.
  unfold same, run_row. simpl. by apply lookup_alter_ne.
Qed.

Lemma grows_d1_evidence env op :
  steps (grows w_evidence) (CanonicalMemory.d1_run env op).
Proof.
  intros w. unfold CanonicalMemory.d1_run, grows.
  destruct (db_fault env _ _); [done|]. destruct op; simpl; try done.
  by apply prefix_app_r.
Qed.

Lemma grows_d1_claims env op :
  steps (grows w_claims) (CanonicalMemory.d1_run env op).
Proof.
  intros w. unfold CanonicalMemory.d1_run, grows.
  destruct (db_fault env _ _); [done|]. destruct op; simpl; try done.
  by apply prefix_app_r.
Qed.

#[global] Hint Resolve frame_generateEmbedding frame_upsert frame_d1_storage
  grows_d1_evidence grows_d1_claims : frame.
#[global] Hint Extern 2 (steps (same run_ids) (CanonicalMemory.d1_run _ _)) =>
  apply frame_d1_run_ids; exact I : frame.
#[global] Hint Extern 2 (steps (same (run_row _)) (CanonicalMemory.d1_run _ _)) =>
  apply frame_d1_run_row; first [exact I | congruence] : frame.
#[global] Hint Extern 5 (steps (grows _) _) =>
  apply grows_same; solve [auto with frame nocore] : frame.

(** The code of a run, down to the requests it sends and the statements it
    issues. *)
Ltac unfold_run :=
  unfold SubjectOrchestrator.executeStateMachine,
    SubjectOrchestrator.run_stages, SubjectOrchestrator.stage_discover,
    SubjectOrchestrator.stage_fetch, SubjectOrchestrator.stage_extract,
    SubjectOrchestrator.stage_finish, SubjectOrchestrator.updateRunStatus,
    SubjectOrchestrator.subject_of, SubjectOrchestrator.harvestEvidence,
    SubjectOrchestrator.extractClaimsFromEvidence,
    SubjectOrchestrator.extract_one, SubjectOrchestrator.push_claims,
    SubjectOrchestrator.new_claim, SubjectOrchestrator.verifyClaims,
    SubjectOrchestrator.upsertClaimsAndEvidence,
    SubjectOrchestrator.upsert_canonical, SubjectOrchestrator.upsert_vector,
    ComplianceAgent.verifyClaim,
    VectorMemory.storeEvidence, VectorMemory.storeClaim,
    CanonicalMemory.getSubjectRun, CanonicalMemory.updateSubjectRunStatus,
    CanonicalMemory.createEvidence, CanonicalMemory.createClaim,
    HarvesterAgent.harvestEvidence, HarvesterAgent.scrape_one,
    HarvesterAgent.searchLinkedInProfilesTool,
    HarvesterAgent.scrapeLinkedInProfileTool, HarvesterAgent.searchWebTool,
    HarvesterAgent.fetchWebContent, HarvesterAgent.createEvidence,
    Scraper.scrapeProfile, Scraper.searchProfiles, Scraper.scrapeWebContent,
    Scraper.triggerScraping.

Lemma executeStateMachine_storage env runId :
  steps (same storage) (SubjectOrchestrator.executeStateMachine env runId).
Proof. unfold_run. frame. Qed.

Lemma executeStateMachine_run_ids env runId :
  steps (same run_ids) (SubjectOrchestrator.executeStateMachine env runId).
Proof. unfold_run. frame. Qed.

Lemma executeStateMachine_run_row env runId other :
  other <> runId ->
  steps (same (run_row other))
        (SubjectOrchestrator.executeStateMachine env runId).
Proof. intros Hne. unfold_run. frame. Qed.

Lemma executeStateMachine_evidence env runId :
  steps (grows w_evidence) (SubjectOrchestrator.executeStateMachine env runId).
Proof. unfold_run. frame. Qed.

Lemma executeStateMachine_claims env runId :
  steps (grows w_claims) (SubjectOrchestrator.executeStateMachine env runId).
Proof. unfold_run. frame. Qed.

(** X14. The state machine of a run keeps to its own: whatever the
    provider, the models and the stores do, it creates no run and deletes
    none, changes the row of no other run, never deletes or rewrites an
    evidence or claim row (the two tables only grow at their end), and leaves
    the storage of the object as it is. *)
Theorem X14_run_keeps_to_its_own (env : Env) (runId : string) (w : World) :
  let w' := (SubjectOrchestrator.executeStateMachine env runId w).2 in
  run_ids w' = run_ids w
  /\ (forall other, other <> runId -> w_runs w' !! other = w_runs w !! other)
  /\ w_evidence w `prefix_of` w_evidence w'
  /\ w_claims w `prefix_of` w_claims w'
  /\ storage w' = storage w.
Proof.
  intros w'. subst w'. split; [apply executeStateMachine_run_ids|].
  split; [intros other Hne; by apply (executeStateMachine_run_row env runId other)|].
  split; [apply executeStateMachine_evidence|].
  split; [apply executeStateMachine_claims|].
  apply executeStateMachine_storage.
Qed.

(** ** The order of the status writes *)

Lemma status_writes_app evs2 evs1 :
  status_writes (evs2 ++ evs1) = status_writes evs1 ++ status_writes evs2.
Proof. unfold status_writes. by rewrite rev_app_distr, omap_app. Qed.

Lemma status_writes_quiet evs :
  Forall no_status_write evs -> status_writes evs = [].
Proof.
  unfold status_writes. intros H.
  assert (Hr : Forall no_status_write (rev evs)).
  { apply Forall_forall. intros e He. rewrite Forall_forall in H. apply H.
    by apply list_elem_of_In, in_rev, list_elem_of_In in He. }
  induction Hr as [|e l He _ IH]; [done|]. simpl.
  destruct e as [[] []| | |]; simpl in *; done.
Qed.

Lemma follows_bind {A B} S1 S2 (m : M A) (k : A -> M B) :
  completed ∉ S1 ->
  follows S1 m -> (forall a, follows S2 (k a)) -> follows (S1 ++ S2) (bind m k).
Proof.
  intros Hc Hm Hk w. unfold bind. destruct (Hm w) as (evs1 & E1 & H1).
  destruct (m w) as [[a|e] w1]; simpl in *.
  - destruct (Hk a w1) as (evs2 & E2 & H2). exists (evs2 ++ evs1).
    split; [by rewrite E2, E1, app_assoc|]. rewrite status_writes_app.
    destruct ((k a w1).1); [by rewrite H1, H2|].
    destruct H2 as [Hp Hn]. rewrite H1. split; [by apply prefix_app|].
    rewrite elem_of_app. tauto.
  - exists evs1. split; [done|]. destruct H1 as [Hp Hn].
    split; [by apply prefix_app_r|done].
Qed.

Lemma follows_quiet {A} (m : M A) :
  steps (log_grows no_status_write) m -> follows [] m.
Proof.
  intros H w. destruct (H w) as (evs & E & F). exists evs. split; [done|].
  rewrite (status_writes_quiet _ F).
  destruct ((m w).1); [done|]. split; [done|]. by intros ?%elem_of_nil.
Qed.

Lemma follows_update env runId s ec cc em :
  follows [s] (CanonicalMemory.updateSubjectRunStatus env runId s ec cc em).
Proof.
  intros w. unfold CanonicalMemory.updateSubjectRunStatus,
    CanonicalMemory.d1_run.
  destruct (db_fault env _ _); simpl.
  - eexists [_]. split; [reflexivity|]. simpl.
    split; [apply prefix_nil|by intros ?%elem_of_nil].
  - eexists [_]. split; [reflexivity|]. reflexivity.
Qed.

Lemma quiet_post_trigger env i :
  steps (log_grows no_status_write) (Scraper.post_trigger env i).
Proof.
  intros w. unfold Scraper.post_trigger.
  destruct (provider_trigger env _ _); simpl;
    (eexists [_]; split; [reflexivity|by repeat constructor]).
Qed.

Lemma quiet_d1_run env op :
  match op with UpdateRun _ _ _ _ _ => False | _ => True end ->
  steps (log_grows no_status_write) (CanonicalMemory.d1_run env op).
Proof.
  intros Hop w. unfold CanonicalMemory.d1_run.
  destruct (db_fault env (w_db_ops w) op); destruct op; simpl; try done;
    (eexists [_]; split; [reflexivity|by repeat constructor]).
Qed.

Lemma quiet_generateEmbedding env text :
  steps (log_grows no_status_write) (VectorMemory.generateEmbedding env text).
Proof.
  intros w. unfold VectorMemory.generateEmbedding.
  destruct (ai_embed env _ _); simpl;
    (eexists [_]; split; [reflexivity|by repeat constructor]).
Qed.

Lemma quiet_upsert env i v :
  steps (log_grows no_status_write) (VectorMemory.upsert env i v).
Proof.
  intros w. unfold VectorMemory.upsert.
  destruct (vec_fault env _ _); simpl;
    (eexists [_]; split; [reflexivity|by repeat constructor]).
Qed.

#[global] Hint Resolve quiet_post_trigger quiet_generateEmbedding quiet_upsert
  : frame.
#[global] Hint Extern 2 (steps (log_grows no_status_write)
                               (CanonicalMemory.d1_run _ _)) =>
  apply quiet_d1_run; exact I : frame.
#[global] Hint Extern 5 (steps (log_grows no_status_write) _) =>
  apply steps_log_same; solve [auto with frame nocore] : frame.

Ltac not_completed :=
  let H := fresh in
  intros H; repeat (apply elem_of_cons in H as [H|H]; [discriminate|]);
  by apply elem_of_nil in H.

(** A step of a stage: a status write, or code that writes no status. *)
Ltac follows_step :=
  lazymatch goal with
  | |- follows (?s :: ?S)
         (bind (CanonicalMemory.updateSubjectRunStatus _ _ ?s _ _ _) _) =>
      apply (follows_bind [s] S);
      [not_completed | apply follows_update | intros ?]
  | |- follows ?S (bind _ _) =>
      apply (follows_bind [] S);
      [not_completed | apply follows_quiet; unfold_run; frame | intros ?]
  | |- follows [_] (CanonicalMemory.updateSubjectRunStatus _ _ _ _ _ _) =>
      apply follows_update
  | |- follows [] _ => apply follows_quiet; unfold_run; frame
  end.

Lemma follows_stage_discover env runId :
  follows [discover; fetch] (SubjectOrchestrator.stage_discover env runId).
Proof.
  unfold SubjectOrchestrator.stage_discover,
    SubjectOrchestrator.updateRunStatus.
  repeat follows_step.
Qed.

Lemma follows_stage_fetch env runId run :
  follows [normalize] (SubjectOrchestrator.stage_fetch env runId run).
Proof.
  unfold SubjectOrchestrator.stage_fetch. repeat follows_step.
Qed.

Lemma follows_stage_extract env runId evidence :
  follows [extract; verify]
          (SubjectOrchestrator.stage_extract env runId evidence).
Proof.
  unfold SubjectOrchestrator.stage_extract,
    SubjectOrchestrator.updateRunStatus.
  repeat follows_step.
Qed.

Lemma follows_stage_finish env runId claims evidence :
  follows [upsert; synthesize; publish; completed]
          (SubjectOrchestrator.stage_finish env runId claims evidence).
Proof.
  unfold SubjectOrchestrator.stage_finish,
    SubjectOrchestrator.updateRunStatus.
  repeat follows_step.
Qed.

Lemma follows_stages env runId :
  follows pipeline
    (run <- SubjectOrchestrator.stage_discover env runId ;;
     evidence <- SubjectOrchestrator.stage_fetch env runId run ;;
     r <- SubjectOrchestrator.stage_extract env runId evidence ;;
     SubjectOrchestrator.stage_finish env runId r.1 r.2).
Proof.
  apply (follows_bind [discover; fetch]
           [normalize; extract; verify; upsert; synthesize; publish;
            completed]);
    [not_completed|apply follows_stage_discover|intros run].
  apply (follows_bind [normalize]
           [extract; verify; upsert; synthesize; publish; completed]);
    [not_completed|apply follows_stage_fetch|intros evidence].
  apply (follows_bind [extract; verify]
           [upsert; synthesize; publish; completed]);
    [not_completed|apply follows_stage_extract|intros r].
  apply follows_stage_finish.
Qed.

Lemma prefix_take {A} (l S : list A) :
  l `prefix_of` S -> l = take (length l) S.
Proof. intros [k ->]. by rewrite take_app_length. Qed.

Lemma update_writes env runId s ec cc em w :
  exists ev,
    w_log (CanonicalMemory.updateSubjectRunStatus env runId s ec cc em w).2
    = [ev] ++ w_log w
    /\ status_writes [ev]
       = match (CanonicalMemory.updateSubjectRunStatus env runId s ec cc em
                  w).1 with
         | Ok _ => [s]
         | Throw _ => []
         end.
Proof.
  unfold CanonicalMemory.updateSubjectRunStatus, CanonicalMemory.d1_run.
  destruct (db_fault env _ _); simpl; by eexists.
Qed.

(** X15. The statuses that a run writes to D1 never go backwards: for any
    behaviour of the provider, the models and the stores, the status writes
    that D1 accepts during [executeStateMachine] are the first [n] of
    discover, fetch, normalize, extract, verify, upsert, synthesize, publish,
    completed, in this order, followed by at most one write of [error]; and
    [error] is never written after [completed]. *)
Theorem X15_status_writes_in_order (env : Env) (runId : string) (w : World) :
  exists evs n,
    w_log (SubjectOrchestrator.executeStateMachine env runId w).2
    = evs ++ w_log w
    /\ (status_writes evs = take n pipeline
        \/ (n < 9 /\ status_writes evs = take n pipeline ++ [error])).
Proof.
  unfold SubjectOrchestrator.executeStateMachine,
    SubjectOrchestrator.run_stages, try_catch.
  assert (Hget : follows [] (CanonicalMemory.getSubjectRun env runId))
    by follows_step.
  unfold bind at 1. destruct (Hget w) as (evs0 & E0 & H0).
  destruct (CanonicalMemory.getSubjectRun env runId w) as [[run|e] w0];
    simpl in *.
  - destruct run as [r|].
    + destruct (follows_stages env runId w0) as (evs1 & E1 & H1).
      match goal with
      | |- context [bind ?m ?k w0] =>
          change (bind m k w0) with
            ((run <- SubjectOrchestrator.stage_discover env runId ;;
              evidence <- SubjectOrchestrator.stage_fetch env runId run ;;
              r <- SubjectOrchestrator.stage_extract env runId evidence ;;
              SubjectOrchestrator.stage_finish env runId r.1 r.2) w0)
      end.
      destruct ((run <- SubjectOrchestrator.stage_discover env runId ;;
                 evidence <- SubjectOrchestrator.stage_fetch env runId run ;;
                 r <- SubjectOrchestrator.stage_extract env runId evidence ;;
                 SubjectOrchestrator.stage_finish env runId r.1 r.2) w0)
        as [[[]|e] w1]; simpl in *.
      * exists (evs1 ++ evs0), 9. split; [by rewrite E1, E0, app_assoc|].
        left. by rewrite status_writes_app, H0, H1.
      * destruct H1 as [Hp Hn].
        destruct (update_writes env runId error None None (Some e) w1)
          as (ev & E2 & H2).
        exists ([ev] ++ evs1 ++ evs0), (length (status_writes evs1)).
        split; [by rewrite E2, E1, E0, !app_assoc|].
        rewrite !status_writes_app, H0, H2. simpl.
        rewrite <- (prefix_take _ _ Hp).
        assert (Hlt : length (status_writes evs1) < 9).
        { destruct (decide (length (status_writes evs1) < 9)) as [|Hge];
            [done|].
          exfalso. apply Hn. pose proof (prefix_length _ _ Hp) as Hl.
          rewrite (prefix_take _ _ Hp).
          replace (length (status_writes evs1)) with 9
            by (unfold pipeline in Hl; simpl in Hl; lia).
          simpl. set_solver. }
        destruct ((CanonicalMemory.updateSubjectRunStatus env runId error
                     None None (Some e) w1).1).
        -- by right.
        -- left. by rewrite app_nil_r.
    + exists evs0, 0. split; [done|]. left. by rewrite H0.
  - destruct H0 as [Hp _]. apply prefix_nil_inv in Hp.
    destruct (update_writes env runId error None None (Some e) w0)
      as (ev & E2 & H2).
    exists ([ev] ++ evs0), 0. split; [by rewrite E2, E0, app_assoc|].
    rewrite status_writes_app, Hp, H2. simpl.
    destruct ((CanonicalMemory.updateSubjectRunStatus env runId error
                 None None (Some e) w0).1).
    + right. split; [lia|done].
    + by left.
Qed.

(** ** The extract stage *)

Lemma frame_d1_triggers env op :
  steps (same w_triggers) (CanonicalMemory.d1_run env op).
Proof.
  intros w. unfold CanonicalMemory.d1_run.
  destruct (db_fault env _ _); [done|]. by destruct op.
Qed.

Lemma frame_d1_claims env op :
  match op with InsertClaim _ => False | _ => True end ->
  steps (same w_claims) (CanonicalMemory.d1_run env op).
Proof.
  intros Hop w. unfold CanonicalMemory.d1_run.
  destruct (db_fault env _ _); [done|]. by destruct op.
Qed.

#[global] Hint Resolve frame_d1_triggers : frame.
#[global] Hint Extern 2 (steps (same w_claims) (CanonicalMemory.d1_run _ _)) =>
  apply frame_d1_claims; exact I : frame.

Lemma new_claim_spec env ev cd w :
  exists c,
    SubjectOrchestrator.new_claim env ev cd w = (Ok c, set_uuid (S (w_uuid w)) w)
    /\ subject_id c = ev_subject_id ev
    /\ predicate c = cd_predicate cd
    /\ object c = cd_object cd
    /\ confidence c = cd_confidence cd
    /\ policy_tags c = "extracted:ai"
    /\ last_verified_at c = first_seen_at c.
Proof. eexists. split; [reflexivity|]. simpl. done. Qed.

Lemma push_claims_spec env ev x :
  forall acc w,
    match claims x with
    | None =>
        exists e, SubjectOrchestrator.push_claims env ev x acc w = (Throw e, w)
    | Some cds =>
        exists cs w',
          SubjectOrchestrator.push_claims env ev x acc w = (Ok (acc ++ cs), w')
          /\ Forall (fun c => exists cd,
                       cd ∈ cds
                       /\ subject_id c = ev_subject_id ev
                       /\ predicate c = cd_predicate cd
                       /\ object c = cd_object cd
                       /\ confidence c = cd_confidence cd
                       /\ policy_tags c = "extracted:ai"
                       /\ last_verified_at c = first_seen_at c) cs
    end.
Proof.
  intros acc w. unfold SubjectOrchestrator.push_claims.
  destruct (claims x) as [cds|]; [|by eexists].
  assert (forall l acc w,
             exists cs w',
               for_acc l acc
                 (fun claimData acc' =>
                    claim <- SubjectOrchestrator.new_claim env ev claimData ;;
                    ret (acc' ++ [claim])) w
               = (Ok (acc ++ cs), w')
               /\ Forall (fun c => exists cd,
                            cd ∈ l
                            /\ subject_id c = ev_subject_id ev
                            /\ predicate c = cd_predicate cd
                            /\ object c = cd_object cd
                            /\ confidence c = cd_confidence cd
                            /\ policy_tags c = "extracted:ai"
                            /\ last_verified_at c = first_seen_at c) cs) as H.
  { clear. induction l as [|cd l IH]; intros acc w; simpl.
    - exists [], w. by rewrite app_nil_r.
    - destruct (new_claim_spec env ev cd w) as (c & E & Hc).
      rewrite (bind_ok _ _ _ _ _ (bind_ok _ _ _ _ _ E)).
      destruct (IH (acc ++ [c]) (set_uuid (S (w_uuid w)) w))
        as (cs & w' & E' & F).
      exists (c :: cs), w'. split.
      + cbv beta. rewrite E'. by rewrite <- app_assoc.
      + constructor.
        * exists cd. split; [left|done].
        * eapply Forall_impl; [exact F|]. simpl.
          intros c' (cd' & Hin & H'). exists cd'. split; [by right|done]. }
  apply H.
Qed.

Lemma extract_one_spec env ev acc w :
  exists cs ev' w',
    SubjectOrchestrator.extract_one env ev acc w = (Ok (acc ++ cs, ev'), w')
    /\ extraction_attached env ev ev'
    /\ Forall (extracted_from ev') cs.
Proof.
  unfold SubjectOrchestrator.extract_one.
  destruct (extraction ev) as [x|] eqn:Ex.
  - pose proof (push_claims_spec env ev x acc w) as H.
    destruct (claims x) as [cds|] eqn:Ec.
    + destruct H as (cs & w' & E & F). exists cs, ev, w'.
      split; [apply try_catch_ok; by rewrite (bind_ok _ _ _ _ _ E)|].
      split; [by left|].
      eapply Forall_impl; [exact F|]. simpl.
      intros c (cd & Hin & H'). by exists x, cds, cd.
    + destruct H as (e & E). exists [], ev, w. rewrite app_nil_r.
      split; [|split; [by left|constructor]].
      unfold try_catch, bind. by rewrite E.
  - destruct (ai_extract env ev) as [st|msg| |x] eqn:Ea.
    + exists [], ev, w. rewrite app_nil_r. split; [done|].
      split; [by left|constructor].
    + exists [], ev, w. rewrite app_nil_r. split; [done|].
      split; [by left|constructor].
    + exists [], ev. rewrite app_nil_r.
      assert (T : total
                    (try_catch
                       (CanonicalMemory.createEvidence env ev ;;;
                        throw
                          "Cannot read properties of null (reading 'claims')")
                       (fun _ => ret (acc, ev)))) by total.
      destruct (T w) as (r & w' & E). exists w'. rewrite E.
      split; [|split; [by left|constructor]].
      assert (Y : yields (fun r => r = (acc, ev))
                    (try_catch
                       (CanonicalMemory.createEvidence env ev ;;;
                        throw
                          "Cannot read properties of null (reading 'claims')")
                       (fun _ => ret (acc, ev)))).
      { apply yields_try_catch; [|intros; by apply yields_ret].
        apply yields_bind. intros _. apply yields_throw. }
      by rewrite (Y _ _ _ E).
    + set (ev' := set_extraction (Some x) ev).
      assert (Ha : extraction_attached env ev ev') by (right; eauto).
      unfold try_catch, bind at 1.
      destruct (CanonicalMemory.createEvidence env ev' w) as [[row|e] w1].
      2: { exists [], ev', w1. rewrite app_nil_r. split; [done|].
           split; [done|constructor]. }
      pose proof (push_claims_spec env ev' x acc w1) as H.
      destruct (claims x) as [cds|] eqn:Ec.
      * destruct H as (cs & w' & E & F). exists cs, ev', w'.
        rewrite (bind_ok _ _ _ _ _ E). split; [done|]. split; [done|].
        eapply Forall_impl; [exact F|]. simpl.
        intros c (cd & Hin & H'). by exists x, cds, cd.
      * destruct H as (e & E). exists [], ev', w1. rewrite app_nil_r.
        unfold bind. rewrite E. split; [done|]. split; [done|constructor].
Qed.

Lemma extractClaimsFromEvidence_acc env evidence :
  forall acc w,
    exists cs evidence' w',
      for_acc evidence acc
        (fun ev acc =>
           r <- SubjectOrchestrator.extract_one env ev acc.1 ;;
           ret (r.1, acc.2 ++ [r.2])) w
      = (Ok (acc.1 ++ cs, acc.2 ++ evidence'), w')
      /\ Forall2 (extraction_attached env) evidence evidence'
      /\ Forall (fun c => exists e', e' ∈ evidence' /\ extracted_from e' c) cs.
Proof.
  induction evidence as [|ev evidence IH]; intros acc w; simpl.
  - exists [], [], w. rewrite !app_nil_r. destruct acc. by repeat split.
  - destruct (extract_one_spec env ev acc.1 w) as (cs & ev' & w1 & E & Ha & F).
    rewrite (bind_ok _ _ _ _ _ (bind_ok _ _ _ _ _ E)). cbv beta.
    cbn [fst snd].
    destruct (IH (acc.1 ++ cs, acc.2 ++ [ev']) w1)
      as (cs' & evidence' & w' & E' & Ha' & F').
    exists (cs ++ cs'), (ev' :: evidence'), w'. simpl in E'.
    split; [by rewrite E', <- !app_assoc|]. split; [by constructor|].
    apply Forall_app. split.
    + eapply Forall_impl; [exact F|]. simpl. intros c Hc.
      exists ev'. split; [left|done].
    + eapply Forall_impl; [exact F'|]. simpl. intros c (e' & Hin & Hc).
      exists e'. split; [by right|done].
Qed.

Lemma steps_claims_extractClaimsFromEvidence env evidence :
  steps (same w_claims)
        (SubjectOrchestrator.extractClaimsFromEvidence env evidence).
Proof. unfold_run. frame. Qed.

Lemma steps_triggers_extractClaimsFromEvidence env evidence :
  steps (same w_triggers)
        (SubjectOrchestrator.extractClaimsFromEvidence env evidence).
Proof. unfold_run. frame. Qed.

(** X16. The extract stage never throws and returns the evidence it was
    given, record by record and in the same order; a record is changed only
    by attaching the extraction that the model returned for it, and only if
    it had none. Every claim it returns was built from a claim candidate of
    the extraction of one of these records: it has the subject of the
    record, the predicate, object and confidence of the candidate, the tag
    [extracted:ai] and one timestamp for first seen and last verified. The
    stage writes no claim to D1, changes no run and sends no request. *)
Theorem X16_extract_stage
    (env : Env) (evidence : list Evidence) (w : World) :
  exists claims evidence' w',
    SubjectOrchestrator.extractClaimsFromEvidence env evidence w
    = (Ok (claims, evidence'), w')
    /\ Forall2 (extraction_attached env) evidence evidence'
    /\ Forall (fun c => exists e', e' ∈ evidence' /\ extracted_from e' c)
              claims
    /\ w_claims w' = w_claims w
    /\ w_runs w' = w_runs w
    /\ w_triggers w' = w_triggers w.
Proof.
  destruct (extractClaimsFromEvidence_acc env evidence ([], []) w)
    as (cs & evidence' & w' & E & Ha & F).
  exists cs, evidence', w'.
  pose proof (steps_claims_extractClaimsFromEvidence env evidence w) as H1.
  pose proof (steps_runs_extractClaimsFromEvidence env evidence w) as H2.
  pose proof (steps_triggers_extractClaimsFromEvidence env evidence w) as H3.
  unfold SubjectOrchestrator.extractClaimsFromEvidence in *.
  rewrite E in H1, H2, H3. by repeat split.
Qed.

(** ** The rows that the upsert stage adds *)

Lemma createEvidence_row env ev w :
  exists w' rows,
    try_catch (CanonicalMemory.createEvidence env ev ;;; ret tt)
              (fun _ => ret tt) w = (Ok tt, w')
    /\ w_evidence w' = w_evidence w ++ rows
    /\ w_claims w' = w_claims w /\ w_runs w' = w_runs w
    /\ (rows = [] \/ exists i, rows = [set_ev_id i ev])
    /\ (db_fault env (w_db_ops w)
          (InsertEvidence (set_ev_id ("evid_" +:+ pretty (w_uuid w)) ev))
        = None -> exists i, rows = [set_ev_id i ev]).
Proof.
  unfold CanonicalMemory.createEvidence, CanonicalMemory.d1_run, try_catch,
    bind, randomUUID, ret. simpl.
  destruct (db_fault env _ _) as [message|]; simpl.
  - eexists _, []. rewrite app_nil_r. repeat split; auto. by intros ?.
  - eexists _, [_]. repeat split; eauto.
Qed.

Lemma createClaim_row env c w :
  exists w' rows,
    try_catch (CanonicalMemory.createClaim env c ;;; ret tt)
              (fun _ => ret tt) w = (Ok tt, w')
    /\ w_claims w' = w_claims w ++ rows
    /\ w_evidence w' = w_evidence w /\ w_runs w' = w_runs w
    /\ (rows = [] \/ exists i, rows = [set_id i c])
    /\ (db_fault env (w_db_ops w)
          (InsertClaim (set_id ("claim_" +:+ pretty (w_uuid w)) c))
        = None -> exists i, rows = [set_id i c]).
Proof.
  unfold CanonicalMemory.createClaim, CanonicalMemory.d1_run, try_catch,
    bind, randomUUID, ret. simpl.
  destruct (db_fault env _ _) as [message|]; simpl.
  - eexists _, []. rewrite app_nil_r. repeat split; auto. by intros ?.
  - eexists _, [_]. repeat split; eauto.
Qed.

Lemma set_ev_id_idemp i j e : set_ev_id i (set_ev_id j e) = set_ev_id i e.
Proof. done. Qed.

Lemma set_id_idemp i j c : set_id i (set_id j c) = set_id i c.
Proof. done. Qed.

Lemma upsert_evidence_rows env evidence :
  forall w, exists w' rows,
    for_of evidence
      (fun ev => try_catch (CanonicalMemory.createEvidence env ev ;;; ret tt)
                           (fun _ => ret tt)) w = (Ok tt, w')
    /\ w_evidence w' = w_evidence w ++ rows
    /\ w_claims w' = w_claims w /\ w_runs w' = w_runs w
    /\ map (set_ev_id "") rows `sublist_of` map (set_ev_id "") evidence
    /\ ((forall n op, db_fault env n op = None) ->
        map (set_ev_id "") rows = map (set_ev_id "") evidence).
Proof.
  induction evidence as [|ev evidence IH]; intros w; simpl.
  - exists w, []. rewrite app_nil_r. by repeat split.
  - destruct (createEvidence_row env ev w)
      as (w1 & r1 & E1 & He1 & Hc1 & Hr1 & Hrow & Hok).
    rewrite (bind_ok _ _ _ _ _ E1).
    destruct (IH w1) as (w' & rows & E & He & Hc & Hr & Hs & Heq).
    exists w', (r1 ++ rows). split; [done|].
    split; [by rewrite He, He1, app_assoc|].
    split; [congruence|]. split; [congruence|]. split.
    + destruct Hrow as [->|(i & ->)]; simpl.
      * by apply sublist_cons.
      * by apply sublist_skip.
    + intros Hnf. destruct (Hok (Hnf _ _)) as (i & ->). simpl.
      by rewrite (Heq Hnf).
Qed.

Lemma upsert_claim_rows env claims :
  forall w, exists w' rows,
    for_of claims
      (fun claim => try_catch (CanonicalMemory.createClaim env claim ;;; ret tt)
                              (fun _ => ret tt)) w = (Ok tt, w')
    /\ w_claims w' = w_claims w ++ rows
    /\ w_evidence w' = w_evidence w /\ w_runs w' = w_runs w
    /\ map (set_id "") rows `sublist_of` map (set_id "") claims
    /\ ((forall n op, db_fault env n op = None) ->
        map (set_id "") rows = map (set_id "") claims).
Proof.
  induction claims as [|c claims IH]; intros w; simpl.
  - exists w, []. rewrite app_nil_r. by repeat split.
  - destruct (createClaim_row env c w)
      as (w1 & r1 & E1 & Hc1 & He1 & Hr1 & Hrow & Hok).
    rewrite (bind_ok _ _ _ _ _ E1).
    destruct (IH w1) as (w' & rows & E & Hc & He & Hr & Hs & Heq).
    exists w', (r1 ++ rows). split; [done|].
    split; [by rewrite Hc, Hc1, app_assoc|].
    split; [congruence|]. split; [congruence|]. split.
    + destruct Hrow as [->|(i & ->)]; simpl.
      * by apply sublist_cons.
      * by apply sublist_skip.
    + intros Hnf. destruct (Hok (Hnf _ _)) as (i & ->). simpl.
      by rewrite (Heq Hnf).
Qed.

(** X17. The upsert stage only appends to D1: the evidence rows it adds
    are, up to their ids, a subsequence of the evidence it was given, in the
    same order, and the claim rows a subsequence of the claims; every row
    gets a new id. When D1 rejects no statement, every evidence record and
    every claim is stored, once. The runs are left as they are. *)
Theorem X17_upsert_appends_in_order
    (env : Env) (claims : list Claim) (evidence : list Evidence) (w : World) :
  exists w' erows crows,
    SubjectOrchestrator.upsertClaimsAndEvidence env claims evidence w
    = (Ok tt, w')
    /\ w_evidence w' = w_evidence w ++ erows
    /\ w_claims w' = w_claims w ++ crows
    /\ w_runs w' = w_runs w
    /\ map (set_ev_id "") erows `sublist_of` map (set_ev_id "") evidence
    /\ map (set_id "") crows `sublist_of` map (set_id "") claims
    /\ ((forall n op, db_fault env n op = None) ->
        map (set_ev_id "") erows = map (set_ev_id "") evidence
        /\ map (set_id "") crows = map (set_id "") claims).
Proof.
  destruct (upsert_evidence_rows env evidence w)
    as (w1 & erows & E1 & He1 & Hc1 & Hr1 & Hs1 & Heq1).
  destruct (upsert_claim_rows env claims w1)
    as (w2 & crows & E2 & Hc2 & He2 & Hr2 & Hs2 & Heq2).
  destruct (upsert_vector_spec env claims evidence) as (T & _ & F).
  cbv zeta in *. destruct (T w2) as ([] & w3 & E3).
  specialize (F w2). rewrite E3 in F. unfold same, tables in F.
  simpl in F.
  exists w3, erows, crows. split.
  - unfold SubjectOrchestrator.upsertClaimsAndEvidence,
      SubjectOrchestrator.upsert_canonical.
    by rewrite (bind_ok _ _ _ _ _ (eq_trans (bind_ok _ _ _ _ _ E1) E2)).
  - simplify_eq. split; [congruence|]. split; [congruence|].
    split; [congruence|]. split; [done|]. split; [done|].
    intros Hnf. split; [by apply Heq1|by apply Heq2].
Qed.

(** ** Starting a run *)

Lemma total_executeStateMachine_caught env runId :
  total (try_catch (SubjectOrchestrator.executeStateMachine env runId)
                   (fun _ => ret tt)).
Proof. total. Qed.

Lemma createSubjectRun_spec env subject user s ec cc w :
  let now := toISOString env (w_now w) in
  let run :=
    {| run_id := "run_" +:+ pretty (w_uuid w); subject_name := subject;
       user_id := user; status := s;
       evidence_count := ec; claims_count := cc; created_at := now;
       updated_at := now; error_message := None |} in
  CanonicalMemory.createSubjectRun env subject user s ec cc w
  = match db_fault env (w_db_ops w) (InsertRun run) with
    | Some message =>
        (Throw message,
         note_db (InsertRun run) false (w_runs w) (w_evidence w) (w_claims w)
                 (set_uuid (S (w_uuid w)) w))
    | None =>
        (Ok run,
         note_db (InsertRun run) true
                 (<[run_id run
                    := CanonicalMemory.inserted_run env run (w_now w)]>
                    (w_runs w))
                 (w_evidence w) (w_claims w) (set_uuid (S (w_uuid w)) w))
    end.
Proof.
  intros now run.
  unfold CanonicalMemory.createSubjectRun, CanonicalMemory.d1_run.
  cbv [bind randomUUID gets ret]. cbn [w_now w_db_ops set_uuid].
  fold now. fold run. by destruct (db_fault env (w_db_ops w) (InsertRun run)).
Qed.

(** X18. [startRun] creates the run before anything else: when D1 rejects
    the insert, it throws the error of D1, nothing is stored and no state
    machine is launched. Otherwise it returns the run as created (status
    [intake], no evidence, no claims, the fixed user), whatever becomes of the
    state machine, whose failure it never reports; the run is in D1 and the
    input type and the budget are in the storage of the object. *)
Theorem X18_startRun
    (env : Env) (subject : string) (inputType : InputType) (maxApiCalls : Z)
    (w : World) :
  let now := toISOString env (w_now w) in
  let run :=
    {| run_id := "run_" +:+ pretty (w_uuid w); subject_name := subject;
       user_id := "web-scraping-user"; status := intake;
       evidence_count := 0; claims_count := 0; created_at := now;
       updated_at := now; error_message := None |} in
  match db_fault env (w_db_ops w) (InsertRun run) with
  | Some message =>
      SubjectOrchestrator.startRun env subject inputType maxApiCalls w
      = (Throw message,
         note_db (InsertRun run) false (w_runs w) (w_evidence w) (w_claims w)
                 (set_uuid (S (w_uuid w)) w))
  | None =>
      exists w',
        SubjectOrchestrator.startRun env subject inputType maxApiCalls w
        = (Ok run, w')
        /\ run_present (run_id run) w'
        /\ storage w' = (Some inputType, Some maxApiCalls)
  end.
Proof.
  intros now run.
  pose proof (createSubjectRun_spec env subject "web-scraping-user" intake 0 0
                w) as Hc.
  cbv zeta in Hc. fold now in Hc. fold run in Hc.
  unfold SubjectOrchestrator.startRun.
  destruct (db_fault env (w_db_ops w) (InsertRun run)) as [message|].
  { unfold bind at 1. by rewrite Hc. }
  rewrite (bind_ok _ _ _ _ _ Hc).
  unfold bind at 1, SubjectOrchestrator.storage_put, modify. cbv beta iota.
  match goal with
  | |- context [bind _ _ ?w0] => set (w2 := w0)
  end.
  destruct (total_executeStateMachine_caught env (run_id run) w2)
    as ([] & w' & E).
  exists w'. split; [by rewrite (bind_ok _ _ _ _ _ E)|].
  assert (F1 : steps (same run_ids)
                 (try_catch
                    (SubjectOrchestrator.executeStateMachine env (run_id run))
                    (fun _ => ret tt))).
  { apply steps_try_catch; [apply _|apply executeStateMachine_run_ids|].
    intros; apply steps_ret, _. }
  assert (F2 : steps (same storage)
                 (try_catch
                    (SubjectOrchestrator.executeStateMachine env (run_id run))
                    (fun _ => ret tt))).
  { apply steps_try_catch; [apply _|apply executeStateMachine_storage|].
    intros; apply steps_ret, _. }
  specialize (F1 w2). specialize (F2 w2). rewrite E in F1, F2.
  unfold same in *. simpl in *. split; [|exact F2].
  unfold run_present. apply elem_of_dom. unfold run_ids in F1. rewrite F1.
  subst w2. simpl. apply elem_of_dom. rewrite lookup_insert_eq. eauto.
Qed.

(** ** Status writes *)

(** X19. A status write that D1 accepts changes the row of its run and
    nothing else: the status and the time of the update are set, a counter
    or an error message is overwritten only when one is given (so an error
    message, once written, stays), and the id, subject, user and creation
    time are kept. For a run that D1 does not hold the write succeeds all
    the same and creates nothing. *)
Theorem X19_status_write_is_partial
    (env : Env) (runId : string) (s : RunStatus)
    (evidenceCount claimsCount : option Z) (errorMessage : option string)
    (w : World) :
  db_fault env (w_db_ops w)
           (UpdateRun runId s evidenceCount claimsCount errorMessage) = None ->
  exists w',
    CanonicalMemory.updateSubjectRunStatus env runId s evidenceCount
      claimsCount errorMessage w = (Ok tt, w')
    /\ w_evidence w' = w_evidence w /\ w_claims w' = w_claims w
    /\ (forall other, other <> runId -> w_runs w' !! other = w_runs w !! other)
    /\ match w_runs w !! runId with
       | None => w_runs w' = w_runs w
       | Some r =>
           exists r',
             w_runs w' !! runId = Some r'
             /\ status r' = s
             /\ updated_at r' = toISOString env (w_now w)
             /\ evidence_count r' = default (evidence_count r) evidenceCount
             /\ claims_count r' = default (claims_count r) claimsCount
             /\ error_message r' = match errorMessage with
                                   | Some m => Some m
                                   | None => error_message r
                                   end
             /\ run_id r' = run_id r /\ subject_name r' = subject_name r
             /\ user_id r' = user_id r /\ created_at r' = created_at r
       end.
Proof.
  intros Hf. unfold CanonicalMemory.updateSubjectRunStatus,
    CanonicalMemory.d1_run. rewrite Hf.
  eexists. split; [reflexivity|]. simpl. split; [done|]. split; [done|].
  split; [intros other Hne; by apply lookup_alter_ne|].
  destruct (w_runs w !! runId) as [r|] eqn:Hr.
  - eexists. rewrite lookup_alter_eq, Hr. simpl. by repeat split.
  - apply map_eq. intros k. destruct (decide (k = runId)) as [->|Hne].
    + by rewrite lookup_alter_eq, Hr.
    + by rewrite lookup_alter_ne.
Qed.

(** The run of Alice, just created, is moved to [normalize] with two pieces
    of evidence and no message: the counter of claims and the error message
    stay as they were. *)
Lemma X19_witness :
  let w :=
    (CanonicalMemory.createSubjectRun Scenario.env_direct "Alice"
       "web-scraping-user" intake 0 0 Scenario.world0).2 in
  exists w',
    CanonicalMemory.updateSubjectRunStatus Scenario.env_direct "run_0"
      normalize (Some 2%Z) None None w = (Ok tt, w')
    /\ w_evidence w' = w_evidence w /\ w_claims w' = w_claims w
    /\ (forall other, other <> "run_0" -> w_runs w' !! other = w_runs w !! other)
    /\ match w_runs w !! "run_0" with
       | None => w_runs w' = w_runs w
       | Some r =>
           exists r',
             w_runs w' !! "run_0" = Some r'
             /\ status r' = normalize
             /\ updated_at r' = toISOString Scenario.env_direct (w_now w)
             /\ evidence_count r' = default (evidence_count r) (Some 2%Z)
             /\ claims_count r' = default (claims_count r) None
             /\ error_message r' = error_message r
             /\ run_id r' = run_id r /\ subject_name r' = subject_name r
             /\ user_id r' = user_id r /\ created_at r' = created_at r
       end.
Proof.
  intros w.
  apply (X19_status_write_is_partial Scenario.env_direct "run_0" normalize
           (Some 2%Z) None None w).
  reflexivity.
Defined.

(** ** The trigger requests of a run *)

Global Instance triggers_indexless : Indexless w_triggers.
Proof. by split. Qed.

Global Instance run_message_timeless runId : Timeless (run_message runId).
Proof. by split. Qed.
Global Instance run_message_offline runId : Offline (run_message runId).
Proof. by intros i w. Qed.
Global Instance run_message_indexless runId : Indexless (run_message runId).
Proof. by split. Qed.

(** A statement that is no insert of a run and no status write with an
    error message leaves the message of a run as it is. *)
Lemma frame_d1_run_message env runId op :
  match op with
  | InsertRun _ => False
  | UpdateRun _ _ _ _ (Some _) => False
  | _ => True
  end ->
  steps (same (run_message runId)) (CanonicalMemory.d1_run env op).
Proof.
  intros Hop w. unfold CanonicalMemory.d1_run.
  destruct (db_fault env _ _); [done|]. destruct op as [| | | |i s ec cc [m|]];
    try done.
  unfold same, run_message. simpl.
  destruct (decide (i = runId)) as [->|Hne].
  - rewrite lookup_alter_eq. by destruct (w_runs w !! runId).
  - by rewrite lookup_alter_ne.
Qed.

#[global] Hint Extern 2 (steps (same (run_message _))
                               (CanonicalMemory.d1_run _ _)) =>
  apply frame_d1_run_message; exact I : frame.







(** ** The run for a query of one token *)

Lemma bind_eq_l {A B} (m m' : M A) (k : A -> M B) w :
  m w = m' w -> bind m k w = bind m' k w.
Proof. unfold bind. by intros ->. Qed.

(** The fetch stage of such a run: the harvest returns at once, with no
    evidence. *)
Lemma stage_fetch_single_token env runId r q w :
  single_token q -> subject_name r = q ->
  default search (w_inputType w) = search ->
  SubjectOrchestrator.stage_fetch env runId (Some r) w
  = (CanonicalMemory.updateSubjectRunStatus env runId normalize (Some 0%Z)
       None None ;;;
     _ <- CanonicalMemory.getSubjectRun env runId ;;
     ret []) w.
Proof.
  intros Hq Hr Hit.
  unfold SubjectOrchestrator.stage_fetch, SubjectOrchestrator.subject_of,
    SubjectOrchestrator.harvestEvidence.
  rewrite !bind_gets, bind_ret, Hit, Hr.
  by rewrite (bind_ok _ _ _ _ _
                (harvestEvidence_single_token env q _ _ w Hq)).
Qed.

Lemma run_stages_single_token env runId r q w :
  run_statements_ok env ->
  w_runs w !! runId = Some r -> subject_name r = q ->
  default search (w_inputType w) = search ->
  single_token q ->
  exists w',
    SubjectOrchestrator.run_stages env runId w = (Ok tt, w')
    /\ has_status runId completed w'
    /\ w_triggers w' = w_triggers w
    /\ run_message runId w' = run_message runId w.
Proof.
  intros Hok Hr Hsub Hit Hq.
  destruct (run_stages_complete env runId Hok w) as ([] & w' & E & Hs);
    [by exists r|].
  exists w'. split; [done|]. split; [done|].
  revert E. unfold SubjectOrchestrator.run_stages.
  rewrite (bind_ok _ _ _ _ _ (getSubjectRun_ok env runId w Hok)), Hr.
  set (w1 := note_db _ _ _ _ _ w).
  destruct (stage_discover_spec env runId r w1 Hok Hr)
    as (r1 & w2 & E2 & Hr1 & Hs1 & Hst & Htr & _).
  assert (M2 : run_message runId w2 = run_message runId w).
  { assert (F : steps (same (run_message runId))
                  (SubjectOrchestrator.stage_discover env runId))
      by (unfold_run; frame).
    specialize (F w1). by rewrite E2 in F. }
  rewrite (bind_ok _ _ _ _ _ E2).
  assert (Hit2 : default search (w_inputType w2) = search).
  { unfold storage in Hst. injection Hst as Hi _. rewrite Hi. exact Hit. }
  rewrite (bind_eq_l _ _ _ _
             (stage_fetch_single_token env runId r1 q w2 Hq
                (eq_trans Hs1 Hsub) Hit2)).
  match goal with
  | |- ?m w2 = _ -> _ =>
      assert (F1 : steps (same w_triggers) m) by (unfold_run; frame);
      assert (F2 : steps (same (run_message runId)) m) by (unfold_run; frame);
      specialize (F1 w2); specialize (F2 w2)
  end.
  intros E. rewrite E in F1, F2. unfold same in F1, F2. simpl in *.
  split; congruence.
Qed.

(** C4 (as amended). For a run whose subject is a search query of one
    white-space separated token, the profile search fails before it sends a
    trigger request, with a message that asks for a first and a last name;
    the web search does not reach the provider either, so the harvest returns
    no evidence and no trigger request is sent. The harvester absorbs the
    failure, so the run is not aborted at intake: with D1 serving the
    statements on the run row it ends [completed], not [error], and no error
    message is written. *)
Theorem C4_single_token_search (env : Env) (q : string) :
  single_token q ->
  (forall w,
      Scraper.searchProfiles env q w
      = (Ok {| Scraper.sr_success := false; Scraper.sr_data := None;
               Scraper.sr_error :=
                 Some "Search query must contain at least first and last name";
               Scraper.sr_source := "linkedin-search";
               Scraper.sr_scrapedAt := toISOString env (w_now w);
               Scraper.sr_snapshotId := None |}, w))
  /\ (forall sources maxApiCalls w,
         HarvesterAgent.harvestEvidence env q sources search maxApiCalls w
         = (Ok [], w))
  /\ (forall runId r w,
         run_statements_ok env ->
         w_runs w !! runId = Some r -> subject_name r = q ->
         default search (w_inputType w) = search ->
         exists w',
           SubjectOrchestrator.executeStateMachine env runId w = (Ok tt, w')
           /\ has_status runId completed w'
           /\ w_triggers w' = w_triggers w
           /\ run_message runId w' = Some (error_message r)).
Proof.
  intros Hq. split; [|split].
  - intros w. by apply searchProfiles_single_token.
  - intros sources maxApiCalls w. by apply harvestEvidence_single_token.
  - intros runId r w Hok Hr Hsub Hit.
    destruct (run_stages_single_token env runId r q w Hok Hr Hsub Hit Hq)
      as (w' & E & Hs & Ht & Hm).
    exists w'. split.
    { unfold SubjectOrchestrator.executeStateMachine. by apply try_catch_ok. }
    split; [done|]. split; [done|].
    rewrite Hm. unfold run_message. by rewrite Hr.
Qed.

(** The search query [Alice] on a provider that accepts every request. *)
Lemma C4_witness :
  Scraper.searchProfiles Scenario.env_direct "Alice" Scenario.world0
  = (Ok {| Scraper.sr_success := false; Scraper.sr_data := None;
           Scraper.sr_error :=
             Some "Search query must contain at least first and last name";
           Scraper.sr_source := "linkedin-search";
           Scraper.sr_scrapedAt := "0";
           Scraper.sr_snapshotId := None |}, Scenario.world0)
  /\ HarvesterAgent.harvestEvidence Scenario.env_direct "Alice"
       ["web"; "linkedin"] search 5 Scenario.world0
     = (Ok [], Scenario.world0)
  /\ exists w',
       SubjectOrchestrator.executeStateMachine Scenario.env_direct "run_0"
         (Scenario.started Scenario.env_direct "Alice" search 5)
       = (Ok tt, w')
       /\ has_status "run_0" completed w'
       /\ w_triggers w' = 0
       /\ run_message "run_0" w' = Some None.
Proof.
  assert (Hq : single_token "Alice").
  { exists [], (list_ascii_of_string "Alice"), [].
    split; [reflexivity|]. split; [constructor|]. split; [constructor|].
    split; [discriminate|]. intros l1 s l2 E.
    destruct s as [|a [|b [|c [|]]]]; try reflexivity.
    all: repeat (destruct l1 as [|? l1]; simplify_eq/=; try reflexivity). }
  destruct (C4_single_token_search Scenario.env_direct "Alice" Hq)
    as (H1 & H2 & H3).
  split; [apply H1|]. split; [apply H2|].
  eapply (H3 "run_0"
            {| run_id := "run_0"; subject_name := "Alice";
               user_id := "web-scraping-user"; status := intake;
               evidence_count := 0; claims_count := 0;
               created_at := "sql:0"; updated_at := "sql:0";
               error_message := None |}).
  - exact run_statements_ok_direct.
  - vm_compute. reflexivity.
  - reflexivity.
  - reflexivity.
Defined.

(** C4 as stated fails: the run for the search query [Alice] sends no
    trigger request, as C4 says, but it ends [completed], with no error
    message. *)
Lemma C4_counterexample :
  let w := Scenario.after_run Scenario.env_direct "Alice" search 5 in
  w_triggers w = 0
  /\ status <$> (w_runs w !! "run_0") = Some completed
  /\ error_message <$> (w_runs w !! "run_0") = Some None.
Proof. vm_compute. done. Qed.

(** * The compliance agent *)

Lemma prefix_append n h post :
  String.prefix n h = true -> String.prefix n (h +:+ post) = true.
Proof.
  revert h. induction n as [|a n IH]; intros h; [by destruct h; destruct post|].
  destruct h as [|b h]; [done|]. simpl.
  destruct (ascii_dec a b); [apply IH|done].
Qed.

Lemma includes_append_r n h post :
  includes n h = true -> includes n (h +:+ post) = true.
Proof.
  induction h as [|a h IH]; simpl.
  - rewrite orb_false_r. intros H. destruct n; [|done].
    by destruct post.
  - intros [H|H]%orb_true_iff; apply orb_true_iff.
    + left. by apply (prefix_append n (String a h)).
    + right. by apply IH.
Qed.

Lemma includes_append_l n pre h :
  includes n h = true -> includes n (pre +:+ h) = true.
Proof.
  intros H. induction pre as [|a pre IH]; [done|].
  change (String a pre +:+ h) with (String a (pre +:+ h)).
  cbn [includes]. rewrite IH. apply orb_true_r.
Qed.

Lemma includes_embedded n pre h post :
  includes n h = true -> includes n (pre +:+ h +:+ post) = true.
Proof. intros H. by apply includes_append_l, includes_append_r. Qed.

(** X21. The allow-list of data sources is applied to substrings: a source
    is allowed as soon as one of the allowed names occurs somewhere in it,
    so every string that contains an allowed source is allowed, whatever
    stands before and after it. *)
Theorem X21_allowed_sources_by_substring (source pre post : string) :
  ComplianceAgent.isDataSourceAllowed source = true ->
  ComplianceAgent.isDataSourceAllowed (pre +:+ source +:+ post) = true.
Proof.
  unfold ComplianceAgent.isDataSourceAllowed.
  rewrite !existsb_exists. intros (allowed & Hin & H).
  exists allowed. split; [done|]. by apply includes_embedded.
Qed.

Lemma X21_witness :
  ComplianceAgent.isDataSourceAllowed
    ("https://tracker.example/?ref=" +:+ "linkedin.com" +:+ "&private=1")
  = true.
Proof.
  apply (X21_allowed_sources_by_substring "linkedin.com"
           "https://tracker.example/?ref=" "&private=1").
  reflexivity.
Defined.

(** * Reading the canonical store *)

Lemma order_by_desc_spec {A} (key : A -> string) (rows : list A) :
  CanonicalMemory.order_by_desc key rows ≡ₚ rows
  /\ Sorted (CanonicalMemory.descending key)
            (CanonicalMemory.order_by_desc key rows).
Proof.
  unfold CanonicalMemory.order_by_desc. split.
  - apply merge_sort_Permutation.
  - apply Sorted_merge_sort. intros x y. unfold CanonicalMemory.descending.
    apply String.leb_total.
Qed.

(** X22. [getClaimsBySubject] and [getEvidenceBySubject] return the rows
    that D1 holds for the subject, each row once and no other row, the claims
    in descending order of [last_verified_at] and the evidence in descending
    order of [collected_at]; they change no table. *)
Theorem X22_rows_of_a_subject
    (query_fault : nat -> CanonicalMemory.DbQuery -> option string)
    (subjectId : string) (w : World) :
  (forall n q, query_fault n q = None) ->
  (exists rows w',
      CanonicalMemory.getClaimsBySubject query_fault subjectId w = (Ok rows, w')
      /\ tables w' = tables w
      /\ rows ≡ₚ filter (fun c => subject_id c = subjectId) (w_claims w)
      /\ Sorted (CanonicalMemory.descending last_verified_at) rows)
  /\ (exists rows w',
         CanonicalMemory.getEvidenceBySubject query_fault subjectId w
         = (Ok rows, w')
         /\ tables w' = tables w
         /\ rows ≡ₚ filter (fun e => ev_subject_id e = subjectId)
                           (w_evidence w)
         /\ Sorted (CanonicalMemory.descending collected_at) rows).
Proof.
  intros Hf. split.
  - unfold CanonicalMemory.getClaimsBySubject, CanonicalMemory.d1_query, bind,
      gets. rewrite Hf. eexists _, _. split; [reflexivity|]. split; [done|].
    apply order_by_desc_spec.
  - unfold CanonicalMemory.getEvidenceBySubject, CanonicalMemory.d1_query,
      bind, gets. rewrite Hf. eexists _, _. split; [reflexivity|].
    split; [done|]. apply order_by_desc_spec.
Qed.

(** The store after a direct profile run, read for the subject of the run. *)
Lemma X22_witness :
  let w := Scenario.after_run Scenario.env_direct Scenario.alice_url
             linkedin 1 in
  (exists rows w',
      CanonicalMemory.getClaimsBySubject (fun _ _ => None) Scenario.alice_url w
      = (Ok rows, w')
      /\ tables w' = tables w
      /\ rows ≡ₚ filter (fun c => subject_id c = Scenario.alice_url)
                        (w_claims w)
      /\ Sorted (CanonicalMemory.descending last_verified_at) rows)
  /\ (exists rows w',
         CanonicalMemory.getEvidenceBySubject (fun _ _ => None)
           Scenario.alice_url w
         = (Ok rows, w')
         /\ tables w' = tables w
         /\ rows ≡ₚ filter (fun e => ev_subject_id e = Scenario.alice_url)
                           (w_evidence w)
         /\ Sorted (CanonicalMemory.descending collected_at) rows).
Proof.
  intros w.
  apply (X22_rows_of_a_subject (fun _ _ => None) Scenario.alice_url w).
  reflexivity.
Defined.

Lemma filter_all {A} (P : A -> Prop) `{!forall x, Decision (P x)} (l : list A) :
  Forall P l -> filter P l = l.
Proof.
  induction 1 as [|x l Hx _ IH]; [done|].
  rewrite filter_cons. destruct (decide (P x)); [by rewrite IH|done].
Qed.

(** X23. A claim that [createClaim] has stored is among the claims that
    [getClaimsBySubject] returns for its subject, under the id that
    [createClaim] gave it; and [deleteClaim] with that id takes it out
    again: when no other row has the id, the tables are then as they were
    before the claim was created. *)
Theorem X23_claim_round_trip
    (env : Env) (query_fault : nat -> CanonicalMemory.DbQuery -> option string)
    (claim : Claim) (w : World) :
  let stored := set_id ("claim_" +:+ pretty (w_uuid w)) claim in
  db_fault env (w_db_ops w) (InsertClaim stored) = None ->
  (forall n q, query_fault n q = None) ->
  Forall (fun row => id row <> id stored) (w_claims w) ->
  (exists rows w',
      (CanonicalMemory.createClaim env claim ;;;
       CanonicalMemory.getClaimsBySubject query_fault (subject_id claim)) w
      = (Ok rows, w')
      /\ stored ∈ rows)
  /\ (exists w',
         (c <- CanonicalMemory.createClaim env claim ;;
          CanonicalMemory.deleteClaim query_fault (id c)) w = (Ok tt, w')
         /\ tables w' = tables w).
Proof.
  intros stored Hf Hq Hfresh.
  assert (Ec : CanonicalMemory.createClaim env claim w
               = (Ok stored,
                  note_db (InsertClaim stored) true (w_runs w) (w_evidence w)
                          (w_claims w ++ [stored])
                          (set_uuid (S (w_uuid w)) w))).
  { unfold CanonicalMemory.createClaim, CanonicalMemory.d1_run, bind,
      randomUUID, ret. simpl. fold stored. by rewrite Hf. }
  split.
  - rewrite (bind_ok _ _ _ _ _ Ec).
    unfold CanonicalMemory.getClaimsBySubject, CanonicalMemory.d1_query, bind,
      gets. rewrite Hq. eexists _, _. split; [reflexivity|].
    destruct (order_by_desc_spec last_verified_at
                (filter (fun c => subject_id c = subject_id claim)
                        (w_claims w ++ [stored]))) as [Hp _].
    simpl. rewrite Hp, filter_app, elem_of_app. right.
    apply list_elem_of_filter. split; [done|]. by apply list_elem_of_singleton.
  - rewrite (bind_ok _ _ _ _ _ Ec).
    unfold CanonicalMemory.deleteClaim, CanonicalMemory.d1_query.
    rewrite Hq. eexists. split; [reflexivity|]. unfold tables. simpl.
    f_equal. rewrite filter_app, (filter_all _ _ Hfresh), filter_cons.
    destruct (decide (_ <> _)); [done|]. by rewrite app_nil_r.
Qed.

(** The claim [works_at Acme] of Alice on an empty store. *)
Lemma X23_witness :
  let claim :=
    {| id := ""; subject_id := Scenario.alice_url; predicate := "works_at";
       object := "Acme"; confidence := 0.9%float; first_seen_at := "0";
       last_verified_at := "0"; provenance_json := "{}";
       policy_tags := "extracted:ai" |} in
  let stored := set_id "claim_0" claim in
  (exists rows w',
      (CanonicalMemory.createClaim Scenario.env_direct claim ;;;
       CanonicalMemory.getClaimsBySubject (fun _ _ => None)
         (subject_id claim)) Scenario.world0
      = (Ok rows, w')
      /\ stored ∈ rows)
  /\ (exists w',
         (c <- CanonicalMemory.createClaim Scenario.env_direct claim ;;
          CanonicalMemory.deleteClaim (fun _ _ => None) (id c)) Scenario.world0
         = (Ok tt, w')
         /\ tables w' = tables Scenario.world0).
Proof.
  intros claim stored.
  apply (X23_claim_round_trip Scenario.env_direct (fun _ _ => None) claim
           Scenario.world0); [reflexivity|reflexivity|constructor].
Defined.

(** * The fallback report *)

Section FallbackReport.
Import SubjectOrchestrator.
Context (env : Env).

Lemma read_spec k x w :
  match read k x w with
  | (Ok _, w') => w' = w /\ x <> JNull
  | (Throw _, w') => w' = w /\ x = JNull
  end.
Proof. by destruct x. Qed.

Lemma is_null_dec (x : json) : {x = JNull} + {x <> JNull}.
Proof. destruct x; (by left) || (by right). Qed.

Lemma read_ok k x w : x <> JNull -> read k x w = (Ok (get_field k x), w).
Proof. by destruct x. Qed.

Lemma bind_bind_ok {A B C} (m : M A) (k1 : A -> M B) (k2 : B -> M C) w a w' :
  m w = (Ok a, w') -> bind (bind m k1) k2 w = bind (k1 a) k2 w'.
Proof. unfold bind. by intros ->. Qed.

(** A loop over elements whose body reads the element first, then adds at
    most one entry and has no effect. *)
Lemma roles_loop (company : string) :
  forall l acc w,
    match
      for_acc l acc
        (fun exp keyRoles =>
           c <- read "company" exp ;;
           if truthy c && differs c company then
             t <- read "title" exp ;;
             ret (keyRoles
                    ++ [text_or env t "Position" +:+ " at " +:+ toString env c])
           else ret keyRoles) w
    with
    | (Ok roles, w') =>
        w' = w /\ length acc <= length roles <= length acc + length l
    | (Throw _, w') => w' = w /\ JNull ∈ l
    end.
Proof.
  induction l as [|exp l IH]; intros acc w; simpl.
  - unfold ret. split; [done|lia].
  - unfold bind at 1 2. pose proof (read_spec "company" exp w) as Hr.
    destruct (read "company" exp w) as [[c|e] w1].
    2: { destruct Hr as [-> ->]. split; [done|]. left. }
    destruct Hr as [-> Hne].
    assert (exists roles1,
               (if truthy c && differs c company
                then
                  t <- read "title" exp ;;
                  ret (acc ++ [text_or env t "Position" +:+ " at "
                               +:+ toString env c])
                else ret acc) w = (Ok roles1, w)
               /\ length acc <= length roles1 <= length acc + 1)
      as (roles1 & E1 & Hl).
    { destruct (_ && _).
      - rewrite (bind_ok _ _ _ _ _ (read_ok "title" exp w Hne)).
        eexists. split; [reflexivity|]. rewrite length_app. simpl. lia.
      - exists acc. split; [done|lia]. }
    rewrite E1. specialize (IH roles1 w).
    destruct (for_acc l roles1 _ w) as [[roles|e] w'].
    + destruct IH as [-> IH]. split; [done|]. simpl. lia.
    + destruct IH as [-> IH]. split; [done|]. by right.
Qed.

(** X24. The key roles of the fallback report are never empty and never
    more than five: the current company, one entry for each of the first
    three positions at another company, and the first school, or the single
    entry [Professional] when there is none of these. The computation has no
    effect; it throws only when one of the first three positions or the first
    school is [null]. *)
Theorem X24_key_roles
    (current_company_name : option string) (p : LinkedInProfileData)
    (w : World) :
  match key_roles env current_company_name p w with
  | (Ok roles, w') => w' = w /\ 1 <= length roles <= 5
  | (Throw _, w') =>
      w' = w
      /\ (JNull ∈ take 3 (experiences p) \/ head (schools p) = Some JNull)
  end.
Proof.
  unfold key_roles, keyRoles, experiences, schools. cbv zeta.
  set (company := if present current_company_name then _ else _).
  set (keyRoles0 := if negb (String.eqb company "Unknown Company")
                    then _ else _).
  assert (H0 : length keyRoles0 <= 1)
    by (subst keyRoles0; destruct (negb _); simpl; lia).
  unfold bind at 1 2.
  match goal with
  | |- context [(if nonempty (experience p) then ?m else _) w] =>
      assert (match (if nonempty (experience p) then m else ret keyRoles0) w
              with
              | (Ok roles, w') =>
                  w' = w /\ length roles <= length keyRoles0 + 3
              | (Throw _, w') =>
                  w' = w /\ JNull ∈ take 3 (default [] (experience p))
              end) as H1
  end.
  { destruct (nonempty (experience p)).
    - pose proof (roles_loop company (take 3 (default [] (experience p)))
                    keyRoles0 w) as H.
      destruct (for_acc _ _ _ w) as [[roles|e] w']; [|done].
      destruct H as [-> H]. split; [done|].
      rewrite length_take in H. lia.
    - unfold ret. split; [done|lia]. }
  match type of H1 with
  | (let (_, _) := ?t in _) => destruct t as [[roles1|e] w1]
  end.
  2: { destruct H1 as [-> H1]. split; [done|by left]. }
  destruct H1 as [-> H1].
  destruct (education p) as [[|edu edus]|]; simpl.
  - unfold ret. split; [done|]. destruct roles1; simpl in *; lia.
  - unfold bind. pose proof (read_spec "title" edu w) as Hr.
    destruct (read "title" edu w) as [[t|e] w1].
    + destruct Hr as [-> _]. unfold ret. split; [done|].
      destruct (roles1 ++ _) eqn:E.
      * by destruct roles1.
      * rewrite <- E, length_app. simpl. lia.
    + destruct Hr as [-> ->]. split; [done|by right].
  - unfold ret. split; [done|]. destruct roles1; simpl in *; lia.
Qed.

(** [trim] strips white space only: a printable ASCII character of the
    string is in the trimmed string. *)
Lemma trim_keeps c s :
  c ∈ list_ascii_of_string s -> space1 c = false -> nat_of_ascii c < 128 ->
  c ∈ list_ascii_of_string (trim s).
Proof.
  intros Hin Hc Hlt. unfold trim, trim_chars, drop_space.
  rewrite list_ascii_of_string_of_list_ascii.
  apply list_elem_of_In. apply -> in_rev.
  apply list_elem_of_In, skip_space_keeps; [done..|].
  apply list_elem_of_In. apply -> in_rev.
  apply list_elem_of_In, skip_space_keeps; done.
Qed.

Lemma dash_in a b : "-"%char ∈ list_ascii_of_string (a +:+ "-" +:+ b).
Proof.
  induction a as [|x a IH]; [left|].
  change (String x a +:+ "-" +:+ b) with (String x (a +:+ "-" +:+ b)).
  by right.
Qed.

Lemma range_has_dash a b :
  let range := trim (a +:+ "-" +:+ b) in
  includes "-" (if String.eqb range "" then "Past" else range) = true.
Proof.
  intros range.
  assert (H : includes "-" range = true).
  { apply includes_char, trim_keeps; [apply dash_in|done|by apply Nat.ltb_lt]. }
  destruct (String.eqb_spec range "") as [E|]; [|done].
  by rewrite E in H.
Qed.

Lemma positions_loop :
  forall l acc w,
    match
      for_acc l acc
        (fun exp timeline =>
           duration <- read "duration" exp ;;
           start_year <- read "start_year" exp ;;
           title <- read "title" exp ;;
           company <- read "company" exp ;;
           ret (timeline
                  ++ [{| date := js_or duration
                                   (js_or start_year (JStr "Recent"));
                         event := text_or env title "Position" +:+ " at "
                                  +:+ text_or env company "Company";
                         source := "LinkedIn Profile" |}])) w
    with
    | (Ok events, w') =>
        w' = w
        /\ exists new,
             events = acc ++ new /\ length new = length l
             /\ Forall (fun ev => source ev = "LinkedIn Profile") new
    | (Throw _, w') => w' = w /\ JNull ∈ l
    end.
Proof.
  induction l as [|exp l IH]; intros acc w; simpl.
  - unfold ret. split; [done|]. exists []. by rewrite app_nil_r.
  - destruct (is_null_dec exp) as [->|Hne].
    { split; [done|]. left. }
    rewrite (bind_bind_ok _ _ _ _ _ _ (read_ok "duration" exp w Hne)).
    rewrite (bind_bind_ok _ _ _ _ _ _ (read_ok "start_year" exp w Hne)).
    rewrite (bind_bind_ok _ _ _ _ _ _ (read_ok "title" exp w Hne)).
    rewrite (bind_bind_ok _ _ _ _ _ _ (read_ok "company" exp w Hne)).
    unfold bind at 1, ret at 1.
    match goal with
    | |- context [for_acc l ?a _ w] => specialize (IH a w)
    end.
    destruct (for_acc l _ _ w) as [[events|e] w'].
    + destruct IH as [-> (new & -> & Hl & Hs)]. split; [done|].
      eexists (_ :: new). rewrite <- app_assoc. split; [reflexivity|].
      split; [simpl; lia|]. by constructor.
    + destruct IH as [-> IH]. split; [done|by right].
Qed.

Lemma schools_loop :
  forall l acc w,
    match
      for_acc l acc
        (fun edu timeline =>
           start_year <- read "start_year" edu ;;
           end_year <- read "end_year" edu ;;
           title <- read "title" edu ;;
           let range := trim (text_or env start_year "" +:+ "-"
                              +:+ text_or env end_year "") in
           ret (timeline
                  ++ [{| date := JStr (if String.eqb range "" then "Past"
                                       else range);
                         event := text_or env title "Education" +:+ " at "
                                  +:+ text_or env title "Institution";
                         source := "LinkedIn Profile" |}])) w
    with
    | (Ok events, w') =>
        w' = w
        /\ exists new,
             events = acc ++ new /\ length new = length l
             /\ Forall (fun ev => source ev = "LinkedIn Profile"
                                  /\ exists s, date ev = JStr s
                                               /\ includes "-" s = true) new
    | (Throw _, w') => w' = w /\ JNull ∈ l
    end.
Proof.
  induction l as [|edu l IH]; intros acc w; simpl.
  - unfold ret. split; [done|]. exists []. by rewrite app_nil_r.
  - destruct (is_null_dec edu) as [->|Hne].
    { split; [done|]. left. }
    rewrite (bind_bind_ok _ _ _ _ _ _ (read_ok "start_year" edu w Hne)).
    rewrite (bind_bind_ok _ _ _ _ _ _ (read_ok "end_year" edu w Hne)).
    rewrite (bind_bind_ok _ _ _ _ _ _ (read_ok "title" edu w Hne)).
    cbv zeta. unfold bind at 1, ret at 1.
    match goal with
    | |- context [for_acc l ?a _ w] => specialize (IH a w)
    end.
    destruct (for_acc l _ _ w) as [[events|e] w'].
    + destruct IH as [-> (new & -> & Hl & Hs)]. split; [done|].
      eexists (_ :: new). rewrite <- app_assoc. split; [reflexivity|].
      split; [simpl; lia|]. constructor; [|done]. simpl.
      split; [done|]. eexists. split; [reflexivity|]. apply range_has_dash.
    + destruct IH as [-> IH]. split; [done|by right].
Qed.

(** X25. The timeline of the fallback report has one entry for each of the
    first five positions followed by one entry for every school, each with
    the source [LinkedIn Profile]. The date of a school entry is the text
    [start-end] and contains the hyphen also when both years are missing:
    the default [Past] is never used. The computation has no effect; it
    throws only when one of the first five positions or a school is
    [null]. *)
Theorem X25_timeline (p : LinkedInProfileData) (w : World) :
  let positions := Nat.min 5 (length (experiences p)) in
  match timeline env p w with
  | (Ok events, w') =>
      w' = w
      /\ length events = positions + length (schools p)
      /\ Forall (fun ev => source ev = "LinkedIn Profile") events
      /\ Forall (fun ev => exists s, date ev = JStr s
                                     /\ includes "-" s = true)
                (drop positions events)
  | (Throw _, w') =>
      w' = w /\ (JNull ∈ take 5 (experiences p) \/ JNull ∈ schools p)
  end.
Proof.
  intros positions. subst positions.
  unfold timeline, experiences, schools. unfold bind at 1.
  match goal with
  | |- context [(if nonempty (experience p) then ?m else _) w] =>
      assert (match (if nonempty (experience p) then m else ret []) w with
              | (Ok events, w') =>
                  w' = w
                  /\ length events
                     = Nat.min 5 (length (default [] (experience p)))
                  /\ Forall (fun ev => source ev = "LinkedIn Profile") events
              | (Throw _, w') =>
                  w' = w /\ JNull ∈ take 5 (default [] (experience p))
              end) as H1
  end.
  { destruct (experience p) as [[|exp exps]|]; cbv [nonempty default];
      try (unfold ret; by repeat split).
    pose proof (positions_loop (take 5 (exp :: exps)) [] w) as H.
    destruct (for_acc _ _ _ w) as [[events|e] w']; [|exact H].
    destruct H as [-> (new & -> & Hl & Hs)]. split; [done|].
    rewrite length_take in Hl. simpl app. split; [|done]. exact Hl. }
  match type of H1 with
  | (let (_, _) := ?t in _) => destruct t as [[events1|e] w1]
  end.
  2: { destruct H1 as [-> H1]. split; [done|by left]. }
  destruct H1 as (-> & Hl1 & Hs1).
  destruct (education p) as [[|edu edus]|]; cbv [nonempty]; simpl default.
  - unfold ret. split; [done|]. split; [cbn [length]; lia|]. split; [done|].
    rewrite <- Hl1, drop_all. constructor.
  - pose proof (schools_loop (edu :: edus) events1 w) as H.
    destruct (for_acc _ _ _ w) as [[events|e] w']; [|by destruct H; auto].
    destruct H as [-> (new & -> & Hl & Hs)]. split; [done|].
    split; [rewrite length_app; lia|]. split.
    + apply Forall_app. split; [done|].
      eapply Forall_impl; [exact Hs|]. by intros ev [? _].
    + rewrite <- Hl1, drop_app_length.
      eapply Forall_impl; [exact Hs|]. by intros ev [_ ?].
  - unfold ret. split; [done|]. split; [cbn [length]; lia|]. split; [done|].
    rewrite <- Hl1, drop_all. constructor.
Qed.

End FallbackReport.
